(** * txt2ppt: the slide parser and the paginator

    A shallow embedding of [txt2ppt.ts] (and of the older variant of the same
    program kept beside it) together with the properties its specification
    states about them.

    Conventions of the embedding.
    - A JavaScript string is a [list ascii]: the sequence of its UTF-16 code
      units, restricted to the code units below 256.  In that range the
      white space of [\s], [trim], [trimStart] and [trimEnd] is 9..13, 32
      and 160, and the line terminators excluded by [.] are 10 and 13.
    - A JavaScript number used as a length or an index is a [nat] or a [Z];
      a number used as a coordinate or a height is an exact rational [Q]
      (rounding of binary floating point is not modelled).
    - The drawing calls on a PptxGenJS slide are recorded as a list of
      [Draw] values; fonts, colours and language tags are left out.
    - A loop whose termination is not structural takes a [fuel] argument and
      returns [None] when it runs out. *)

From Stdlib Require Import String Ascii List ZArith QArith Qround Qminmax.
From Stdlib Require Import Lia Lqa Bool Arith.
From Stdlib Require Import DecimalString DecimalNat.
Import ListNotations.

(** ** Strings *)

Module Js.

Definition str := list ascii.

Definition lit (s : string) : str := list_ascii_of_string s.

Definition LF : ascii := ascii_of_nat 10.
Definition CR : ascii := ascii_of_nat 13.
Definition TAB : ascii := ascii_of_nat 9.

(** [\s] on code units below 256. *)
Definition isSpace (c : ascii) : bool :=
  let n := nat_of_ascii c in
  ((9 <=? n) && (n <=? 13)) || (n =? 32) || (n =? 160).

(** [\d]. *)
Definition isDigit (c : ascii) : bool :=
  let n := nat_of_ascii c in (48 <=? n) && (n <=? 57).

(** [.] matches every code unit but a line terminator. *)
Definition isDot (c : ascii) : bool :=
  negb (Ascii.eqb c LF || Ascii.eqb c CR).

Arguments isSpace : simpl never.
Arguments isDigit : simpl never.
Arguments isDot : simpl never.

Definition isEmpty (s : str) : bool :=
  match s with [] => true | _ :: _ => false end.

(** [l.length === 0] for an array. *)
Definition isEmptyList {A : Type} (l : list A) : bool :=
  match l with [] => true | _ :: _ => false end.

Fixpoint takeWhile (p : ascii -> bool) (s : str) : str :=
  match s with
  | [] => []
  | c :: s' => if p c then c :: takeWhile p s' else []
  end.

Fixpoint dropWhile (p : ascii -> bool) (s : str) : str :=
  match s with
  | [] => []
  | c :: s' => if p c then dropWhile p s' else s
  end.

Definition trimStart (s : str) : str := dropWhile isSpace s.
Definition trimEnd (s : str) : str := rev (dropWhile isSpace (rev s)).
Definition trim (s : str) : str := trimEnd (trimStart s).

Fixpoint startsWith (p s : str) : bool :=
  match p, s with
  | [], _ => true
  | _ :: _, [] => false
  | a :: p', b :: s' => Ascii.eqb a b && startsWith p' s'
  end.

Definition endsWith (p s : str) : bool := startsWith (rev p) (rev s).

Fixpoint streq (a b : str) : bool :=
  match a, b with
  | [], [] => true
  | x :: a', y :: b' => Ascii.eqb x y && streq a' b'
  | _, _ => false
  end.

(** [s.split(sep)] for a one-character separator: never the empty list. *)
Fixpoint split (sep : ascii) (s : str) : list str :=
  match s with
  | [] => [[]]
  | c :: s' =>
      if Ascii.eqb c sep then [] :: split sep s'
      else match split sep s' with
           | [] => [[c]]
           | w :: ws => (c :: w) :: ws
           end
  end.

(** [l.join(sep)]. *)
Fixpoint join (sep : str) (l : list str) : str :=
  match l with
  | [] => []
  | x :: rest =>
      match rest with
      | [] => x
      | _ :: _ => x ++ sep ++ join sep rest
      end
  end.

(** [s.slice(a, b)] for non-negative [a] and [b]: empty when [b <= a]. *)
Definition slice (a b : nat) (s : str) : str := firstn (b - a) (skipn a s).

(** [s.slice(a)]. *)
Definition sliceFrom (a : nat) (s : str) : str := skipn a s.

(** [c.toLowerCase()] on code units below 256: A..Z and the accented capitals
    192..214 and 216..222 move up by 32. *)
Definition lower (c : ascii) : ascii :=
  let n := nat_of_ascii c in
  if ((65 <=? n) && (n <=? 90)) || ((192 <=? n) && (n <=? 214)) ||
     ((216 <=? n) && (n <=? 222))
  then ascii_of_nat (n + 32) else c.

(** A prefix test under the [i] flag, for a pattern [p] of ASCII characters:
    a letter of the pattern matches its two cases and nothing else. *)
Fixpoint startsWithCI (p s : str) : bool :=
  match p, s with
  | [], _ => true
  | _ :: _, [] => false
  | a :: p', b :: s' => Ascii.eqb (lower a) (lower b) && startsWithCI p' s'
  end.

Definition toLowerCase (s : str) : str := map lower s.

(** [s.replace(/\r\n?/g, "\n")]. *)
Fixpoint normalizeNewlines (s : str) : str :=
  match s with
  | [] => []
  | c :: s' =>
      if Ascii.eqb c CR then
        match s' with
        | d :: s'' =>
            if Ascii.eqb d LF then LF :: normalizeNewlines s''
            else LF :: normalizeNewlines s'
        | [] => [LF]
        end
      else c :: normalizeNewlines s'
  end.

(** The decimal numeral of a natural number, as [`${n}`] prints it. *)
Definition showNat (n : nat) : str :=
  lit (NilEmpty.string_of_uint (Nat.to_uint n)).

End Js.

Import Js.

(** ** The regular expressions of [txt2ppt.ts] *)

Module Re.

(** [HEADING_REGEX = /^#\s+/]. *)
Definition HEADING_test (s : str) : bool :=
  match s with
  | c :: d :: _ => Ascii.eqb c "#" && isSpace d
  | _ => false
  end.

(** [s.replace(HEADING_REGEX, "")]: the greedy [\s+] takes the whole run. *)
Definition HEADING_strip (s : str) : str :=
  if HEADING_test s then trimStart (sliceFrom 1 s) else s.

(** [SUBTITLE_REGEX = /^##\s+/]. *)
Definition SUBTITLE_test (s : str) : bool :=
  match s with
  | c :: d :: e :: _ => Ascii.eqb c "#" && Ascii.eqb d "#" && isSpace e
  | _ => false
  end.

Definition SUBTITLE_strip (s : str) : str :=
  if SUBTITLE_test s then trimStart (sliceFrom 2 s) else s.

(** [CODE_FENCE_REGEX = /^```/]. *)
Definition CODE_FENCE_test (s : str) : bool := startsWith (lit "```") s.

(** [NOTE_REGEX = /^>note:/i]. *)
Definition NOTE_test (s : str) : bool := startsWithCI (lit ">note:") s.
Definition NOTE_strip (s : str) : str :=
  if NOTE_test s then sliceFrom 6 s else s.

(** [BACKGROUND_REGEX = /^>bg:/i]. *)
Definition BACKGROUND_test (s : str) : bool := startsWithCI (lit ">bg:") s.
Definition BACKGROUND_strip (s : str) : str :=
  if BACKGROUND_test s then sliceFrom 4 s else s.

(** The tail [(.+)\)\s*$] of [IMAGE_REGEX] against the text after ["]("]:
    the closing parenthesis is not white space, so it is the last character
    that is not white space, and group 2 is all that stands before it. *)
Definition imageTail (rest : str) : option str :=
  match rev (trimEnd rest) with
  | c :: xrev =>
      if Ascii.eqb c ")" && negb (isEmpty xrev) && forallb isDot xrev
      then Some (rev xrev) else None
  | [] => None
  end.

(** The lazy group [(.*?)] followed by ["]("] and the tail: the shortest
    prefix of dot characters after which the rest of the pattern matches. *)
Fixpoint imageAlt (s : str) : option (str * str) :=
  match s with
  | [] => None
  | c :: s' =>
      let extend :=
        if isDot c then
          match imageAlt s' with
          | Some (a, p) => Some (c :: a, p)
          | None => None
          end
        else None in
      if Ascii.eqb c "]" then
        match s' with
        | d :: rest =>
            if Ascii.eqb d "(" then
              match imageTail rest with
              | Some p => Some ([], p)
              | None => extend
              end
            else extend
        | [] => extend
        end
      else extend
  end.

(** [line.match(IMAGE_REGEX)] with
    [IMAGE_REGEX = /^\s*!\[(.*?)]\((.+)\)\s*$/]: groups 1 and 2. *)
Definition IMAGE_match (line : str) : option (str * str) :=
  match trimStart line with
  | c :: d :: s =>
      if Ascii.eqb c "!" && Ascii.eqb d "[" then imageAlt s else None
  | _ => None
  end.

Definition IMAGE_test (line : str) : bool :=
  match IMAGE_match line with Some _ => true | None => false end.

(** The marker [([-*]|\d+\.)] at the head of [s], with what follows it. *)
Definition bulletMarker (s : str) : option (str * str) :=
  match s with
  | c :: t =>
      if Ascii.eqb c "-" || Ascii.eqb c "*" then Some ([c], t)
      else
        let ds := takeWhile isDigit s in
        match ds, dropWhile isDigit s with
        | _ :: _, e :: t' =>
            if Ascii.eqb e "." then Some (ds ++ [e], t') else None
        | _, _ => None
        end
  | [] => None
  end.

(** [line.match(BULLET_REGEX)]: groups 1, 2 and 3.  The pattern is, from the
    start of the string, a captured run of white space, a captured marker, at
    least one white space, and a captured run of dot characters up to the
    end of the string.  The marker is not white space, so group 1 is the
    whole leading run; the greedy [\s+] takes the whole run after the marker,
    and group 3 must reach the end of the string without a line
    terminator. *)
Definition BULLET_match (line : str) : option (str * str * str) :=
  let indent := takeWhile isSpace line in
  match bulletMarker (dropWhile isSpace line) with
  | Some (marker, after) =>
      match after with
      | c :: _ =>
          let rest := trimStart after in
          if isSpace c && forallb isDot rest
          then Some (indent, marker, rest) else None
      | [] => None
      end
  | None => None
  end.

Definition BULLET_test (line : str) : bool :=
  match BULLET_match line with Some _ => true | None => false end.

(** [/^\d+\.$/.test(marker)]. *)
Definition NUMBERED_test (marker : str) : bool :=
  match rev marker with
  | c :: ds => Ascii.eqb c "." && negb (isEmpty ds) && forallb isDigit ds
  | [] => false
  end.

(** A character of the class [[\s:-]]. *)
Definition isSeparatorChar (c : ascii) : bool :=
  isSpace c || Ascii.eqb c ":" || Ascii.eqb c "-".

(** [/^\|[\s:-]+\|$/.test(t)]: the class has no pipe, so the run is all
    that stands between the first and the last character. *)
Definition SEPARATOR_test (t : str) : bool :=
  match t with
  | c :: rest =>
      match rev rest with
      | d :: midrev =>
          Ascii.eqb c "|" && Ascii.eqb d "|" &&
          negb (isEmpty midrev) && forallb isSeparatorChar midrev
      | [] => false
      end
  | [] => false
  end.

(** [pathRaw.split(/#(cover|contain)$/i)]: the text before the tag and the
    tag, when the string ends with one. *)
Definition splitSizing (pathRaw : str) : str * option str :=
  let n := length pathRaw in
  if (6 <=? n) && streq (toLowerCase (sliceFrom (n - 6) pathRaw)) (lit "#cover")
  then (firstn (n - 6) pathRaw, Some (sliceFrom (n - 5) pathRaw))
  else if (8 <=? n) && streq (toLowerCase (sliceFrom (n - 8) pathRaw)) (lit "#contain")
  then (firstn (n - 8) pathRaw, Some (sliceFrom (n - 7) pathRaw))
  else (pathRaw, None).

End Re.

Import Re.

(** ** The data model *)

Inductive BulletType := bullet | number.

Record BulletItem := {
  text : str;
  bulletType : BulletType;
  indentLevel : Z
}.

Inductive Sizing := cover | contain.

Inductive Block :=
| Paragraph (ptext : str)
| Bullets (items : list BulletItem)
| Image (alt : str) (path : str) (sizing : option Sizing)
| Code (ctext : str) (language : option str)
| Table (rows : list (list str)).

Record SlideSpec := {
  title : str;
  subtitle : option str;
  blocks : list Block;
  notes : option str;
  background : option str
}.

(** How a slide came to be: from a heading line, implicitly by the first
    content met while no slide is open, or (older variant only) from a line
    of plain text met while no slide is open. *)
Inductive Origin :=
| FromHeading (headingText : str)
| Implicit
| FromText (line : str).

Definition MAX_INDENT_LEVEL : Z := 3.

(** [`Slide ${n}`]. *)
Definition slideTitle (n : nat) : str := lit "Slide " ++ showNat n.

(** [isTableLine] is shared by both variants of the parser. *)
Definition isTableLine (line : str) : bool :=
  let trimmed := trim line in
  if negb (startsWith (lit "|") trimmed) || negb (endsWith (lit "|") trimmed)
  then false
  else if SEPARATOR_test trimmed then false
  else existsb (Ascii.eqb "|") trimmed.

(** The cells of one table line: [inner.split("|").map(cell => cell.trim())]
    with [inner = candidate.slice(1, candidate.length - 1)]. *)
Definition tableRow (candidate : str) : list str :=
  let inner := slice 1 (length candidate - 1) candidate in
  map trim (split "|" inner).

(** [match[1].replace(/\t/g, "  ")]. *)
Definition expandTabs (s : str) : str :=
  flat_map (fun c => if Ascii.eqb c TAB then lit "  " else [c]) s.

(** The item pushed for one bullet line, from the groups of the match. *)
Definition bulletItem (m : str * str * str) : BulletItem :=
  let '(indent, marker, rest) := m in
  let indentSpaces := length (expandTabs indent) in
  {| text := trim rest;
     bulletType := if NUMBERED_test marker then number else bullet;
     indentLevel := Z.min (Z.of_nat indentSpaces / 2) MAX_INDENT_LEVEL |}.

(** ** The parser of [txt2ppt.ts] *)

Module Parser.

(** [origins] is a ghost field: it records, in creation order, how each
    slide was created; the program never reads it. *)
Record ParseState := {
  slides : list SlideSpec;
  current : option SlideSpec;
  codeBlock : option (option str * list str);
  origins : list Origin
}.

Definition initialState : ParseState :=
  {| slides := []; current := None; codeBlock := None; origins := [] |}.

Definition finalizeCurrentSlide (state : ParseState) : ParseState :=
  match current state with
  | Some s =>
      {| slides := slides state ++ [s]; current := None;
         codeBlock := codeBlock state; origins := origins state |}
  | None => state
  end.

Definition startNewSlide (state : ParseState) (rawTitle : option str)
    (origin : Origin) : ParseState :=
  let state1 := finalizeCurrentSlide state in
  let fallback := slideTitle (length (slides state1) + 1) in
  let title :=
    match option_map trim rawTitle with
    | Some t => if negb (isEmpty t) then t else fallback
    | None => fallback
    end in
  {| slides := slides state1;
     current := Some {| title := title; subtitle := None; blocks := [];
                        notes := None; background := None |};
     codeBlock := None;
     origins := origins state1 ++ [origin] |}.

Definition ensureSlide (state : ParseState) (fallbackTitle : option str)
    : ParseState :=
  match current state with
  | None =>
      let t := match fallbackTitle with
               | Some t => t
               | None => slideTitle (length (slides state) + 1)
               end in
      startNewSlide state (Some t) Implicit
  | Some _ => state
  end.

(** A mutation of the slide object [state.current] points to. *)
Definition updateCurrent (f : SlideSpec -> SlideSpec) (state : ParseState)
    : ParseState :=
  match current state with
  | Some s =>
      {| slides := slides state; current := Some (f s);
         codeBlock := codeBlock state; origins := origins state |}
  | None => state
  end.

Definition pushBlock (block : Block) (s : SlideSpec) : SlideSpec :=
  {| title := title s; subtitle := subtitle s; blocks := blocks s ++ [block];
     notes := notes s; background := background s |}.

Definition setSubtitle (t : str) (s : SlideSpec) : SlideSpec :=
  {| title := title s; subtitle := Some t; blocks := blocks s;
     notes := notes s; background := background s |}.

Definition addNote (noteText : str) (s : SlideSpec) : SlideSpec :=
  {| title := title s; subtitle := subtitle s; blocks := blocks s;
     notes := Some (match notes s with
                    | Some n => if isEmpty n then noteText
                                else n ++ [LF] ++ noteText
                    | None => noteText
                    end);
     background := background s |}.

Definition setBackground (p : str) (s : SlideSpec) : SlideSpec :=
  {| title := title s; subtitle := subtitle s; blocks := blocks s;
     notes := notes s; background := Some p |}.

Definition appendBlock (state : ParseState) (block : Block) : ParseState :=
  updateCurrent (pushBlock block) (ensureSlide state None).

Definition appendNote (state : ParseState) (line : str) : ParseState :=
  let state1 := ensureSlide state None in
  updateCurrent (addNote (trim (NOTE_strip line))) state1.

Definition updateBackground (state : ParseState) (line : str) : ParseState :=
  let state1 := ensureSlide state None in
  let backgroundPath := trim (BACKGROUND_strip line) in
  if negb (isEmpty backgroundPath)
  then updateCurrent (setBackground backgroundPath) state1
  else state1.

Definition clearCodeBlock (state : ParseState) : ParseState :=
  {| slides := slides state; current := current state; codeBlock := None;
     origins := origins state |}.

Definition appendCodeBlock (state : ParseState) : ParseState :=
  match codeBlock state with
  | None => state
  | Some (language, lines) =>
      clearCodeBlock (appendBlock state (Code (join [LF] lines) language))
  end.

(** [collectTable], walking the lines from [startIndex] on: the rows, and
    the number of lines taken. *)
Fixpoint collectTableFrom (ls : list str) : list (list str) * nat :=
  match ls with
  | [] => ([], 0%nat)
  | l :: rest =>
      let candidate := trim l in
      if negb (isTableLine candidate) then ([], 0%nat)
      else
        let (rows, k) := collectTableFrom rest in
        (tableRow candidate :: rows, S k)
  end.

Definition collectTable (lines : list str) (startIndex : nat)
    : list (list str) * Z :=
  let (rows, k) := collectTableFrom (skipn startIndex lines) in
  (rows, (Z.of_nat startIndex + Z.of_nat k - 1)%Z).

Fixpoint collectBulletsFrom (ls : list str) : list BulletItem * nat :=
  match ls with
  | [] => ([], 0%nat)
  | raw :: rest =>
      match BULLET_match raw with
      | None => ([], 0%nat)
      | Some m =>
          let (items, k) := collectBulletsFrom rest in
          (bulletItem m :: items, S k)
      end
  end.

Definition collectBullets (lines : list str) (startIndex : nat)
    : list BulletItem * Z :=
  let (items, k) := collectBulletsFrom (skipn startIndex lines) in
  (items, (Z.of_nat startIndex + Z.of_nat k - 1)%Z).

Definition isBlockBoundary (line : str) : bool :=
  let trimmed := trim line in
  if isEmpty trimmed then true
  else
    CODE_FENCE_test trimmed || SUBTITLE_test trimmed || HEADING_test trimmed ||
    NOTE_test trimmed || BACKGROUND_test trimmed || IMAGE_test line ||
    isTableLine trimmed || BULLET_test line.

(** [collectParagraph]: the buffer, and how far [index] moved. *)
Fixpoint collectParagraphFrom (ls : list str) : list str * nat :=
  match ls with
  | [] => ([], 0%nat)
  | raw :: rest =>
      if isEmpty raw || isEmpty (trim raw) then ([], 0%nat)
      else
        match rest with
        | [] => ([trim raw], 0%nat)
        | lookahead :: _ =>
            if isEmpty lookahead || isEmpty (trim lookahead)
            then ([trim raw], 0%nat)
            else if isBlockBoundary lookahead then ([trim raw], 0%nat)
            else
              let (buffer, k) := collectParagraphFrom rest in
              (trim raw :: buffer, S k)
        end
  end.

Definition collectParagraph (lines : list str) (startIndex : nat)
    : str * Z :=
  let (buffer, k) := collectParagraphFrom (skipn startIndex lines) in
  (join [LF] buffer, (Z.of_nat startIndex + Z.of_nat k)%Z).

(** The sizing of an image from the token split off its path. *)
Definition sizingOf (sizingToken : option str) : option Sizing :=
  match sizingToken with
  | Some tok =>
      if isEmpty tok then None
      else if streq (toLowerCase tok) (lit "cover") then Some cover
      else Some contain
  | None => None
  end.

Definition imageBlock (m : str * str) : Block :=
  let (altRaw, pathRaw) := m in
  let (imagePath, sizingToken) := splitSizing pathRaw in
  Image (trim altRaw) (trim imagePath) (sizingOf sizingToken).

Definition openCodeBlock (state : ParseState) (language : option str)
    : ParseState :=
  {| slides := slides state; current := current state;
     codeBlock := Some (language, []); origins := origins state |}.

Definition pushCodeLine (state : ParseState) (rawLine : str) : ParseState :=
  match codeBlock state with
  | Some (language, lines) =>
      {| slides := slides state; current := current state;
         codeBlock := Some (language, lines ++ [rawLine]);
         origins := origins state |}
  | None => state
  end.

(** The body of the [for] loop of [parseSlides] at [index]: the state after
    it, and the value of [index] when the body ends (before [index += 1]). *)
Definition processLine (lines : list str) (index : nat) (state : ParseState)
    : ParseState * Z :=
  let rawLine := nth index lines [] in
  let trimmedRight := trimEnd rawLine in
  let trimmed := trim trimmedRight in
  let here := Z.of_nat index in
  match codeBlock state with
  | Some _ =>
      if CODE_FENCE_test trimmedRight then (appendCodeBlock state, here)
      else (pushCodeLine state rawLine, here)
  | None =>
      if isEmpty trimmed then (state, here)
      else if CODE_FENCE_test trimmedRight then
        let l := trim (sliceFrom 3 trimmedRight) in
        (openCodeBlock state (if isEmpty l then None else Some l), here)
      else if SUBTITLE_test trimmed then
        (updateCurrent (setSubtitle (trim (SUBTITLE_strip trimmed)))
           (ensureSlide state None), here)
      else if HEADING_test trimmed then
        let t := trim (HEADING_strip trimmed) in
        (startNewSlide state (Some t) (FromHeading t), here)
      else if NOTE_test trimmed then (appendNote state trimmedRight, here)
      else if BACKGROUND_test trimmed then
        (updateBackground state trimmedRight, here)
      else
        match IMAGE_match rawLine with
        | Some m => (appendBlock state (imageBlock m), here)
        | None =>
            if isTableLine trimmedRight then
              let (rows, nextIndex) := collectTable lines index in
              (appendBlock state (Table rows), nextIndex)
            else if BULLET_test rawLine then
              let (items, nextIndex) := collectBullets lines index in
              (appendBlock state (Bullets items), nextIndex)
            else
              let (paragraph, nextIndex) := collectParagraph lines index in
              (appendBlock state (Paragraph paragraph), nextIndex)
        end
  end.

(** The [for] loop of [parseSlides]. *)
Fixpoint parseLoop (fuel : nat) (lines : list str) (index : nat)
    (state : ParseState) : option ParseState :=
  match fuel with
  | O => None
  | S fuel' =>
      if (index <? length lines)%nat then
        let (state', nextIndex) := processLine lines index state in
        parseLoop fuel' lines (Z.to_nat (nextIndex + 1)) state'
      else Some state
  end.

Definition splitLines (rawText : str) : list str :=
  split LF (normalizeNewlines rawText).

(** The state [parseSlides] ends in. *)
Definition parseFinal (rawText : str) : option ParseState :=
  let lines := splitLines rawText in
  match parseLoop (S (length lines)) lines 0 initialState with
  | Some state => Some (finalizeCurrentSlide (appendCodeBlock state))
  | None => None
  end.

Definition parseSlides (rawText : str) : option (list SlideSpec) :=
  option_map slides (parseFinal rawText).

(** The ghost record of how each slide of [parseSlides] was created. *)
Definition parseOrigins (rawText : str) : option (list Origin) :=
  option_map origins (parseFinal rawText).

End Parser.

(** ** The paginator of [txt2ppt.ts] *)

Module Render.

Local Open Scope Q_scope.

Definition SAFE_MARGIN_X : Q := 0.6.
Definition TITLE_Y : Q := 0.4.
Definition SUBTITLE_Y : Q := 1.0.
Definition BODY_TOP : Q := 1.6.
Definition LINE_HEIGHT : Q := 0.35.
Definition BULLET_LINE_HEIGHT : Q := 0.38.
Definition CODE_LINE_HEIGHT : Q := 0.32.
Definition MIN_BLOCK_HEIGHT : Q := 0.6.
Definition BLOCK_GAP : Q := 0.2.
Definition MAX_IMAGE_HEIGHT : Q := 3.5.
Definition TABLE_ROW_HEIGHT : Q := 0.45.
Definition TABLE_BASE_HEIGHT : Q := 0.6.

(** [a < b] on numbers. *)
Definition Qltb (a b : Q) : bool := negb (Qle_bool b a).

(** [n] as a number, for a length [n]. *)
Definition ofNat (n : nat) : Q := inject_Z (Z.of_nat n).

(** One drawing call on a slide of the presentation. *)
Inductive Draw :=
| AddText (t : str) (x y w h : Q)
| AddItems (items : list BulletItem) (x y w h : Q)
| AddImage (path : str) (altText : option str) (x y w h : Q) (sizing : Sizing)
| AddTable (rows : list (list str)) (x y w : Q)
| AddNotes (t : str).

(** One slide of the presentation (a page): its background and the drawing
    calls made on it, in order. *)
Record Page := {
  pageBackground : option str;
  pageDraws : list Draw
}.

Inductive RenderResult :=
| Rendered (nextCursor : Q)
| Split (nextCursor : Q) (remainder : Block)
| Defer.

Record RenderDimensions := {
  x : Q;
  y : Q;
  width : Q;
  availableHeight : Q;
  safeBottom : Q
}.

(** A string used as a condition: defined and not empty. *)
Definition truthy (s : option str) : option str :=
  match s with
  | Some t => if isEmpty t then None else Some t
  | None => None
  end.

(** Each [render...] function returns its result and the drawing calls it
    made on the slide. *)
Definition renderParagraph (text : str) (dims : RenderDimensions)
    : RenderResult * list Draw :=
  let lines := split LF text in
  let neededHeight := Qmax (ofNat (length lines) * LINE_HEIGHT) MIN_BLOCK_HEIGHT in
  if Qle_bool neededHeight (availableHeight dims) then
    (Rendered (y dims + neededHeight),
     [AddText text (x dims) (y dims) (width dims)
        (Qmax neededHeight MIN_BLOCK_HEIGHT)])
  else if Qltb (availableHeight dims) MIN_BLOCK_HEIGHT then (Defer, [])
  else
    let maxLines :=
      Z.max (Qfloor (availableHeight dims / LINE_HEIGHT) - 1) 1 in
    let head := join [LF] (firstn (Z.to_nat maxLines) lines) in
    let tail := join [LF] (skipn (Z.to_nat maxLines) lines) in
    (Split (y dims + availableHeight dims) (Paragraph (trimStart tail)),
     [AddText head (x dims) (y dims) (width dims)
        (Qmax (availableHeight dims) MIN_BLOCK_HEIGHT)]).

Definition renderBullets (items : list BulletItem) (dims : RenderDimensions)
    : RenderResult * list Draw :=
  match items with
  | [] => (Rendered (y dims), [])
  | _ :: _ =>
      let neededHeight :=
        Qmax (ofNat (length items) * BULLET_LINE_HEIGHT) MIN_BLOCK_HEIGHT in
      if Qltb (availableHeight dims) neededHeight &&
         Qltb (availableHeight dims) MIN_BLOCK_HEIGHT
      then (Defer, [])
      else
        let maxItems :=
          if Qle_bool neededHeight (availableHeight dims)
          then Z.of_nat (length items)
          else Z.max (Qfloor (availableHeight dims / BULLET_LINE_HEIGHT) - 1) 1 in
        let draw :=
          AddItems (firstn (Z.to_nat maxItems) items)
            (x dims) (y dims) (width dims)
            (Qmax (Qmin neededHeight (availableHeight dims)) MIN_BLOCK_HEIGHT) in
        if (maxItems =? Z.of_nat (length items))%Z then
          (Rendered (y dims + Qmin neededHeight (availableHeight dims)), [draw])
        else
          (Split (y dims + availableHeight dims)
             (Bullets (skipn (Z.to_nat maxItems) items)), [draw])
  end.

Definition renderImage (alt path : str) (sizing : option Sizing)
    (dims : RenderDimensions) : RenderResult * list Draw :=
  let available := Qmax (availableHeight dims) 0 in
  if Qltb available MIN_BLOCK_HEIGHT then (Defer, [])
  else
    let height := Qmax (Qmin MAX_IMAGE_HEIGHT available) MIN_BLOCK_HEIGHT in
    let sizingType := match sizing with Some cover => cover | _ => contain end in
    (Rendered (y dims + height),
     [AddImage path (truthy (Some alt)) (x dims) (y dims) (width dims) height
        sizingType]).

Definition renderCode (text : str) (language : option str)
    (dims : RenderDimensions) : RenderResult * list Draw :=
  let lines := split LF text in
  let neededHeight :=
    Qmax (ofNat (length lines) * CODE_LINE_HEIGHT + 0.2) MIN_BLOCK_HEIGHT in
  if Qltb (availableHeight dims) neededHeight &&
     Qltb (availableHeight dims) MIN_BLOCK_HEIGHT
  then (Defer, [])
  else
    let fits := Qle_bool neededHeight (availableHeight dims) in
    let lineLimit :=
      if fits then Z.of_nat (length lines)
      else Z.max (Qfloor ((availableHeight dims - 0.2) / CODE_LINE_HEIGHT) - 1) 1 in
    let head := join [LF] (firstn (Z.to_nat lineLimit) lines) in
    let draw :=
      AddText head (x dims) (y dims) (width dims)
        (Qmax (Qmin neededHeight (availableHeight dims)) MIN_BLOCK_HEIGHT) in
    if fits then
      (Rendered (y dims + Qmin neededHeight (availableHeight dims)), [draw])
    else
      (Split (y dims + availableHeight dims)
         (Code (trimStart (join [LF] (skipn (Z.to_nat lineLimit) lines)))
            language),
       [draw]).

Definition renderTable (rows : list (list str)) (dims : RenderDimensions)
    : RenderResult * list Draw :=
  let neededHeight :=
    Qmax (TABLE_BASE_HEIGHT + ofNat (length rows) * TABLE_ROW_HEIGHT)
      MIN_BLOCK_HEIGHT in
  if Qltb (availableHeight dims) neededHeight &&
     Qltb (availableHeight dims) MIN_BLOCK_HEIGHT
  then (Defer, [])
  else
    let targetHeight :=
      Qmax (Qmin neededHeight (availableHeight dims)) MIN_BLOCK_HEIGHT in
    (Rendered (y dims + targetHeight),
     [AddTable rows (x dims) (y dims) (width dims)]).

Definition renderBlock (block : Block) (dims : RenderDimensions)
    : RenderResult * list Draw :=
  match block with
  | Paragraph t => renderParagraph t dims
  | Bullets items => renderBullets items dims
  | Image alt path sizing => renderImage alt path sizing dims
  | Code t language => renderCode t language dims
  | Table rows => renderTable rows dims
  end.


Definition dimsAt (safeWidth safeBottom cursor : Q) : RenderDimensions :=
  {| x := SAFE_MARGIN_X; y := cursor; width := safeWidth;
     availableHeight := safeBottom - cursor; safeBottom := safeBottom |}.

(** What the inner [while] loop leaves behind. *)
Record Placed := {
  queueAfter : list Block;
  cursorAfter : Q;
  consumedAfter : bool;
  drawsAfter : list Draw
}.

(** The inner [while (queue.length > 0)] loop of one page. *)
Fixpoint placeLoop (fuel : nat) (safeWidth safeBottom : Q)
    (queue : list Block) (cursor : Q) (consumed : bool) (draws : list Draw)
    : option Placed :=
  match fuel with
  | O => None
  | S fuel' =>
      match queue with
      | [] => Some {| queueAfter := queue; cursorAfter := cursor;
                      consumedAfter := consumed; drawsAfter := draws |}
      | block :: rest =>
          let (result, ds) := renderBlock block (dimsAt safeWidth safeBottom cursor) in
          let after (nextCursor : Q) (queue' : list Block) :=
            let cursor' := nextCursor + BLOCK_GAP in
            if Qle_bool (safeBottom - BLOCK_GAP) cursor' then
              Some {| queueAfter := queue'; cursorAfter := cursor';
                      consumedAfter := true; drawsAfter := draws ++ ds |}
            else placeLoop fuel' safeWidth safeBottom queue' cursor' true
                   (draws ++ ds) in
          match result with
          | Defer => Some {| queueAfter := queue; cursorAfter := cursor;
                             consumedAfter := consumed;
                             drawsAfter := draws ++ ds |}
          | Rendered nextCursor => after nextCursor rest
          | Split nextCursor remainder => after nextCursor (remainder :: rest)
          end
      end
  end.

(** The drawing calls that open a page: the title and the subtitle. *)
Definition pageHeader (safeWidth : Q) (spec : SlideSpec) (sequence : nat)
    : list Draw :=
  let slideTitle :=
    if (sequence =? 0)%nat then title spec else title spec ++ lit " (cont.)" in
  AddText slideTitle SAFE_MARGIN_X TITLE_Y safeWidth 0.8 ::
  match truthy (subtitle spec) with
  | Some s => [AddText s SAFE_MARGIN_X SUBTITLE_Y safeWidth 0.6]
  | None => []
  end.

Definition pageBackgroundOf (spec : SlideSpec) (defaultBackground : option str)
    : option str :=
  match truthy (background spec) with
  | Some b => Some b
  | None => truthy defaultBackground
  end.

Definition pageNotes (spec : SlideSpec) (firstSlide : bool) : list Draw :=
  if firstSlide then
    match truthy (notes spec) with
    | Some n => [AddNotes n]
    | None => []
    end
  else [].

(** The outer [while (queue.length > 0 || firstSlide)] loop for one slide
    specification: the pages it adds to the presentation. *)
Fixpoint pageLoop (fuel : nat) (safeWidth safeBottom : Q)
    (defaultBackground : option str) (spec : SlideSpec)
    (queue : list Block) (sequence : nat) (firstSlide : bool)
    (pages : list Page) : option (list Page) :=
  match fuel with
  | O => None
  | S fuel' =>
      if negb (isEmptyList queue) || firstSlide then
        match placeLoop fuel' safeWidth safeBottom queue BODY_TOP false
                (pageHeader safeWidth spec sequence) with
        | None => None
        | Some placed =>
            let bg := pageBackgroundOf spec defaultBackground in
            let draws := drawsAfter placed ++ pageNotes spec firstSlide in
            let page ds := {| pageBackground := bg; pageDraws := ds |} in
            let again q ds :=
              pageLoop fuel' safeWidth safeBottom defaultBackground spec q
                (sequence + 1) false (pages ++ [page ds]) in
            match queueAfter placed with
            | [] => Some (pages ++ [page draws])
            | block :: rest =>
                if negb (consumedAfter placed) then
                  if negb (Qeq_bool (cursorAfter placed) BODY_TOP) then
                    again (block :: rest) draws
                  else
                    let (forced, ds) :=
                      renderBlock block
                        (dimsAt safeWidth safeBottom (cursorAfter placed)) in
                    match forced with
                    | Rendered _ => again rest (draws ++ ds)
                    | Split _ remainder => again (remainder :: rest) (draws ++ ds)
                    | Defer => Some (pages ++ [page (draws ++ ds)])
                    end
                else again (block :: rest) draws
            end
        end
      else Some pages
  end.

(** The pages of one slide specification. *)
Definition renderSpec (fuel : nat) (safeWidth safeBottom : Q)
    (defaultBackground : option str) (spec : SlideSpec) : option (list Page) :=
  pageLoop fuel safeWidth safeBottom defaultBackground spec (blocks spec) 0 true [].



End Render.

(** ** The older variant of the program (the second source file)

    Its [renderParagraph], [renderBullets] and [renderCode] are, statement
    for statement, those of [txt2ppt.ts]; its parser, [renderImage],
    [renderTable] and the loop of [renderSlides] differ and are embedded
    here. *)

Module Part000.

(** What a call can end in: a value, a [TypeError], or no fuel left. *)
Inductive Outcome (A : Type) :=
| Returned (a : A)
| Threw
| OutOfFuel.

Arguments Returned {A} a.
Arguments Threw {A}.
Arguments OutOfFuel {A}.

(** The variables the closures of [parseSlides] share; [origins] is a ghost
    field as in [Parser.ParseState]. *)
Record ParseState := {
  slides : list SlideSpec;
  current : option SlideSpec;
  codeState : option (option str * list str);
  origins : list Origin
}.

Definition initialState : ParseState :=
  {| slides := []; current := None; codeState := None; origins := [] |}.

(** [pushCurrent] pushes the current slide and leaves [current] as it is. *)
Definition pushCurrent (state : ParseState) : ParseState :=
  match current state with
  | Some s =>
      {| slides := slides state ++ [s]; current := current state;
         codeState := codeState state; origins := origins state |}
  | None => state
  end.

(** [ensureSlide(title)]: always opens a new slide. *)
Definition ensureSlide (state : ParseState) (t : str) (origin : Origin)
    : ParseState :=
  let state1 := pushCurrent state in
  let t' := trim t in
  {| slides := slides state1;
     current :=
       Some {| title := if isEmpty t' then slideTitle (length (slides state1) + 1)
                        else t';
               subtitle := None; blocks := []; notes := None;
               background := None |};
     codeState := None;
     origins := origins state1 ++ [origin] |}.

(** [if (!current) ensureSlide(`Slide ${slides.length + 1}`)]. *)
Definition needCurrent (state : ParseState) : ParseState :=
  match current state with
  | None => ensureSlide state (slideTitle (length (slides state) + 1)) Implicit
  | Some _ => state
  end.

Definition updateCurrent (f : SlideSpec -> SlideSpec) (state : ParseState)
    : ParseState :=
  match current state with
  | Some s =>
      {| slides := slides state; current := Some (f s);
         codeState := codeState state; origins := origins state |}
  | None => state
  end.

Definition setCodeState (c : option (option str * list str))
    (state : ParseState) : ParseState :=
  {| slides := slides state; current := current state; codeState := c;
     origins := origins state |}.

Definition appendNote (state : ParseState) (line : str) : ParseState :=
  updateCurrent (Parser.addNote (trim (NOTE_strip line))) (needCurrent state).

Definition setBackground (state : ParseState) (line : str) : ParseState :=
  let state1 := needCurrent state in
  let bgPath := trim (BACKGROUND_strip line) in
  if negb (isEmpty bgPath)
  then updateCurrent (Parser.setBackground bgPath) state1
  else state1.

(** Pushing the code block: [codeState] is read after [ensureSlide] may have
    set it to [null], in which case reading [codeState.lines] throws. *)
Definition pushCode (state : ParseState) : option ParseState :=
  let state1 := needCurrent state in
  match codeState state1 with
  | Some (language, lines) =>
      Some (updateCurrent (Parser.pushBlock (Code (join [LF] lines) language))
              state1)
  | None => None
  end.

(** The lines after the first of a table: how many follow. *)
Fixpoint tableLinesFrom (ls : list str) : list str :=
  match ls with
  | [] => []
  | l :: rest =>
      if isTableLine l then trimEnd l :: tableLinesFrom rest else []
  end.

(** [/^(#|##|```|\s*!\[|>note:|>bg:)/.test(t)]. *)
Definition PARAGRAPH_STOP_test (t : str) : bool :=
  startsWith (lit "#") t || startsWith (lit "##") t ||
  startsWith (lit "```") t || startsWith (lit "![") (trimStart t) ||
  startsWith (lit ">note:") t || startsWith (lit ">bg:") t.

(** The [while] loop that gathers the lines of a paragraph after its
    first. *)
Fixpoint paragraphLinesFrom (ls : list str) : list str :=
  match ls with
  | [] => []
  | next :: rest =>
      if isEmpty (trim next) then []
      else if PARAGRAPH_STOP_test (trim next) then []
      else if isTableLine next then []
      else if BULLET_test next then []
      else trim next :: paragraphLinesFrom rest
  end.

(** The body of the [for] loop at [i]: [None] when it throws. *)
Definition processLine (lines : list str) (i : nat) (state : ParseState)
    : option (ParseState * Z) :=
  let rawLine := nth i lines [] in
  let line := trimEnd rawLine in
  let here := Z.of_nat i in
  match codeState state with
  | Some (language, codeLines) =>
      if CODE_FENCE_test line then
        match pushCode state with
        | Some state1 => Some (setCodeState None state1, here)
        | None => None
        end
      else Some (setCodeState (Some (language, codeLines ++ [rawLine])) state, here)
  | None =>
      if CODE_FENCE_test line then
        let lang := trim (sliceFrom 3 line) in
        Some (setCodeState (Some (if isEmpty lang then None else Some lang, []))
                state, here)
      else if isEmpty (trim line) then Some (state, here)
      else if HEADING_test line then
        let t := trim (HEADING_strip line) in
        Some (ensureSlide state t (FromHeading t), here)
      else if SUBTITLE_test line then
        Some (updateCurrent (Parser.setSubtitle (trim (SUBTITLE_strip line)))
                (needCurrent state), here)
      else if NOTE_test line then Some (appendNote state line, here)
      else if BACKGROUND_test line then Some (setBackground state line, here)
      else
        match IMAGE_match rawLine with
        | Some m =>
            Some (updateCurrent (Parser.pushBlock (Parser.imageBlock m))
                    (needCurrent state), here)
        | None =>
            if isTableLine line then
              let more := tableLinesFrom (skipn (i + 1) lines) in
              let rows := map (fun tl => tableRow (trim tl)) (line :: more) in
              Some (updateCurrent (Parser.pushBlock (Table rows))
                      (needCurrent state),
                    (here + Z.of_nat (length more))%Z)
            else
              match BULLET_match rawLine with
              | Some _ =>
                  let (items, k) := Parser.collectBulletsFrom (skipn i lines) in
                  Some (updateCurrent (Parser.pushBlock (Bullets items))
                          (needCurrent state),
                        (here + Z.of_nat k - 1)%Z)
              | None =>
                  match current state with
                  | None => Some (ensureSlide state line (FromText line), here)
                  | Some _ =>
                      let more := paragraphLinesFrom (skipn (i + 1) lines) in
                      let t := join [LF] (trim rawLine :: more) in
                      Some (updateCurrent (Parser.pushBlock (Paragraph t))
                              (needCurrent state),
                            (here + Z.of_nat (length more))%Z)
                  end
              end
        end
  end.

Fixpoint parseLoop (fuel : nat) (lines : list str) (i : nat)
    (state : ParseState) : Outcome ParseState :=
  match fuel with
  | O => OutOfFuel
  | S fuel' =>
      if (i <? length lines)%nat then
        match processLine lines i state with
        | Some (state', i') => parseLoop fuel' lines (Z.to_nat (i' + 1)) state'
        | None => Threw
        end
      else Returned state
  end.

(** The statements after the loop: flush an open fence, push the slide. *)
Definition finish (state : ParseState) : Outcome ParseState :=
  let flushed :=
    match codeState state with
    | Some _ => pushCode state
    | None => Some state
    end in
  match flushed with
  | Some state1 => Returned (pushCurrent state1)
  | None => Threw
  end.

Definition parseFinal (rawText : str) : Outcome ParseState :=
  let lines := Parser.splitLines rawText in
  match parseLoop (S (length lines)) lines 0 initialState with
  | Returned state => finish state
  | Threw => Threw
  | OutOfFuel => OutOfFuel
  end.

Definition parseSlides (rawText : str) : Outcome (list SlideSpec) :=
  match parseFinal rawText with
  | Returned state => Returned (slides state)
  | Threw => Threw
  | OutOfFuel => OutOfFuel
  end.

Definition parseOrigins (rawText : str) : Outcome (list Origin) :=
  match parseFinal rawText with
  | Returned state => Returned (origins state)
  | Threw => Threw
  | OutOfFuel => OutOfFuel
  end.

Import Render.
Local Open Scope Q_scope.

Definition renderImage (alt path : str) (sizing : option Sizing)
    (dims : RenderDimensions) : RenderResult * list Draw :=
  let height := Qmin 3.5 (availableHeight dims) in
  if Qltb height MIN_BLOCK_HEIGHT then (Defer, [])
  else
    let H := Qmax (Qmin 3.5 (availableHeight dims)) MIN_BLOCK_HEIGHT in
    let sizingType := match sizing with Some s => s | None => contain end in
    (Rendered (y dims + Qmax height MIN_BLOCK_HEIGHT),
     [AddImage path (truthy (Some alt)) (x dims) (y dims) (width dims) H
        sizingType]).

Definition renderTable (rows : list (list str)) (dims : RenderDimensions)
    : RenderResult * list Draw :=
  let rowHeight := 0.45 in
  let baseHeight := 0.6 in
  let neededHeight :=
    Qmax (baseHeight + ofNat (length rows) * rowHeight) MIN_BLOCK_HEIGHT in
  if Qltb (availableHeight dims) neededHeight &&
     Qltb (availableHeight dims) MIN_BLOCK_HEIGHT
  then (Defer, [])
  else
    let usedHeight :=
      Qmin neededHeight (Qmax (availableHeight dims) MIN_BLOCK_HEIGHT) in
    (Rendered (y dims + usedHeight),
     [AddTable rows (x dims) (y dims) (width dims)]).

Definition renderBlock (block : Block) (dims : RenderDimensions)
    : RenderResult * list Draw :=
  match block with
  | Paragraph t => renderParagraph t dims
  | Bullets items => renderBullets items dims
  | Image alt path sizing => renderImage alt path sizing dims
  | Code t language => renderCode t language dims
  | Table rows => renderTable rows dims
  end.

(** The inner loop, the same statements as in [txt2ppt.ts]. *)
Fixpoint placeLoop (fuel : nat) (safeWidth safeBottom : Q)
    (queue : list Block) (cursor : Q) (consumed : bool) (draws : list Draw)
    : option Placed :=
  match fuel with
  | O => None
  | S fuel' =>
      match queue with
      | [] => Some {| queueAfter := queue; cursorAfter := cursor;
                      consumedAfter := consumed; drawsAfter := draws |}
      | block :: rest =>
          let (result, ds) := renderBlock block (dimsAt safeWidth safeBottom cursor) in
          let after (nextCursor : Q) (queue' : list Block) :=
            let cursor' := nextCursor + BLOCK_GAP in
            if Qle_bool (safeBottom - BLOCK_GAP) cursor' then
              Some {| queueAfter := queue'; cursorAfter := cursor';
                      consumedAfter := true; drawsAfter := draws ++ ds |}
            else placeLoop fuel' safeWidth safeBottom queue' cursor' true
                   (draws ++ ds) in
          match result with
          | Defer => Some {| queueAfter := queue; cursorAfter := cursor;
                             consumedAfter := consumed;
                             drawsAfter := draws ++ ds |}
          | Rendered nextCursor => after nextCursor rest
          | Split nextCursor remainder => after nextCursor (remainder :: rest)
          end
      end
  end.

(** The outer loop: a forced placement that defers changes nothing, and the
    loop goes round again as long as the queue is not empty. *)
Fixpoint pageLoop (fuel : nat) (safeWidth safeBottom : Q)
    (defaultBackground : option str) (spec : SlideSpec)
    (queue : list Block) (part : nat) (isFirstSlide : bool)
    (pages : list Page) : option (list Page) :=
  match fuel with
  | O => None
  | S fuel' =>
      if negb (isEmptyList queue) || isFirstSlide then
        match placeLoop fuel' safeWidth safeBottom queue BODY_TOP false
                (pageHeader safeWidth spec part) with
        | None => None
        | Some placed =>
            let bg := pageBackgroundOf spec defaultBackground in
            let draws := drawsAfter placed ++ pageNotes spec isFirstSlide in
            let page ds := {| pageBackground := bg; pageDraws := ds |} in
            let again q ds :=
              pageLoop fuel' safeWidth safeBottom defaultBackground spec q
                (part + 1) false (pages ++ [page ds]) in
            let finish q ds :=
              if isEmptyList q then Some (pages ++ [page ds]) else again q ds in
            match queueAfter placed with
            | [] => finish [] draws
            | block :: rest =>
                if negb (consumedAfter placed) then
                  if negb (Qeq_bool (cursorAfter placed) BODY_TOP) then
                    again (block :: rest) draws
                  else
                    let (forcedResult, ds) :=
                      renderBlock block
                        (dimsAt safeWidth safeBottom (cursorAfter placed)) in
                    match forcedResult with
                    | Rendered _ => finish rest (draws ++ ds)
                    | Split _ remainder =>
                        finish (remainder :: rest) (draws ++ ds)
                    | Defer => finish (block :: rest) (draws ++ ds)
                    end
                else finish (block :: rest) draws
            end
        end
      else Some pages
  end.

Definition renderSpec (fuel : nat) (safeWidth safeBottom : Q)
    (defaultBackground : option str) (spec : SlideSpec) : option (list Page) :=
  pageLoop fuel safeWidth safeBottom defaultBackground spec (blocks spec) 0 true [].

End Part000.

(** ** Vocabulary of the properties *)

Module Props.

Import Render.
Local Open Scope Q_scope.

(** The blocks [renderBlock] never splits. *)
Definition isUnsplittable (b : Block) : bool :=
  match b with
  | Image _ _ _ | Table _ => true
  | Paragraph _ | Bullets _ | Code _ _ => false
  end.





(** The number of lines or items of a block, the size [renderBlock] splits
    by; an image or a table counts for one. *)
Definition blockSize (b : Block) : nat :=
  match b with
  | Paragraph t => length (split LF t)
  | Code t _ => length (split LF t)
  | Bullets items => length items
  | Image _ _ _ | Table _ => 1
  end.

(** The number of lines or items one drawing call shows. *)
Definition drawSize (d : Draw) : nat :=
  match d with
  | AddText t _ _ _ _ => length (split LF t)
  | AddItems items _ _ _ _ => length items
  | AddImage _ _ _ _ _ _ _ | AddTable _ _ _ _ | AddNotes _ => 1
  end.

Definition sameKind (a b : Block) : bool :=
  match a, b with
  | Paragraph _, Paragraph _ | Bullets _, Bullets _ | Code _ _, Code _ _
  | Image _ _ _, Image _ _ _ | Table _, Table _ => true
  | _, _ => false
  end.



(** The texts of one paragraph over a sequence of placements: the head
    drawn at each split, then the text that remains. *)
Fixpoint paragraphFragments (ds : list RenderDimensions) (t : str)
    : list str :=
  match ds with
  | [] => [t]
  | d :: ds' =>
      match renderParagraph t d with
      | (Split _ (Paragraph tail), [AddText head _ _ _ _]) =>
          head :: paragraphFragments ds' tail
      | _ => [t]
      end
  end.

(** The number of occurrences of [c] in [s]. *)
Definition occ (c : ascii) (s : str) : nat := count_occ ascii_dec s c.

(** [s] starts with a white space. *)
Definition hdSpace (s : str) : bool :=
  match s with
  | c :: _ => isSpace c
  | [] => false
  end.

(** A line that is empty or holds white space only. *)
Definition isBlank (line : str) : bool := forallb isSpace line.

(** A line made of pipes, colons, dashes and white space only. *)
Definition isSeparatorLine (line : str) : bool :=
  forallb (fun c => isSeparatorChar c || Ascii.eqb c "|") line.

End Props.

(** ** Vocabulary of the properties of the parser *)

Module ParserProps.

Import Parser Props.

Definition currentList (state : ParseState) : list SlideSpec :=
  match current state with
  | Some s => [s]
  | None => []
  end.

(** The slides of a state, the open one last. *)
Definition allSlides (state : ParseState) : list SlideSpec :=
  slides state ++ currentList state.

Definition allBlocks (state : ParseState) : list Block :=
  flat_map blocks (allSlides state).

Definition allTitles (state : ParseState) : list str :=
  map title (allSlides state).

(** The blocks the loop of [parseSlides] can append, with where the
    collected ones come from. *)
Inductive Emitted (lines : list str) : Block -> Prop :=
| EmCode (t : str) (language : option str) : Emitted lines (Code t language)
| EmImage (a p : str) (s : option Sizing) : Emitted lines (Image a p s)
| EmTable (rows : list (list str)) : Emitted lines (Table rows)
| EmBullets (i : nat) :
    (i < length lines)%nat ->
    Emitted lines (Bullets (fst (collectBulletsFrom (skipn i lines))))
| EmParagraph (i : nat) :
    (i < length lines)%nat ->
    isBlank (nth i lines []) = false ->
    Emitted lines
      (Paragraph (join [LF] (fst (collectParagraphFrom (skipn i lines))))).

(** What one turn of the loop can do to the state. *)
Inductive Step (lines : list str) (state : ParseState) : ParseState -> Prop :=
| StepSame : Step lines state state
| StepCloseCode : Step lines state (appendCodeBlock state)
| StepCodeLine (rawLine : str) : Step lines state (pushCodeLine state rawLine)
| StepOpenCode (language : option str) :
    Step lines state (openCodeBlock state language)
| StepSubtitle (t : str) :
    Step lines state (updateCurrent (setSubtitle t) (ensureSlide state None))
| StepHeading (t : str) :
    Step lines state (startNewSlide state (Some t) (FromHeading t))
| StepNote (line : str) : Step lines state (appendNote state line)
| StepBackground (line : str) : Step lines state (updateBackground state line)
| StepBlock (b : Block) :
    Emitted lines b -> Step lines state (appendBlock state b).

(** The title a slide gets from the way it was created, as the [i]-th
    slide (counting from 0). *)
Definition originTitle (i : nat) (o : Origin) : str :=
  match o with
  | FromHeading t | FromText t =>
      if isEmpty (trim t) then slideTitle (S i) else trim t
  | Implicit => slideTitle (S i)
  end.

Fixpoint titlesFrom (i : nat) (os : list Origin) : list str :=
  match os with
  | [] => []
  | o :: os' => originTitle i o :: titlesFrom (S i) os'
  end.

(** The slide of [parseSlides] never comes from a line of plain text. *)
Definition notFromText (o : Origin) : Prop :=
  match o with
  | FromText _ => False
  | FromHeading _ | Implicit => True
  end.

(** The titles of a state are those its ghost record of origins gives. *)
Definition TitleInv (state : ParseState) : Prop :=
  allTitles state = titlesFrom 0 (origins state) /\
  Forall notFromText (origins state).

(** A slide or a code fence is open. *)
Definition Active (state : ParseState) : Prop :=
  current state <> None \/ codeBlock state <> None.

(** The lines of a paragraph as the parser gathers them: not empty, trimmed,
    and free of line feeds. *)
Definition paragraphLine (l : str) : Prop :=
  l <> [] /\ hdSpace l = false /\ occ LF l = 0%nat.

End ParserProps.

(** The same vocabulary for the parser of the older variant. *)
Module Part000Props.

Import Part000 Props.

Definition currentList (state : ParseState) : list SlideSpec :=
  match current state with
  | Some s => [s]
  | None => []
  end.

Definition allTitles (state : ParseState) : list str :=
  map title (slides state ++ currentList state).

(** A line of plain text that opens a slide is not blank. *)
Definition textNotBlank (o : Origin) : Prop :=
  match o with
  | FromText line => isBlank line = false
  | FromHeading _ | Implicit => True
  end.

Definition TitleInv (state : ParseState) : Prop :=
  allTitles state = ParserProps.titlesFrom 0 (origins state) /\
  Forall textNotBlank (origins state).

End Part000Props.

(** ** Inputs of the worked examples *)

Module Examples.

Import Render.
Local Open Scope Q_scope.

Definition lines (l : list string) : str := join [LF] (map lit l).

(** ["# Intro\n\nHello world\n\n# Two\n- a\n- b\n"]. *)
Definition twoSlides : str :=
  lines ["# Intro"; ""; "Hello world"; ""; "# Two"; "- a"; "- b"; ""]%string.

(** ["# T\n| A | B |\n| --- | --- |\n| 1 | 2 |\n"]. *)
Definition tableWithSeparator : str :=
  lines ["# T"; "| A | B |"; "| --- | --- |"; "| 1 | 2 |"; ""]%string.

(** ["Hello\nWorld"]. *)
Definition plainText : str := lines ["Hello"; "World"]%string.


(** A lone fence marker. *)
Definition loneFence : str := lit "```".

Definition item (n : nat) : BulletItem :=
  {| text := lit "item " ++ showNat n; bulletType := bullet; indentLevel := 0 |}.

Definition fiftyItems : list BulletItem := map item (seq 1 50).



(** What [parseSlides] returns for [plainText], in [txt2ppt.ts] and in the
    older variant. *)
Definition plainParsed : list SlideSpec :=
  [ {| title := slideTitle 1; subtitle := None;
       blocks := [Paragraph (lines ["Hello"; "World"]%string)];
       notes := None; background := None |} ].

Definition plainParsedOld : list SlideSpec :=
  [ {| title := lit "Hello"; subtitle := None;
       blocks := [Paragraph (lit "World")];
       notes := None; background := None |} ].

(** ["a\nb\nc"], and what [parseSlides] returns for it. *)
Definition threeLineText : str := lines ["a"; "b"; "c"]%string.

Definition threeLineSlide : SlideSpec :=
  {| title := slideTitle 1; subtitle := None;
     blocks := [Paragraph threeLineText];
     notes := None; background := None |}.



(** A paragraph of three lines, and a page with room for one of them. *)
Definition threeLines : Block := Paragraph (lines ["a"; "b"; "c"]%string).

Definition roomForOne : RenderDimensions :=
  {| x := SAFE_MARGIN_X; y := BODY_TOP; width := 8.8;
     availableHeight := 0.7; safeBottom := 2.3 |}.


Definition tallTable : Block := Table (repeat [lit "a"; lit "b"] 20).

End Examples.

(** ** Vocabulary of the properties of pagination as a whole *)

Module PageProps.

Import Render Props.
Local Open Scope Q_scope.

(** What a block weighs in the queue: its lines or items, and one at
    least. *)
Definition weight (b : Block) : nat := Nat.max 1 (blockSize b).

Definition queueWeight (queue : list Block) : nat :=
  list_sum (map weight queue).


(** The content that is drawn as it stands: a bullet item, a table, an
    image (by its path). *)
Inductive Piece :=
| PItem (item : BulletItem)
| PTable (rows : list (list str))
| PImage (path : str).

Definition blockPieces (b : Block) : list Piece :=
  match b with
  | Bullets items => map PItem items
  | Table rows => [PTable rows]
  | Image _ path _ => [PImage path]
  | Paragraph _ | Code _ _ => []
  end.

Definition drawPieces (d : Draw) : list Piece :=
  match d with
  | AddItems items _ _ _ _ => map PItem items
  | AddTable rows _ _ _ => [PTable rows]
  | AddImage path _ _ _ _ _ _ => [PImage path]
  | AddText _ _ _ _ _ | AddNotes _ => []
  end.

Definition queuePieces (queue : list Block) : list Piece :=
  flat_map blockPieces queue.

Definition drawsPieces (draws : list Draw) : list Piece :=
  flat_map drawPieces draws.

Definition pagesPieces (pages : list Page) : list Piece :=
  drawsPieces (flat_map pageDraws pages).






(** A bullet list without items: the one block that is rendered, as
    nothing, whatever the room. *)
Definition isEmptyBullets (b : Block) : bool :=
  match b with
  | Bullets [] => true
  | _ => false
  end.




(** A slide specification with a subtitle, notes and more content than one
    page holds. *)
Definition longSlide : SlideSpec :=
  {| title := lit "Plan"; subtitle := Some (lit "Details");
     blocks := [Bullets Examples.fiftyItems; Examples.tallTable;
                Image (lit "logo") (lit "logo.png") None;
                Examples.threeLines];
     notes := Some (lit "remember"); background := Some (lit "bg.png") |}.




End PageProps.

(** ** Vocabulary of the properties of the text and of the blocks *)

Module TextProps.

Import Props.
Local Open Scope nat_scope.

(** The line end of Windows files. *)
Definition CRLF : str := [CR; LF].

(** A line holds no line terminator. *)
Definition isLine (l : str) : bool := forallb isDot l.

Definition startsLF (t : str) : bool :=
  match t with
  | c :: _ => Ascii.eqb c LF
  | [] => false
  end.

End TextProps.

Module FenceProps.

Import Props.
Local Open Scope nat_scope.

(** In the older variant: a fence is open and no slide is. *)
Definition fenceWithoutSlide (state : Part000.ParseState) : Prop :=
  Part000.current state = None /\ Part000.codeState state <> None.

End FenceProps.

Module OldParserProps.

Import Props.
Local Open Scope nat_scope.

(** The first line that is not blank is a code fence. *)
Fixpoint leadingFence (ls : list str) : bool :=
  match ls with
  | [] => false
  | l :: rest =>
      if isBlank l then leadingFence rest else CODE_FENCE_test (trimEnd l)
  end.

End OldParserProps.

Module CodeProps.

Import Props.
Local Open Scope nat_scope.

Definition FENCE : str := lit "```".

(** A text that is one fenced code block: the opening fence with its info
    string, the lines of the body, and the closing fence when there is
    one. *)
Definition fenced (info : str) (body : list str) (closed : bool) : str :=
  join [LF] ((FENCE ++ info) :: body ++ (if closed then [FENCE] else [])).

(** The slide of such a text. *)
Definition codeSlide (info : str) (body : list str) : SlideSpec :=
  {| title := slideTitle 1; subtitle := None;
     blocks := [Code (join [LF] body)
                  (if isEmpty (trim info) then None else Some (trim info))];
     notes := None; background := None |}.

(** A line of a code body: it holds no line terminator and does not start
    with a fence. *)
Definition isCodeLine (l : str) : bool :=
  TextProps.isLine l && negb (CODE_FENCE_test (trimEnd l)).

End CodeProps.

Module BlockProps.

Import Props.
Local Open Scope nat_scope.

(** A string that is not empty and has no white space at either end. *)
Definition trimmedText (t : str) : Prop := t <> [] /\ trim t = t.

(** A block with content: a list has an item, a table has a row and every
    row has a cell, a paragraph is a trimmed text. *)
Definition wellFormed (b : Block) : Prop :=
  match b with
  | Bullets items => items <> []
  | Table rows => rows <> [] /\ Forall (fun row => row <> []) rows
  | Paragraph t => trimmedText t
  | Image _ _ _ | Code _ _ => True
  end.

End BlockProps.

Module ImageProps.

Import Props.
Local Open Scope nat_scope.

(** An image line as it is written: white space, the alternative text in
    square brackets after an exclamation mark, the path in parentheses,
    white space. *)
Definition imageLine (indent alt path trail : str) : str :=
  indent ++ lit "![" ++ alt ++ lit "](" ++ path ++ lit ")" ++ trail.

(** [s] holds no closing square bracket. *)
Definition noBracket (s : str) : bool := negb (existsb (Ascii.eqb "]") s).

End ImageProps.

Module SizingProps.

(** The sizing a tag stands for, in any case of its letters. *)
Definition tagSizing (tag : str) : option Sizing :=
  if streq (toLowerCase tag) (lit "cover") then Some cover
  else if streq (toLowerCase tag) (lit "contain") then Some contain
  else None.

End SizingProps.

Module TableProps.

Import Props.
Local Open Scope nat_scope.

Definition PIPE : ascii := "|"%char.

(** A table line as it is written: the cells between pipes. *)
Definition rowLine (cells : list str) : str :=
  [PIPE] ++ join [PIPE] cells ++ [PIPE].

(** A cell holds no pipe and no line terminator. *)
Definition isCell (c : str) : bool :=
  TextProps.isLine c && negb (existsb (Ascii.eqb PIPE) c).

(** The slide of a text that is one table. *)
Definition tableSlide (rows : list (list str)) : SlideSpec :=
  {| title := slideTitle 1; subtitle := None;
     blocks := [Table (map (map trim) rows)];
     notes := None; background := None |}.

End TableProps.

Module NoteProps.

Import Props.
Local Open Scope nat_scope.

Definition NOTE : str := lit ">note:".

(** The slide of a text that is one note line. *)
Definition noteSlide (noteText : str) : SlideSpec :=
  {| title := slideTitle 1; subtitle := None; blocks := [];
     notes := Some noteText; background := None |}.

End NoteProps.

Module CodeSplitProps.

Import Render Props.
Local Open Scope Q_scope.

(** A code block whose second and third lines are indented. *)
Definition indentedCode : str := Examples.lines ["a"; "  b"; "  c"]%string.

End CodeSplitProps.

Module BulletProps.

Import Props.
Local Open Scope nat_scope.






End BulletProps.

(** ** The command line of [txt2ppt.ts] *)

Module Cli.

Local Open Scope nat_scope.

(** [Partial<CliOptions>], the object [parseArguments] fills in. *)
Record CliOptions := {
  inPath : option str;
  outPath : option str;
  layout : str;
  title : option str;
  author : option str;
  company : option str;
  background : option str
}.

(** What a call ends in: a value, or an [Error] with its message. *)
Inductive Result (A : Type) :=
| Ok (a : A)
| Error (message : str).

Arguments Ok {A} a.
Arguments Error {A} message.

Definition VALID_LAYOUTS : list str :=
  [lit "LAYOUT_16x9"; lit "LAYOUT_4x3"; lit "LAYOUT_WIDE"; lit "LAYOUT_16x10"].

(** [VALID_LAYOUTS.has(value)]. *)
Definition validLayout (value : str) : bool :=
  existsb (streq value) VALID_LAYOUTS.

Definition defaults : CliOptions :=
  {| inPath := None; outPath := None; layout := lit "LAYOUT_16x9";
     title := None; author := None; company := None; background := None |}.

(** The [switch] on the name of the flag. *)
Definition setOption (flagName value : str) (o : CliOptions)
    : Result CliOptions :=
  if streq flagName (lit "in") then
    Ok {| inPath := Some value; outPath := outPath o; layout := layout o;
          title := title o; author := author o; company := company o;
          background := background o |}
  else if streq flagName (lit "out") then
    Ok {| inPath := inPath o; outPath := Some value; layout := layout o;
          title := title o; author := author o; company := company o;
          background := background o |}
  else if streq flagName (lit "layout") then
    if negb (validLayout value) then Error (lit "Unsupported layout: " ++ value)
    else
      Ok {| inPath := inPath o; outPath := outPath o; layout := value;
            title := title o; author := author o; company := company o;
            background := background o |}
  else if streq flagName (lit "title") then
    Ok {| inPath := inPath o; outPath := outPath o; layout := layout o;
          title := Some value; author := author o; company := company o;
          background := background o |}
  else if streq flagName (lit "author") then
    Ok {| inPath := inPath o; outPath := outPath o; layout := layout o;
          title := title o; author := Some value; company := company o;
          background := background o |}
  else if streq flagName (lit "company") then
    Ok {| inPath := inPath o; outPath := outPath o; layout := layout o;
          title := title o; author := author o; company := Some value;
          background := background o |}
  else if streq flagName (lit "bg") then
    Ok {| inPath := inPath o; outPath := outPath o; layout := layout o;
          title := title o; author := author o; company := company o;
          background := Some value |}
  else Error (lit "Unknown option: --" ++ flagName).

(** The statements of the loop body after [value] is read:
    [if (!value) throw ...] and the [switch]. *)
Definition useValue (flagName : str) (value : option str) (o : CliOptions)
    : Result CliOptions :=
  match value with
  | Some v =>
      if isEmpty v then Error (lit "Missing value for --" ++ flagName)
      else setOption flagName v o
  | None => Error (lit "Missing value for --" ++ flagName)
  end.

(** The [for] loop over [args]: a token without [=] takes the next
    argument as its value ([args[++i]]). *)
Fixpoint parseLoop (args : list str) (o : CliOptions) : Result CliOptions :=
  match args with
  | [] => Ok o
  | token :: rest =>
      if negb (startsWith (lit "--") token) then
        Error (lit "Unexpected argument: " ++ token)
      else
        let pieces := firstn 2 (split "=" token) in
        let flagName := sliceFrom 2 (nth 0 pieces []) in
        match nth_error pieces 1 with
        | Some valueFromEquals =>
            match useValue flagName (Some valueFromEquals) o with
            | Ok o' => parseLoop rest o'
            | Error e => Error e
            end
        | None =>
            match rest with
            | next :: rest' =>
                match useValue flagName (Some next) o with
                | Ok o' => parseLoop rest' o'
                | Error e => Error e
                end
            | [] => useValue flagName None o
            end
        end
  end.

(** The checks after the loop. *)
Definition checkRequired (o : CliOptions) : Result CliOptions :=
  match inPath o with
  | None => Error (lit "--in is required")
  | Some i =>
      if isEmpty i then Error (lit "--in is required")
      else
        match outPath o with
        | None => Error (lit "--out is required")
        | Some p =>
            if isEmpty p then Error (lit "--out is required")
            else if negb (endsWith (lit ".pptx") (toLowerCase p))
            then Error (lit "--out must point to a .pptx file")
            else Ok o
        end
  end.

Definition parseArguments (argv : list str) : Result CliOptions :=
  match parseLoop (skipn 2 argv) defaults with
  | Ok o => checkRequired o
  | Error e => Error e
  end.

End Cli.

Module CliProps.

Import Cli.
Local Open Scope nat_scope.

(** An optional text that, when it is there, is not empty. *)
Definition filled (v : option str) : Prop :=
  match v with
  | Some s => s <> []
  | None => True
  end.

(** What holds of the options all along the loop. *)
Definition Sound (o : CliOptions) : Prop :=
  In (layout o) VALID_LAYOUTS /\
  filled (inPath o) /\ filled (outPath o) /\ filled (title o) /\
  filled (author o) /\ filled (company o) /\ filled (background o).

(** The two ways of writing an option and its value. *)
Definition joined (name value : str) : str :=
  lit "--" ++ name ++ lit "=" ++ value.

Definition flag (name : str) : str := lit "--" ++ name.

Definition node : str := lit "node".
Definition script : str := lit "txt2ppt.js".

End CliProps.

(** ** Inputs of the worked examples of the parser and of the command line *)

Module ParseExamples.

Import Props Examples.
Local Open Scope nat_scope.

Definition headingAndItem : list str := [lit "# A"; lit "- x"; lit ""].

(** A text that begins, after an empty line, with a fenced block. *)
Definition leadingFence : str := lines [""; "```js"; "x"; "```"]%string.

(** The body of a code block that looks like a heading, an empty line and
    a bullet. *)
Definition codeBody : list str := [lit "  # not a heading"; lit ""; lit "- x"].

Definition headerRow : list str := [lit " A "; lit " B "].
Definition dashRow : list str := [lit " --- "; lit " --- "].
Definition dataRow : list str := [lit "1"; lit "2"].

Definition argv : list str :=
  [CliProps.node; CliProps.script; lit "--in=a.txt"; lit "--out"; lit "b.PPTX";
   lit "--layout=LAYOUT_4x3"].

Definition parsedArgv : Cli.CliOptions :=
  {| Cli.inPath := Some (lit "a.txt"); Cli.outPath := Some (lit "b.PPTX");
     Cli.layout := lit "LAYOUT_4x3"; Cli.title := None; Cli.author := None;
     Cli.company := None; Cli.background := None |}.

End ParseExamples.

(** * Properties *)

(** ** Numbers *)

Section Numbers.

Open Scope Q_scope.
Import Render.

Lemma Qle_bool_false (a b : Q) : Qle_bool a b = false <-> b < a.
Proof.
  split; intro H.
  - apply Qnot_le_lt. intro Hle. apply Qle_bool_iff in Hle. congruence.
  - destruct (Qle_bool a b) eqn:E; [|reflexivity].
    apply Qle_bool_iff in E. exfalso. apply (Qlt_not_le _ _ H E).
Qed.

Lemma Qltb_true (a b : Q) : Qltb a b = true <-> a < b.
Proof.
  unfold Qltb. rewrite negb_true_iff. apply Qle_bool_false.
Qed.

Lemma Qltb_false (a b : Q) : Qltb a b = false <-> b <= a.
Proof.
  unfold Qltb. rewrite negb_false_iff. apply Qle_bool_iff.
Qed.


Lemma ofNat_ge_2 (n : nat) : (2 <= n)%nat \/ ofNat n <= 1.
Proof.
  destruct (le_lt_dec 2 n) as [H|H]; [left; exact H|right].
  unfold ofNat. change 1 with (inject_Z 1). rewrite <- Zle_Qle. lia.
Qed.

End Numbers.

(** ** Strings *)

Module StrFacts.

Import Props.

Lemma eqb_false_neq (a b : ascii) : Ascii.eqb a b = false -> a <> b.
Proof. intros H E. apply Ascii.eqb_eq in E. congruence. Qed.

Lemma split_nonempty (c : ascii) (s : str) : split c s <> [].
Proof.
  destruct s as [|a s]; simpl; [discriminate|].
  destruct (Ascii.eqb a c); [discriminate|].
  destruct (split c s); discriminate.
Qed.

Lemma split_length (c : ascii) (s : str) : length (split c s) = S (occ c s).
Proof.
  induction s as [|a s IH]; [reflexivity|].
  simpl. destruct (Ascii.eqb a c) eqn:E.
  - apply Ascii.eqb_eq in E. subst a.
    destruct (ascii_dec c c); [|congruence]. simpl. rewrite IH. reflexivity.
  - apply eqb_false_neq in E.
    destruct (ascii_dec a c); [congruence|].
    destruct (split c s) eqn:S; [discriminate IH|exact IH].
Qed.

Lemma split_pieces (c : ascii) (s : str) :
  Forall (fun l => occ c l = 0%nat) (split c s).
Proof.
  induction s as [|a s IH]; simpl; [repeat constructor|].
  destruct (Ascii.eqb a c) eqn:E.
  - constructor; [reflexivity|exact IH].
  - apply eqb_false_neq in E.
    destruct (split c s) as [|w ws]; [repeat constructor|].
    + simpl. destruct (ascii_dec a c); [congruence|reflexivity].
    + inversion IH; subst. constructor; [|assumption].
      simpl. destruct (ascii_dec a c); [congruence|assumption].
Qed.

Lemma split_no_sep (c : ascii) (s : str) : occ c s = 0%nat -> split c s = [s].
Proof.
  induction s as [|a s IH]; [reflexivity|]. simpl.
  destruct (ascii_dec a c) as [->|N]; [discriminate|]. intro H.
  destruct (Ascii.eqb a c) eqn:E; [apply Ascii.eqb_eq in E; congruence|].
  rewrite (IH H). reflexivity.
Qed.

Lemma split_app_sep (c : ascii) (s t : str) :
  occ c s = 0%nat -> split c (s ++ c :: t) = s :: split c t.
Proof.
  induction s as [|a s IH]; simpl.
  - intros _. rewrite Ascii.eqb_refl. reflexivity.
  - destruct (ascii_dec a c) as [->|N]; [discriminate|]. intro H.
    destruct (Ascii.eqb a c) eqn:E; [apply Ascii.eqb_eq in E; congruence|].
    rewrite (IH H). reflexivity.
Qed.

Lemma join_cons2 (sep : str) (x y : str) (l : list str) :
  join sep (x :: y :: l) = x ++ sep ++ join sep (y :: l).
Proof. reflexivity. Qed.

Lemma join_cons_nonempty (sep : str) (x : str) (l : list str) :
  l <> [] -> join sep (x :: l) = x ++ sep ++ join sep l.
Proof. destruct l; [congruence|reflexivity]. Qed.

(** Splitting what was joined gives the pieces back, when no piece holds
    the separator. *)
Lemma split_join (c : ascii) (ls : list str) :
  ls <> [] -> Forall (fun l => occ c l = 0%nat) ls ->
  split c (join [c] ls) = ls.
Proof.
  induction ls as [|x ls IH]; [congruence|]. intros _ H.
  inversion H as [|? ? Hx Hls]; subst.
  destruct ls as [|y ls].
  - simpl. apply split_no_sep. exact Hx.
  - rewrite join_cons2.
    change ([c] ++ join [c] (y :: ls)) with (c :: join [c] (y :: ls)).
    rewrite split_app_sep by exact Hx.
    rewrite IH; [reflexivity|discriminate|exact Hls].
Qed.

Lemma join_app (sep : str) (a b : list str) :
  a <> [] -> b <> [] -> join sep (a ++ b) = join sep a ++ sep ++ join sep b.
Proof.
  induction a as [|x a IH]; [congruence|]. intros _ Hb.
  destruct a as [|y a].
  - simpl app. apply join_cons_nonempty. exact Hb.
  - change ((x :: y :: a) ++ b) with (x :: (y :: a) ++ b).
    rewrite join_cons_nonempty by discriminate.
    rewrite IH by (discriminate || exact Hb).
    rewrite join_cons2. rewrite <- !app_assoc. reflexivity.
Qed.

Lemma occ_dropWhile (c : ascii) (p : ascii -> bool) (s : str) :
  (occ c (dropWhile p s) <= occ c s)%nat.
Proof.
  induction s as [|a s IH]; simpl; [lia|].
  destruct (p a); simpl; destruct (ascii_dec a c); lia.
Qed.

(** The number of lines of a text from which leading white space is
    stripped does not grow. *)
Lemma split_trimStart_length (c : ascii) (s : str) :
  (length (split c (trimStart s)) <= length (split c s))%nat.
Proof.
  rewrite !split_length. pose proof (occ_dropWhile c isSpace s).
  unfold trimStart. lia.
Qed.

Lemma split_join_length (c : ascii) (ls : list str) :
  ls <> [] -> Forall (fun l => occ c l = 0%nat) ls ->
  length (split c (join [c] ls)) = length ls.
Proof. intros H1 H2. rewrite split_join by assumption. reflexivity. Qed.

Lemma Forall_firstn {A} (P : A -> Prop) (n : nat) (l : list A) :
  Forall P l -> Forall P (firstn n l).
Proof.
  intro H. revert n. induction H; intros [|n]; simpl; constructor; auto.
Qed.

Lemma Forall_skipn {A} (P : A -> Prop) (n : nat) (l : list A) :
  Forall P l -> Forall P (skipn n l).
Proof.
  intro H. revert n. induction H; intros [|n]; simpl; auto.
Qed.

Lemma firstn_nonempty {A} (n : nat) (l : list A) :
  (1 <= n)%nat -> l <> [] -> firstn n l <> [].
Proof. destruct n, l; simpl; try lia; congruence. Qed.

Lemma skipn_nonempty {A} (n : nat) (l : list A) :
  (n < length l)%nat -> skipn n l <> [].
Proof.
  intros H E. apply (f_equal (@length A)) in E.
  rewrite length_skipn in E. simpl in E. lia.
Qed.

(** *** Trimming *)

Lemma takeWhile_dropWhile (p : ascii -> bool) (s : str) :
  takeWhile p s ++ dropWhile p s = s.
Proof.
  induction s as [|a s IH]; [reflexivity|]. simpl.
  destruct (p a); [simpl; rewrite IH|]; reflexivity.
Qed.

Lemma takeWhile_all (p : ascii -> bool) (s : str) :
  forallb p (takeWhile p s) = true.
Proof.
  induction s as [|a s IH]; [reflexivity|]. simpl.
  destruct (p a) eqn:E; [simpl; rewrite E, IH|]; reflexivity.
Qed.

Lemma dropWhile_all (p : ascii -> bool) (s : str) :
  forallb p s = true -> dropWhile p s = [].
Proof.
  induction s as [|a s IH]; [reflexivity|]. simpl.
  destruct (p a); [exact IH|discriminate].
Qed.

Lemma hdSpace_trimStart (s : str) : hdSpace (trimStart s) = false.
Proof.
  unfold trimStart. induction s as [|a s IH]; [reflexivity|]. simpl.
  destruct (isSpace a) eqn:E; [exact IH|simpl; exact E].
Qed.

Lemma trimStart_id (s : str) : hdSpace s = false -> trimStart s = s.
Proof.
  unfold trimStart. destruct s as [|a s]; simpl; [reflexivity|].
  intros ->. reflexivity.
Qed.

Lemma trimStart_app_spaces (a t : str) :
  forallb isSpace a = true -> hdSpace t = false -> trimStart (a ++ t) = t.
Proof.
  intros Ha Ht. induction a as [|c a IH]; simpl in *.
  - apply trimStart_id. exact Ht.
  - apply andb_true_iff in Ha. destruct Ha as [Hc Ha]. unfold trimStart. simpl.
    rewrite Hc. apply IH. exact Ha.
Qed.

Lemma rev_trimEnd (s : str) : rev (trimEnd s) = dropWhile isSpace (rev s).
Proof. unfold trimEnd. apply rev_involutive. Qed.

Lemma hdSpace_rev_trimEnd (s : str) : hdSpace (rev (trimEnd s)) = false.
Proof. rewrite rev_trimEnd. apply (hdSpace_trimStart (rev s)). Qed.

Lemma trimEnd_id (s : str) : hdSpace (rev s) = false -> trimEnd s = s.
Proof.
  intro H. unfold trimEnd. fold (trimStart (rev s)).
  rewrite trimStart_id by exact H. apply rev_involutive.
Qed.

Lemma forallb_rev (p : ascii -> bool) (s : str) :
  forallb p (rev s) = forallb p s.
Proof.
  induction s as [|a s IH]; [reflexivity|]. simpl.
  rewrite forallb_app, IH. simpl. rewrite andb_true_r. apply andb_comm.
Qed.

(** A string is what [trimEnd] keeps of it followed by white space. *)
Lemma trimEnd_decompose (s : str) :
  exists w, s = trimEnd s ++ w /\ forallb isSpace w = true.
Proof.
  exists (rev (takeWhile isSpace (rev s))). split.
  - unfold trimEnd. rewrite <- rev_app_distr, takeWhile_dropWhile.
    symmetry. apply rev_involutive.
  - rewrite forallb_rev. apply takeWhile_all.
Qed.

Lemma trimEnd_app_spaces (t w : str) :
  forallb isSpace w = true -> hdSpace (rev t) = false -> trimEnd (t ++ w) = t.
Proof.
  intros Hw Ht. unfold trimEnd. rewrite rev_app_distr.
  fold (trimStart (rev w ++ rev t)).
  rewrite trimStart_app_spaces; [apply rev_involutive| |exact Ht].
  rewrite forallb_rev. exact Hw.
Qed.

Lemma hdSpace_trimEnd (s : str) : hdSpace s = false -> hdSpace (trimEnd s) = false.
Proof.
  intro H. destruct (trimEnd_decompose s) as (w & E & _).
  destruct (trimEnd s) as [|c t]; [reflexivity|].
  rewrite E in H. exact H.
Qed.

Lemma hdSpace_trim (s : str) : hdSpace (trim s) = false.
Proof. apply hdSpace_trimEnd, hdSpace_trimStart. Qed.

Lemma hdSpace_rev_trim (s : str) : hdSpace (rev (trim s)) = false.
Proof. apply hdSpace_rev_trimEnd. Qed.

(** A string with no white space at either end is its own trimming. *)
Lemma trim_id (s : str) :
  hdSpace s = false -> hdSpace (rev s) = false -> trim s = s.
Proof.
  intros H1 H2. unfold trim. rewrite trimStart_id by exact H1.
  apply trimEnd_id. exact H2.
Qed.

Lemma trim_idempotent (s : str) : trim (trim s) = trim s.
Proof. apply trim_id; [apply hdSpace_trim | apply hdSpace_rev_trim]. Qed.

Lemma hdSpace_rev_app (a m : str) :
  m <> [] -> hdSpace (rev m) = false -> hdSpace (rev (a ++ m)) = false.
Proof.
  intros Hm H. rewrite rev_app_distr.
  destruct (rev m) as [|c t] eqn:E.
  - apply (f_equal (@rev ascii)) in E. rewrite rev_involutive in E.
    simpl in E. congruence.
  - exact H.
Qed.

(** A string is white space, then its trimming, then white space. *)
Lemma trim_decompose (s : str) :
  exists a w, s = a ++ trim s ++ w /\
              forallb isSpace a = true /\ forallb isSpace w = true.
Proof.
  exists (takeWhile isSpace s).
  destruct (trimEnd_decompose (trimStart s)) as (w & E & Hw).
  exists w. split; [|split; [apply takeWhile_all|exact Hw]].
  unfold trim. rewrite <- E. symmetry. apply takeWhile_dropWhile.
Qed.

Lemma trim_spaces (s : str) : forallb isSpace s = true -> trim s = [].
Proof.
  intro H. unfold trim, trimStart. rewrite dropWhile_all by exact H. reflexivity.
Qed.

Lemma trim_nil_spaces (s : str) : trim s = [] -> forallb isSpace s = true.
Proof.
  intro H. destruct (trim_decompose s) as (a & w & E & Ha & Hw).
  rewrite H in E. rewrite E. simpl. rewrite forallb_app, Ha, Hw. reflexivity.
Qed.

Lemma trim_trimEnd (s : str) : trim (trimEnd s) = trim s.
Proof.
  destruct (trim_decompose s) as (a & w & E & Ha & Hw).
  destruct (trim s) as [|c m] eqn:Em.
  - simpl in E. apply trim_spaces.
    assert (Hs : forallb isSpace s = true)
      by (rewrite E, forallb_app, Ha, Hw; reflexivity).
    unfold trimEnd. rewrite dropWhile_all; [reflexivity|].
    rewrite forallb_rev. exact Hs.
  - pose proof (hdSpace_trim s) as H1. pose proof (hdSpace_rev_trim s) as H2.
    rewrite Em in H1, H2.
    assert (Et : trimEnd s = a ++ c :: m).
    { rewrite E at 1. rewrite app_assoc. apply trimEnd_app_spaces; [exact Hw|].
      apply hdSpace_rev_app; [discriminate|exact H2]. }
    rewrite Et. unfold trim.
    rewrite trimStart_app_spaces by assumption.
    apply trimEnd_id. exact H2.
Qed.

Lemma isEmpty_false (s : str) : isEmpty s = false <-> s <> [].
Proof. destruct s; simpl; split; congruence. Qed.

(** The blank test of the parser is the test for white space only. *)
Lemma blank_test (s : str) : isEmpty (trim (trimEnd s)) = forallb isSpace s.
Proof.
  rewrite trim_trimEnd.
  destruct (forallb isSpace s) eqn:E.
  - rewrite trim_spaces by exact E. reflexivity.
  - apply isEmpty_false. intro H. apply trim_nil_spaces in H. congruence.
Qed.

Lemma isEmpty_trim (s : str) : isEmpty (trim s) = forallb isSpace s.
Proof. rewrite <- trim_trimEnd, <- blank_test, !trim_trimEnd. reflexivity. Qed.

(** Trimming keeps no more occurrences of a character than there were. *)
Lemma occ_trim (c : ascii) (s : str) : (occ c (trim s) <= occ c s)%nat.
Proof.
  destruct (trim_decompose s) as (a & w & E & _ & _).
  rewrite E at 2. unfold occ. rewrite !count_occ_app. lia.
Qed.

End StrFacts.

(** ** Placement of one block *)

Module RenderFacts.

Import Render.
Open Scope Q_scope.

Lemma renderBullets_cons (i : BulletItem) (rest : list BulletItem)
    (dims : RenderDimensions) :
  renderBullets (i :: rest) dims =
    let items := i :: rest in
    let neededHeight :=
      Qmax (ofNat (length items) * BULLET_LINE_HEIGHT) MIN_BLOCK_HEIGHT in
    if Qltb (availableHeight dims) neededHeight &&
       Qltb (availableHeight dims) MIN_BLOCK_HEIGHT
    then (Defer, [])
    else
      let maxItems :=
        if Qle_bool neededHeight (availableHeight dims)
        then Z.of_nat (length items)
        else Z.max (Qfloor (availableHeight dims / BULLET_LINE_HEIGHT) - 1) 1 in
      let draw :=
        AddItems (firstn (Z.to_nat maxItems) items)
          (x dims) (y dims) (width dims)
          (Qmax (Qmin neededHeight (availableHeight dims)) MIN_BLOCK_HEIGHT) in
      if (maxItems =? Z.of_nat (length items))%Z then
        (Rendered (y dims + Qmin neededHeight (availableHeight dims)), [draw])
      else
        (Split (y dims + availableHeight dims)
           (Bullets (skipn (Z.to_nat maxItems) items)), [draw]).
Proof. reflexivity. Qed.


(** *** What a split leaves *)

Import Props StrFacts.

Lemma limit_bounds (n : nat) (q : Q) :
  (2 <= n)%nat -> q < ofNat n ->
  (1 <= Z.to_nat (Z.max (Qfloor q - 1) 1) < n)%nat.
Proof.
  intros Hn Hq.
  assert (H : (Qfloor q < Z.of_nat n)%Z).
  { rewrite Zlt_Qlt. eapply Qle_lt_trans; [apply Qfloor_le | exact Hq]. }
  lia.
Qed.

(** A block of a single line or item always fits the minimum height, so a
    block that does not fit a page of at least that height has two. *)
Lemma needs_two (n : nat) (u e a : Q) :
  0 <= u -> u + e <= MIN_BLOCK_HEIGHT ->
  MIN_BLOCK_HEIGHT <= a -> a < ofNat n * u + e -> (2 <= n)%nat.
Proof.
  intros Hu Hue Ha Hn.
  destruct (ofNat_ge_2 n) as [H|H]; [exact H|exfalso].
  assert (ofNat n * u <= 1 * u) by (apply Qmult_le_compat_r; assumption).
  lra.
Qed.

Lemma max_exceeds (a needed : Q) :
  MIN_BLOCK_HEIGHT <= a -> a < Qmax needed MIN_BLOCK_HEIGHT -> a < needed.
Proof.
  intros Ha H. apply Q.max_lt_iff in H. destruct H as [H|H]; [exact H|lra].
Qed.

Lemma renderParagraph_split (t : str) (dims : RenderDimensions)
    (nc : Q) (r : Block) (ds : list Draw) :
  renderParagraph t dims = (Split nc r, ds) ->
  exists m,
    (1 <= m < length (split LF t))%nat /\
    r = Paragraph (trimStart (join [LF] (skipn m (split LF t)))) /\
    ds = [AddText (join [LF] (firstn m (split LF t))) (x dims) (y dims)
            (width dims) (Qmax (availableHeight dims) MIN_BLOCK_HEIGHT)] /\
    MIN_BLOCK_HEIGHT <= availableHeight dims.
Proof.
  unfold renderParagraph.
  set (lines := split LF t). set (a := availableHeight dims).
  destruct (Qle_bool _ a) eqn:E1; [discriminate|].
  destruct (Qltb a MIN_BLOCK_HEIGHT) eqn:E2; [discriminate|].
  intro H. injection H as _ <- <-.
  apply Qle_bool_false in E1. apply Qltb_false in E2.
  apply (max_exceeds _ _ E2) in E1.
  assert (Hn : (2 <= length lines)%nat).
  { apply (needs_two _ LINE_HEIGHT 0 a); try assumption;
      unfold LINE_HEIGHT, MIN_BLOCK_HEIGHT in *; lra. }
  exists (Z.to_nat (Z.max (Qfloor (a / LINE_HEIGHT) - 1) 1)).
  split; [|repeat split; assumption].
  apply limit_bounds; [exact Hn|].
  apply Qlt_shift_div_r; [reflexivity | exact E1].
Qed.

Lemma renderCode_split (t : str) (language : option str)
    (dims : RenderDimensions) (nc : Q) (r : Block) (ds : list Draw) :
  renderCode t language dims = (Split nc r, ds) ->
  exists m h,
    (1 <= m < length (split LF t))%nat /\
    r = Code (trimStart (join [LF] (skipn m (split LF t)))) language /\
    ds = [AddText (join [LF] (firstn m (split LF t))) (x dims) (y dims)
            (width dims) h] /\
    MIN_BLOCK_HEIGHT <= availableHeight dims.
Proof.
  unfold renderCode.
  set (lines := split LF t). set (a := availableHeight dims).
  set (needed := Qmax _ MIN_BLOCK_HEIGHT).
  destruct (Qle_bool needed a) eqn:E1.
  { destruct (Qltb a needed && Qltb a MIN_BLOCK_HEIGHT); discriminate. }
  apply Qle_bool_false in E1.
  assert (E0 : Qltb a needed = true) by (apply Qltb_true; exact E1).
  rewrite E0. cbn [andb].
  destruct (Qltb a MIN_BLOCK_HEIGHT) eqn:E2; [discriminate|].
  intro H. injection H as _ <- <-.
  apply Qltb_false in E2. apply (max_exceeds _ _ E2) in E1.
  assert (Hn : (2 <= length lines)%nat).
  { apply (needs_two _ CODE_LINE_HEIGHT 0.2 a); try assumption;
      unfold CODE_LINE_HEIGHT, MIN_BLOCK_HEIGHT in *; lra. }
  exists (Z.to_nat (Z.max (Qfloor ((a - 0.2) / CODE_LINE_HEIGHT) - 1) 1)).
  eexists. split; [|repeat split; try reflexivity; assumption].
  apply limit_bounds; [exact Hn|].
  apply Qlt_shift_div_r; [reflexivity | lra].
Qed.

Lemma renderBullets_split (items : list BulletItem) (dims : RenderDimensions)
    (nc : Q) (r : Block) (ds : list Draw) :
  renderBullets items dims = (Split nc r, ds) ->
  exists m h,
    (1 <= m < length items)%nat /\
    r = Bullets (skipn m items) /\
    ds = [AddItems (firstn m items) (x dims) (y dims) (width dims) h] /\
    MIN_BLOCK_HEIGHT <= availableHeight dims.
Proof.
  destruct items as [|i rest]; [discriminate|].
  rewrite renderBullets_cons. cbv zeta.
  set (items := i :: rest). set (a := availableHeight dims).
  set (needed := Qmax _ MIN_BLOCK_HEIGHT).
  destruct (Qle_bool needed a) eqn:E1.
  { rewrite Z.eqb_refl.
    destruct (Qltb a needed && Qltb a MIN_BLOCK_HEIGHT); discriminate. }
  apply Qle_bool_false in E1.
  assert (E0 : Qltb a needed = true) by (apply Qltb_true; exact E1).
  rewrite E0. cbn [andb].
  destruct (Qltb a MIN_BLOCK_HEIGHT) eqn:E2; [discriminate|].
  apply Qltb_false in E2. apply (max_exceeds _ _ E2) in E1.
  assert (Hn : (2 <= length items)%nat).
  { apply (needs_two _ BULLET_LINE_HEIGHT 0 a); try assumption;
      unfold BULLET_LINE_HEIGHT, MIN_BLOCK_HEIGHT in *; lra. }
  assert (Hm : (1 <= Z.to_nat (Z.max (Qfloor (a / BULLET_LINE_HEIGHT) - 1) 1)
                < length items)%nat).
  { apply limit_bounds; [exact Hn|].
    apply Qlt_shift_div_r; [reflexivity | exact E1]. }
  destruct (Z.eqb_spec (Z.max (Qfloor (a / BULLET_LINE_HEIGHT) - 1) 1)
              (Z.of_nat (length items))) as [E|_]; [lia|].
  intro H. injection H as _ <- <-.
  do 2 eexists. split; [exact Hm|]. repeat split; try reflexivity; assumption.
Qed.

Lemma text_split_sizes (t : str) (m : nat) :
  (1 <= m < length (split LF t))%nat ->
  length (split LF (join [LF] (firstn m (split LF t)))) = m /\
  (1 <= length (split LF (trimStart (join [LF] (skipn m (split LF t)))))
   <= length (split LF t) - m)%nat.
Proof.
  intro Hm. pose proof (split_pieces LF t) as Hp. split.
  - rewrite split_join_length.
    + rewrite length_firstn. lia.
    + apply firstn_nonempty; [lia|]. apply split_nonempty.
    + apply Forall_firstn. exact Hp.
  - split; [rewrite split_length; lia|].
    etransitivity; [apply split_trimStart_length|].
    rewrite split_join_length.
    + rewrite length_skipn. lia.
    + apply skipn_nonempty. lia.
    + apply Forall_skipn. exact Hp.
Qed.

(** Everything a [Split] result of [renderBlock] tells. *)
Lemma renderBlock_split (b : Block) (dims : RenderDimensions) (nc : Q)
    (r : Block) (ds : list Draw) :
  renderBlock b dims = (Split nc r, ds) ->
  isUnsplittable b = false /\ sameKind b r = true /\
  MIN_BLOCK_HEIGHT <= availableHeight dims /\
  (1 <= blockSize r)%nat /\
  exists d, ds = [d] /\ (1 <= drawSize d)%nat /\
            (drawSize d + blockSize r <= blockSize b)%nat.
Proof.
  destruct b as [t|items|alt path sz|t language|rows]; simpl; intro H.
  - apply renderParagraph_split in H. destruct H as (m & Hm & -> & -> & Ha).
    destruct (text_split_sizes _ _ Hm) as [S1 S2].
    repeat split; try assumption; simpl; try lia.
    eexists. split; [reflexivity|]. simpl. lia.
  - apply renderBullets_split in H. destruct H as (m & h & Hm & -> & -> & Ha).
    repeat split; try assumption; simpl.
    + rewrite length_skipn. lia.
    + eexists. split; [reflexivity|]. simpl.
      rewrite length_firstn, length_skipn. lia.
  - unfold renderImage in H. destruct (Qltb _ _); discriminate.
  - apply renderCode_split in H. destruct H as (m & h & Hm & -> & -> & Ha).
    destruct (text_split_sizes _ _ Hm) as [S1 S2].
    repeat split; try assumption; simpl; try lia.
    eexists. split; [reflexivity|]. simpl. lia.
  - unfold renderTable in H. destruct (_ && _); discriminate.
Qed.

(** No block is deferred on a page that offers the minimum block height. *)
Lemma renderBlock_no_defer (b : Block) (dims : RenderDimensions) :
  MIN_BLOCK_HEIGHT <= availableHeight dims ->
  fst (renderBlock b dims) <> Defer.
Proof.
  intro Ha. apply Qltb_false in Ha.
  destruct b as [t|items|alt path sz|t language|rows]; simpl.
  - unfold renderParagraph. rewrite Ha.
    destruct (Qle_bool _ _); discriminate.
  - destruct items as [|i rest]; [discriminate|].
    rewrite renderBullets_cons. cbv zeta. rewrite Ha, andb_false_r.
    destruct (_ =? _)%Z; discriminate.
  - unfold renderImage.
    assert (E : Qltb (Qmax (availableHeight dims) 0) MIN_BLOCK_HEIGHT = false).
    { apply Qltb_false. apply Q.max_le_iff. left. apply Qltb_false. exact Ha. }
    rewrite E. discriminate.
  - unfold renderCode. rewrite Ha, andb_false_r.
    destruct (Qle_bool _ _); discriminate.
  - unfold renderTable. rewrite Ha, andb_false_r. discriminate.
Qed.


End RenderFacts.

Module BulletSplit.

Import Render Examples.
Open Scope Q_scope.



End BulletSplit.

(** ** Pagination *)

Module Pagination.

Import Render Props Examples.
Open Scope Q_scope.






(** Below the minimum block height an image or a table is deferred, and
    nothing is drawn. *)
Lemma unsplittable_deferred (b : Block) (dims : RenderDimensions) :
  isUnsplittable b = true ->
  availableHeight dims < MIN_BLOCK_HEIGHT ->
  renderBlock b dims = (Defer, []).
Proof.
  intros Hb Ha. destruct b; try discriminate; simpl.
  - unfold renderImage.
    assert (E : Qltb (Qmax (availableHeight dims) 0) MIN_BLOCK_HEIGHT = true).
    { apply Qltb_true. apply Q.max_lub_lt; [exact Ha|reflexivity]. }
    rewrite E. reflexivity.
  - unfold renderTable.
    assert (E1 : Qltb (availableHeight dims) MIN_BLOCK_HEIGHT = true)
      by (apply Qltb_true; exact Ha).
    assert (E2 : Qltb (availableHeight dims)
                   (Qmax (TABLE_BASE_HEIGHT +
                          ofNat (length rows) * TABLE_ROW_HEIGHT)
                      MIN_BLOCK_HEIGHT) = true).
    { apply Qltb_true. apply Q.max_lt_iff. right. exact Ha. }
    rewrite E1, E2. reflexivity.
Qed.




Lemma unsplittable_deferred_old (b : Block) (dims : RenderDimensions) :
  isUnsplittable b = true ->
  availableHeight dims < MIN_BLOCK_HEIGHT ->
  Part000.renderBlock b dims = (Defer, []).
Proof.
  intros Hb Ha. destruct b; try discriminate; simpl.
  - unfold Part000.renderImage.
    assert (E : Qltb (Qmin 3.5 (availableHeight dims)) MIN_BLOCK_HEIGHT = true).
    { apply Qltb_true. apply Q.min_lt_iff. right. exact Ha. }
    rewrite E. reflexivity.
  - unfold Part000.renderTable.
    assert (E1 : Qltb (availableHeight dims) MIN_BLOCK_HEIGHT = true)
      by (apply Qltb_true; exact Ha).
    assert (E2 : Qltb (availableHeight dims)
                   (Qmax (0.6 + ofNat (length rows) * 0.45)
                      MIN_BLOCK_HEIGHT) = true).
    { apply Qltb_true. apply Q.max_lt_iff. right. exact Ha. }
    rewrite E1, E2. reflexivity.
Qed.


Lemma placeLoop_deferred_old (n : nat) (w sb cursor : Q) (b : Block)
    (rest : list Block) (consumed : bool) (draws : list Draw) :
  Part000.renderBlock b (dimsAt w sb cursor) = (Defer, []) ->
  Part000.placeLoop (S n) w sb (b :: rest) cursor consumed draws =
    Some {| queueAfter := b :: rest; cursorAfter := cursor;
            consumedAfter := consumed; drawsAfter := draws ++ [] |}.
Proof. intro E. simpl. rewrite E. reflexivity. Qed.

(** In the older variant a forced placement that is deferred leaves the
    queue as it is and the loop goes round again: on a page whose body
    offers less than [MIN_BLOCK_HEIGHT], pagination of a queue headed by an
    image or a table never ends. *)
Lemma pageLoop_old_diverges (fuel : nat) (w sb : Q) (bg : option str)
    (spec : SlideSpec) (b : Block) (rest : list Block) (part : nat)
    (first : bool) (pages : list Page) :
  isUnsplittable b = true ->
  sb - BODY_TOP < MIN_BLOCK_HEIGHT ->
  Part000.pageLoop fuel w sb bg spec (b :: rest) part first pages = None.
Proof.
  intros Hu Ha.
  pose proof (unsplittable_deferred_old b (dimsAt w sb BODY_TOP) Hu Ha) as E.
  revert part first pages.
  induction fuel as [|fuel IH]; intros part first pages; [reflexivity|].
  cbn [Part000.pageLoop isEmptyList negb orb].
  destruct fuel as [|n]; [reflexivity|].
  erewrite placeLoop_deferred_old by exact E.
  cbn [queueAfter drawsAfter consumedAfter cursorAfter negb].
  change (Qeq_bool BODY_TOP BODY_TOP) with true. cbn [negb].
  rewrite E. cbn [isEmptyList]. apply IH.
Qed.

(** *** A queue of one block that cannot be split *)

Section OneUnsplittable.

Variables (safeWidth safeBottom : Q) (defaultBackground : option str).
Variables (spec : SlideSpec) (b : Block).
Hypothesis Hqueue : blocks spec = [b].
Hypothesis Hkind : isUnsplittable b = true.







End OneUnsplittable.



End Pagination.

(** ** The parser *)

Module ParserFacts.

Import Parser Props ParserProps StrFacts.

Lemma skipn_nth (A : Type) (d : A) (i : nat) (l : list A) :
  (i < length l)%nat -> skipn i l = nth i l d :: skipn (S i) l.
Proof.
  revert l. induction i as [|i IH]; intros [|a l] H; simpl in *; try lia.
  - reflexivity.
  - apply IH. lia.
Qed.

(** *** The operations on the state *)

Lemma allSlides_finalize (st : ParseState) :
  allSlides (finalizeCurrentSlide st) = allSlides st /\
  slides (finalizeCurrentSlide st) = allSlides st /\
  origins (finalizeCurrentSlide st) = origins st.
Proof.
  unfold finalizeCurrentSlide, allSlides, currentList.
  destruct (current st) eqn:E; simpl; rewrite ?E, ?app_nil_r; auto.
Qed.

Lemma allSlides_startNewSlide (st : ParseState) (rawTitle : option str)
    (o : Origin) :
  exists s,
    allSlides (startNewSlide st rawTitle o) = allSlides st ++ [s] /\
    current (startNewSlide st rawTitle o) = Some s /\
    origins (startNewSlide st rawTitle o) = origins st ++ [o] /\
    blocks s = [] /\
    title s =
      let fallback := slideTitle (length (allSlides st) + 1) in
      match option_map trim rawTitle with
      | Some t => if negb (isEmpty t) then t else fallback
      | None => fallback
      end.
Proof.
  destruct (allSlides_finalize st) as (_ & E2 & E3).
  unfold startNewSlide. eexists. unfold allSlides at 1, currentList. simpl.
  rewrite E2, E3. repeat split.
Qed.

Lemma allSlides_updateCurrent (f : SlideSpec -> SlideSpec) (st : ParseState) :
  origins (updateCurrent f st) = origins st /\
  codeBlock (updateCurrent f st) = codeBlock st /\
  match current st with
  | Some s =>
      allSlides (updateCurrent f st) = slides st ++ [f s] /\
      current (updateCurrent f st) = Some (f s)
  | None => updateCurrent f st = st
  end.
Proof.
  unfold updateCurrent, allSlides, currentList.
  destruct (current st) eqn:E; simpl; rewrite ?E; auto.
Qed.

Lemma ensureSlide_open (st : ParseState) :
  exists s, current (ensureSlide st None) = Some s.
Proof.
  unfold ensureSlide. destruct (current st) eqn:E; [eauto|].
  destruct (allSlides_startNewSlide st
              (Some (slideTitle (length (slides st) + 1))) Implicit)
    as (s & _ & Hc & _). eauto.
Qed.

(** *** The blocks of a state *)

Lemma allBlocks_app (st : ParseState) (s : SlideSpec) :
  current st = Some s ->
  allBlocks st = flat_map blocks (slides st) ++ blocks s.
Proof.
  intro E. unfold allBlocks, allSlides, currentList. rewrite E.
  rewrite flat_map_app. simpl. rewrite app_nil_r. reflexivity.
Qed.

Lemma allBlocks_ensureSlide (st : ParseState) :
  allBlocks (ensureSlide st None) = allBlocks st.
Proof.
  unfold ensureSlide. destruct (current st) eqn:E; [reflexivity|].
  destruct (allSlides_startNewSlide st
              (Some (slideTitle (length (slides st) + 1))) Implicit)
    as (s & Ha & _ & _ & Hb & _).
  unfold allBlocks. rewrite Ha, flat_map_app. simpl.
  rewrite Hb, !app_nil_r. reflexivity.
Qed.

Lemma allBlocks_updateCurrent (f : SlideSpec -> SlideSpec) (st : ParseState)
    (extra : list Block) :
  (forall s, blocks (f s) = blocks s ++ extra) ->
  current st <> None ->
  allBlocks (updateCurrent f st) = allBlocks st ++ extra.
Proof.
  intros Hf Hc. destruct (allSlides_updateCurrent f st) as (_ & _ & H).
  destruct (current st) as [s|] eqn:E; [|congruence].
  destruct H as [H _]. unfold allBlocks at 1. rewrite H.
  rewrite (allBlocks_app st s E), flat_map_app. simpl.
  rewrite Hf, app_nil_r, app_assoc. reflexivity.
Qed.

Lemma allBlocks_updateCurrent_same (f : SlideSpec -> SlideSpec)
    (st : ParseState) :
  (forall s, blocks (f s) = blocks s) ->
  allBlocks (updateCurrent f st) = allBlocks st.
Proof.
  intros Hf. destruct (allSlides_updateCurrent f st) as (_ & _ & H).
  destruct (current st) as [s|] eqn:E; [|rewrite H; reflexivity].
  destruct H as [H _]. unfold allBlocks at 1. rewrite H.
  rewrite (allBlocks_app st s E), flat_map_app. simpl.
  rewrite Hf, app_nil_r. reflexivity.
Qed.

Lemma allBlocks_appendBlock (st : ParseState) (b : Block) :
  allBlocks (appendBlock st b) = allBlocks st ++ [b].
Proof.
  unfold appendBlock.
  rewrite (allBlocks_updateCurrent (pushBlock b) (ensureSlide st None) [b]).
  - rewrite allBlocks_ensureSlide. reflexivity.
  - reflexivity.
  - destruct (ensureSlide_open st) as [s E]. congruence.
Qed.

Lemma allBlocks_startNewSlide (st : ParseState) (rawTitle : option str)
    (o : Origin) :
  allBlocks (startNewSlide st rawTitle o) = allBlocks st.
Proof.
  destruct (allSlides_startNewSlide st rawTitle o) as (s & Ha & _ & _ & Hb & _).
  unfold allBlocks. rewrite Ha, flat_map_app. simpl.
  rewrite Hb, !app_nil_r. reflexivity.
Qed.

(** One turn of the loop appends blocks it emits, and nothing else. *)
Lemma Step_blocks (lines : list str) (st st' : ParseState) :
  Step lines st st' ->
  exists bs, allBlocks st' = allBlocks st ++ bs /\ Forall (Emitted lines) bs.
Proof.
  intro H. destruct H.
  - exists []. rewrite app_nil_r. auto.
  - unfold appendCodeBlock. destruct (codeBlock st) as [[language ls]|].
    + exists [Code (join [LF] ls) language]. split.
      * change (allBlocks (clearCodeBlock ?s)) with (allBlocks s).
        apply allBlocks_appendBlock.
      * repeat constructor.
    + exists []. rewrite app_nil_r. auto.
  - exists []. rewrite app_nil_r. split; [|constructor].
    unfold pushCodeLine. destruct (codeBlock st) as [[language ls]|]; reflexivity.
  - exists []. rewrite app_nil_r. split; [reflexivity|constructor].
  - exists []. rewrite app_nil_r. split; [|constructor].
    rewrite allBlocks_updateCurrent_same by reflexivity.
    apply allBlocks_ensureSlide.
  - exists []. rewrite app_nil_r. split; [|constructor].
    apply allBlocks_startNewSlide.
  - exists []. rewrite app_nil_r. split; [|constructor].
    unfold appendNote. rewrite allBlocks_updateCurrent_same by reflexivity.
    apply allBlocks_ensureSlide.
  - exists []. rewrite app_nil_r. split; [|constructor].
    unfold updateBackground. destruct (negb _).
    + rewrite allBlocks_updateCurrent_same by reflexivity.
      apply allBlocks_ensureSlide.
    + apply allBlocks_ensureSlide.
  - exists [b]. split; [apply allBlocks_appendBlock|]. repeat constructor.
    assumption.
Qed.

(** *** One turn of the loop *)

Lemma isTableLine_trim (s : str) : isTableLine (trim s) = isTableLine s.
Proof. unfold isTableLine. rewrite trim_idempotent. reflexivity. Qed.

Lemma isTableLine_trimEnd (s : str) : isTableLine (trimEnd s) = isTableLine s.
Proof. unfold isTableLine. rewrite trim_trimEnd. reflexivity. Qed.

Lemma fst_collectBullets (lines : list str) (i : nat) :
  fst (collectBullets lines i) = fst (collectBulletsFrom (skipn i lines)).
Proof.
  unfold collectBullets. destruct (collectBulletsFrom _). reflexivity.
Qed.

Lemma fst_collectParagraph (lines : list str) (i : nat) :
  fst (collectParagraph lines i) =
    join [LF] (fst (collectParagraphFrom (skipn i lines))).
Proof.
  unfold collectParagraph. destruct (collectParagraphFrom _). reflexivity.
Qed.

Lemma processLine_step (lines : list str) (i : nat) (st : ParseState) :
  (i < length lines)%nat ->
  Step lines st (fst (processLine lines i st)).
Proof.
  intro Hi. unfold processLine.
  destruct (codeBlock st) as [cb|].
  { destruct (CODE_FENCE_test _); simpl; constructor. }
  destruct (isEmpty (trim (trimEnd (nth i lines [])))) eqn:Eblank;
    [constructor|].
  destruct (CODE_FENCE_test _); [constructor|].
  destruct (SUBTITLE_test _); [constructor|].
  destruct (HEADING_test _); [constructor|].
  destruct (NOTE_test _); [constructor|].
  destruct (BACKGROUND_test _); [constructor|].
  destruct (IMAGE_match _) as [[altRaw pathRaw]|].
  { simpl. apply StepBlock. unfold imageBlock.
    destruct (splitSizing pathRaw). constructor. }
  destruct (isTableLine _).
  { destruct (collectTable lines i) as [rows ni]. simpl.
    apply StepBlock. constructor. }
  destruct (BULLET_test _).
  { pose proof (fst_collectBullets lines i) as E.
    destruct (collectBullets lines i) as [items ni]. simpl in *. subst items.
    apply StepBlock. constructor. exact Hi. }
  pose proof (fst_collectParagraph lines i) as E.
  destruct (collectParagraph lines i) as [paragraph ni]. simpl in *.
  subst paragraph. apply StepBlock. constructor; [exact Hi|].
  rewrite blank_test in Eblank. exact Eblank.
Qed.

(** The loop index never moves back. *)
Lemma processLine_advances (lines : list str) (i : nat) (st : ParseState) :
  (i < length lines)%nat ->
  (Z.of_nat i <= snd (processLine lines i st))%Z.
Proof.
  intro Hi. unfold processLine.
  destruct (codeBlock st) as [cb|].
  { destruct (CODE_FENCE_test _); simpl; lia. }
  destruct (isEmpty _); [simpl; lia|].
  destruct (CODE_FENCE_test _); [simpl; lia|].
  destruct (SUBTITLE_test _); [simpl; lia|].
  destruct (HEADING_test _); [simpl; lia|].
  destruct (NOTE_test _); [simpl; lia|].
  destruct (BACKGROUND_test _); [simpl; lia|].
  destruct (IMAGE_match _) as [m|]; [simpl; lia|].
  destruct (isTableLine _) eqn:Et.
  { unfold collectTable. rewrite (skipn_nth str [] i lines Hi).
    cbn [collectTableFrom].
    rewrite isTableLine_trimEnd in Et. rewrite isTableLine_trim, Et.
    cbn [negb]. destruct (collectTableFrom _) as [rows k]. simpl. lia. }
  destruct (BULLET_test _) eqn:Eb.
  { unfold collectBullets. rewrite (skipn_nth str [] i lines Hi).
    cbn [collectBulletsFrom]. unfold BULLET_test in Eb.
    destruct (BULLET_match (nth i lines [])) as [m|]; [|discriminate].
    destruct (collectBulletsFrom _) as [items k]. simpl. lia. }
  unfold collectParagraph.
  destruct (collectParagraphFrom _) as [buffer k]. simpl. lia.
Qed.

(** *** The loop *)

(** [parseSlides] returns: the fuel it is given is enough. *)
Lemma parseLoop_total (fuel : nat) (lines : list str) (i : nat)
    (st : ParseState) :
  (length lines - i < fuel)%nat ->
  exists st', parseLoop fuel lines i st = Some st'.
Proof.
  revert i st. induction fuel as [|fuel IH]; intros i st H; [lia|].
  cbn [parseLoop]. destruct (Nat.ltb_spec i (length lines)) as [Hi|Hi].
  - pose proof (processLine_advances lines i st Hi) as Ha.
    destruct (processLine lines i st) as [st' ni]. simpl in Ha.
    apply IH. lia.
  - eauto.
Qed.

Lemma parseFinal_total (rawText : str) :
  exists st, parseFinal rawText = Some st.
Proof.
  unfold parseFinal.
  destruct (parseLoop_total (S (length (splitLines rawText)))
              (splitLines rawText) 0 initialState) as [st E]; [lia|].
  rewrite E. eauto.
Qed.

(** A property of the state that every turn keeps holds when the loop
    ends. *)
Lemma parseLoop_invariant (P : ParseState -> Prop) (lines : list str) :
  (forall st st', Step lines st st' -> P st -> P st') ->
  forall fuel i st st',
    P st -> parseLoop fuel lines i st = Some st' -> P st'.
Proof.
  intros HP. induction fuel as [|fuel IH]; intros i st st' H E; [discriminate|].
  cbn [parseLoop] in E. destruct (Nat.ltb_spec i (length lines)) as [Hi|Hi].
  - pose proof (processLine_step lines i st Hi) as Hs.
    destruct (processLine lines i st) as [st1 ni]. simpl in Hs.
    eapply IH; [|exact E]. eapply HP; eassumption.
  - injection E as <-. exact H.
Qed.

(** The state [parseSlides] ends in, for an invariant of the turns. *)
Lemma parseFinal_invariant (P : ParseState -> Prop) (rawText : str)
    (final : ParseState) :
  (forall st st', Step (splitLines rawText) st st' -> P st -> P st') ->
  P initialState ->
  parseFinal rawText = Some final ->
  exists st, P st /\ final = finalizeCurrentSlide st.
Proof.
  intros HP H0 E. unfold parseFinal in E.
  destruct (parseLoop _ _ _ _) as [st|] eqn:El; [|discriminate].
  injection E as <-. exists (appendCodeBlock st). split; [|reflexivity].
  apply (HP st); [constructor|].
  eapply parseLoop_invariant; eassumption.
Qed.

(** Every block of the slides [parseSlides] returns was emitted by a turn of
    its loop. *)
Lemma parseSlides_emitted (rawText : str) (result : list SlideSpec) :
  parseSlides rawText = Some result ->
  Forall (Emitted (splitLines rawText)) (flat_map blocks result).
Proof.
  unfold parseSlides. intro E.
  destruct (parseFinal rawText) as [final|] eqn:Ef; [|discriminate].
  injection E as <-.
  destruct (parseFinal_invariant
              (fun st => Forall (Emitted (splitLines rawText)) (allBlocks st))
              rawText final) as (st & Hst & ->); [| |exact Ef|].
  - intros st st' Hs H. destruct (Step_blocks _ _ _ Hs) as (bs & -> & Hbs).
    apply Forall_app. auto.
  - constructor.
  - destruct (allSlides_finalize st) as (_ & -> & _). exact Hst.
Qed.

Lemma emitted_block (rawText : str) (result : list SlideSpec)
    (s : SlideSpec) (b : Block) :
  parseSlides rawText = Some result -> In s result -> In b (blocks s) ->
  Emitted (splitLines rawText) b.
Proof.
  intros E Hs Hb. pose proof (parseSlides_emitted rawText result E) as H.
  rewrite Forall_forall in H. apply H. apply in_flat_map. eauto.
Qed.


(** *** Bullets *)




(** *** Paragraphs *)

Lemma collectParagraphFrom_lines (ls : list str) :
  Forall (fun l => occ LF l = 0%nat) ls ->
  Forall paragraphLine (fst (collectParagraphFrom ls)).
Proof.
  induction ls as [|raw rest IH]; intro H; simpl; [constructor|].
  inversion H as [|? ? Hraw Hrest]; subst.
  destruct (isEmpty raw || isEmpty (trim raw)) eqn:E; [constructor|].
  apply orb_false_iff in E. destruct E as [_ E].
  assert (Hp : paragraphLine (trim raw)).
  { split; [apply isEmpty_false; exact E|]. split; [apply hdSpace_trim|].
    pose proof (occ_trim LF raw). lia. }
  destruct rest as [|lookahead rest']; [constructor; [exact Hp|constructor]|].
  destruct (isEmpty lookahead || isEmpty (trim lookahead));
    [constructor; [exact Hp|constructor]|].
  destruct (isBlockBoundary lookahead); [constructor; [exact Hp|constructor]|].
  specialize (IH Hrest).
  destruct (collectParagraphFrom (lookahead :: rest')) as [buffer k].
  simpl in *. constructor; assumption.
Qed.

Lemma collectParagraphFrom_nonempty (raw : str) (rest : list str) :
  isBlank raw = false -> fst (collectParagraphFrom (raw :: rest)) <> [].
Proof.
  intro H. unfold isBlank in H. cbn [collectParagraphFrom].
  rewrite isEmpty_trim, H.
  assert (E : isEmpty raw = false) by (destruct raw; [discriminate H|reflexivity]).
  rewrite E. cbn [orb].
  destruct rest as [|lookahead rest']; [discriminate|].
  destruct (_ || _); [discriminate|].
  destruct (isBlockBoundary lookahead); [discriminate|].
  destruct (collectParagraphFrom (lookahead :: rest')). discriminate.
Qed.

(** The text of a paragraph of [parseSlides]: its lines, joined. *)
Lemma emitted_paragraph (lines : list str) (t : str) :
  Forall (fun l => occ LF l = 0%nat) lines ->
  Emitted lines (Paragraph t) ->
  exists buffer, t = join [LF] buffer /\ buffer <> [] /\
                 Forall paragraphLine buffer.
Proof.
  intros Hl H. inversion H as [| | | |i Hi Hb Heq]; subst.
  exists (fst (collectParagraphFrom (skipn i lines))).
  split; [reflexivity|]. split.
  - rewrite (skipn_nth str [] i lines Hi).
    apply collectParagraphFrom_nonempty. exact Hb.
  - apply collectParagraphFrom_lines. apply Forall_skipn. exact Hl.
Qed.

Lemma paragraphLines_no_LF (buffer : list str) :
  Forall paragraphLine buffer -> Forall (fun l => occ LF l = 0%nat) buffer.
Proof. apply Forall_impl. intros l (_ & _ & H). exact H. Qed.

Lemma hdSpace_join (buffer : list str) :
  Forall paragraphLine buffer -> hdSpace (join [LF] buffer) = false.
Proof.
  intro H. destruct buffer as [|l rest]; [reflexivity|].
  inversion H as [|? ? (Hne & Hhd & _) _]; subst.
  destruct l as [|c l]; [congruence|].
  destruct rest; exact Hhd.
Qed.

Lemma paragraphFragments_nonempty (ds : list Render.RenderDimensions)
    (t : str) : paragraphFragments ds t <> [].
Proof.
  destruct ds as [|d ds]; simpl; [discriminate|].
  destruct (Render.renderParagraph t d) as [[nc|nc [tail|?|? ? ?|? ?|?]|] dr];
    try discriminate.
  destruct dr as [|[head ? ? ? ?|? ? ? ? ?|? ? ? ? ? ? ?|? ? ? ?|?] [|? ?]];
    discriminate.
Qed.

(** The pieces of a paragraph of the parser, joined again, are its text. *)
Lemma paragraphFragments_join (ds : list Render.RenderDimensions)
    (buffer : list str) :
  buffer <> [] -> Forall paragraphLine buffer ->
  join [LF] (paragraphFragments ds (join [LF] buffer)) = join [LF] buffer.
Proof.
  revert buffer. induction ds as [|d ds IH]; intros buffer Hne Hb;
    [reflexivity|].
  cbn [paragraphFragments].
  destruct (Render.renderParagraph (join [LF] buffer) d) as [res dr] eqn:E.
  destruct res as [nc|nc r|]; [reflexivity| |reflexivity].
  apply RenderFacts.renderParagraph_split in E.
  destruct E as (m & Hm & -> & -> & _).
  pose proof (paragraphLines_no_LF _ Hb) as Hlf.
  rewrite (split_join LF buffer Hne Hlf) in *.
  assert (Hf : firstn m buffer <> []).
  { apply firstn_nonempty; [lia|exact Hne]. }
  assert (Hs : skipn m buffer <> []) by (apply skipn_nonempty; lia).
  rewrite trimStart_id by (apply hdSpace_join, Forall_skipn, Hb).
  rewrite join_cons_nonempty by apply paragraphFragments_nonempty.
  rewrite IH; [|exact Hs|apply Forall_skipn, Hb].
  rewrite <- join_app by assumption.
  rewrite firstn_skipn. reflexivity.
Qed.

(** C4.  Take a paragraph that [parseSlides] returns and place it over any
    sequence of pages.  The heads drawn at the successive splits, followed
    by the text that remains, joined with line feeds, give back the text of
    the paragraph, also up to trimming: nothing is lost and nothing changes
    place. *)
Theorem paragraph_split_lossless (rawText : str) (result : list SlideSpec)
    (s : SlideSpec) (t : str) (ds : list Render.RenderDimensions) :
  parseSlides rawText = Some result ->
  In s result -> In (Paragraph t) (blocks s) ->
  trim (join [LF] (paragraphFragments ds t)) = trim t /\
  join [LF] (paragraphFragments ds t) = t.
Proof.
  intros E Hs Hb.
  pose proof (emitted_block rawText result s _ E Hs Hb) as Hem.
  apply emitted_paragraph in Hem; [|apply split_pieces].
  destruct Hem as (buffer & -> & Hne & Hbuf).
  rewrite paragraphFragments_join by assumption. split; reflexivity.
Qed.

(** *** Titles *)

Lemma digit_not_space (c : ascii) : isDigit c = true -> isSpace c = false.
Proof.
  unfold isDigit, isSpace. set (n := nat_of_ascii c). intro H.
  apply andb_true_iff in H. destruct H as [H1 H2].
  apply Nat.leb_le in H1, H2.
  replace (n <=? 13)%nat with false by (symmetry; apply Nat.leb_gt; lia).
  replace (n =? 32)%nat with false by (symmetry; apply Nat.eqb_neq; lia).
  replace (n =? 160)%nat with false by (symmetry; apply Nat.eqb_neq; lia).
  rewrite andb_false_r. reflexivity.
Qed.

Lemma string_of_uint_digits (d : Decimal.uint) :
  forallb isDigit (lit (NilEmpty.string_of_uint d)) = true.
Proof.
  induction d; simpl; try reflexivity;
    first [assumption | apply andb_true_iff; split; [reflexivity|assumption]].
Qed.

Lemma showNat_nonempty (n : nat) : showNat n <> [].
Proof.
  unfold showNat. destruct (Nat.to_uint n) eqn:E; try discriminate.
  pose proof (f_equal Nat.of_uint E) as E'. rewrite Unsigned.of_to in E'.
  simpl in E'. subst n. discriminate E.
Qed.

Lemma digits_hdSpace (s : str) : forallb isDigit s = true -> hdSpace s = false.
Proof.
  destruct s as [|c s]; [reflexivity|]. simpl. intro H.
  apply andb_true_iff in H. apply digit_not_space, H.
Qed.

Lemma slideTitle_trim (k : nat) : trim (slideTitle k) = slideTitle k.
Proof.
  apply trim_id; [reflexivity|].
  unfold slideTitle. rewrite rev_app_distr.
  pose proof (showNat_nonempty k) as Hne.
  assert (Hd : forallb isDigit (rev (showNat k)) = true).
  { rewrite forallb_rev. apply string_of_uint_digits. }
  destruct (rev (showNat k)) as [|c t] eqn:E.
  - apply (f_equal (@rev ascii)) in E. rewrite rev_involutive in E.
    simpl in E. congruence.
  - apply (digits_hdSpace (c :: t)). exact Hd.
Qed.

Lemma originTitle_nonempty (i : nat) (o : Origin) : originTitle i o <> [].
Proof.
  assert (H : slideTitle (S i) <> []) by discriminate.
  destruct o as [t| |t]; simpl; try exact H;
    destruct (isEmpty (trim t)) eqn:E; try exact H;
    apply isEmpty_false; exact E.
Qed.

Lemma titlesFrom_snoc (n : nat) (os : list Origin) (o : Origin) :
  titlesFrom n (os ++ [o]) =
    titlesFrom n os ++ [originTitle (n + length os) o].
Proof.
  revert n. induction os as [|a os IH]; intro n; simpl.
  - rewrite Nat.add_0_r. reflexivity.
  - rewrite IH. replace (S n + length os)%nat with (n + S (length os))%nat
      by lia. reflexivity.
Qed.

Lemma titlesFrom_length (n : nat) (os : list Origin) :
  length (titlesFrom n os) = length os.
Proof.
  revert n. induction os as [|a os IH]; intro n; simpl; [|rewrite IH];
    reflexivity.
Qed.

Lemma titlesFrom_nth (n i : nat) (os : list Origin) (o : Origin) :
  nth_error os i = Some o ->
  nth_error (titlesFrom n os) i = Some (originTitle (n + i) o).
Proof.
  revert n i. induction os as [|a os IH]; intros n [|i] H; simpl in *;
    try discriminate.
  - injection H as ->. rewrite Nat.add_0_r. reflexivity.
  - rewrite (IH (S n) i H). replace (S n + i)%nat with (n + S i)%nat by lia.
    reflexivity.
Qed.

Lemma TitleInv_length (st : ParseState) :
  TitleInv st -> length (allSlides st) = length (origins st).
Proof.
  intros [H _]. apply (f_equal (@length str)) in H.
  unfold allTitles in H. rewrite length_map, titlesFrom_length in H. exact H.
Qed.

(** The title [startNewSlide] gives is the one the origin tells. *)
Lemma TitleInv_startNewSlide (st : ParseState) (t : str) (o : Origin) :
  notFromText o ->
  (o = FromHeading t \/ (o = Implicit /\ exists k, t = slideTitle k /\
                         k = (length (allSlides st) + 1)%nat)) ->
  TitleInv st -> TitleInv (startNewSlide st (Some t) o).
Proof.
  intros Ho Hto Hinv. pose proof (TitleInv_length st Hinv) as Hlen.
  destruct Hinv as [Ht Hf].
  destruct (allSlides_startNewSlide st (Some t) o) as (s & Ha & _ & Hor & _ & Hti).
  split.
  - unfold allTitles in *. rewrite Ha, Hor, map_app, titlesFrom_snoc, Ht.
    simpl. f_equal. f_equal. rewrite Hti. cbv zeta. simpl option_map.
    rewrite <- Hlen, Nat.add_1_r.
    destruct Hto as [->|(-> & k & -> & ->)]; simpl.
    + destruct (isEmpty (trim t)); reflexivity.
    + rewrite slideTitle_trim, Nat.add_1_r. reflexivity.
  - rewrite Hor. apply Forall_app. split; [exact Hf|]. repeat constructor.
    exact Ho.
Qed.

Lemma TitleInv_ensureSlide (st : ParseState) :
  TitleInv st -> TitleInv (ensureSlide st None).
Proof.
  intro H. unfold ensureSlide. destruct (current st) eqn:E; [exact H|].
  apply TitleInv_startNewSlide; [exact I| |exact H].
  right. split; [reflexivity|]. eexists. split; [reflexivity|].
  unfold allSlides, currentList. rewrite E, app_nil_r. reflexivity.
Qed.

Lemma TitleInv_updateCurrent (f : SlideSpec -> SlideSpec) (st : ParseState) :
  (forall s, title (f s) = title s) ->
  TitleInv st -> TitleInv (updateCurrent f st).
Proof.
  intros Hf [Ht Hn].
  destruct (allSlides_updateCurrent f st) as (Ho & _ & H).
  destruct (current st) as [s|] eqn:E; [|rewrite H; split; assumption].
  destruct H as [H _]. split; [|rewrite Ho; exact Hn].
  unfold allTitles in *. rewrite H, Ho, <- Ht.
  unfold allSlides, currentList. rewrite E, !map_app. simpl.
  rewrite Hf. reflexivity.
Qed.

Lemma TitleInv_appendBlock (st : ParseState) (b : Block) :
  TitleInv st -> TitleInv (appendBlock st b).
Proof.
  intro H. unfold appendBlock.
  apply TitleInv_updateCurrent; [reflexivity|].
  apply TitleInv_ensureSlide. exact H.
Qed.

(** Closes the goals of the turns that open a slide at most implicitly
    and then change something other than its title. *)
Ltac titles_kept H :=
  first
    [ exact H
    | apply TitleInv_ensureSlide; exact H
    | apply TitleInv_updateCurrent; [reflexivity|];
      apply TitleInv_ensureSlide; exact H ].

Lemma Step_titles (lines : list str) (st st' : ParseState) :
  Step lines st st' -> TitleInv st -> TitleInv st'.
Proof.
  intros Hs H. destruct Hs; try titles_kept H.
  - unfold appendCodeBlock. destruct (codeBlock st) as [[language ls]|];
      [|exact H].
    exact (TitleInv_appendBlock st _ H).
  - unfold pushCodeLine. destruct (codeBlock st) as [[language ls]|]; exact H.
  - apply TitleInv_startNewSlide; [exact I|left; reflexivity|exact H].
  - unfold updateBackground. destruct (negb _); titles_kept H.
Qed.

(** The titles of the slides of [parseSlides] are those their origins
    tell. *)
Lemma parseSlides_titles (rawText : str) (result : list SlideSpec)
    (os : list Origin) :
  parseSlides rawText = Some result ->
  parseOrigins rawText = Some os ->
  map title result = titlesFrom 0 os /\ Forall notFromText os.
Proof.
  unfold parseSlides, parseOrigins. intros E1 E2.
  destruct (parseFinal rawText) as [final|] eqn:Ef; [|discriminate].
  injection E1 as <-. injection E2 as <-.
  destruct (parseFinal_invariant TitleInv rawText final)
    as (st & [Ht Hn] & ->); [apply Step_titles| |exact Ef|].
  - split; [reflexivity|constructor].
  - destruct (allSlides_finalize st) as (_ & -> & ->). split; assumption.
Qed.

End ParserFacts.

(** ** The parser of the older variant *)

Module Part000Facts.

Import Part000 Props ParserProps Part000Props StrFacts ParserFacts.

Lemma allTitles_ensureSlide_old (st : ParseState) (t : str) (o : Origin) :
  allTitles (ensureSlide st t o) =
    allTitles st ++
    [if isEmpty (trim t) then slideTitle (length (allTitles st) + 1)
     else trim t] /\
  origins (ensureSlide st t o) = origins st ++ [o].
Proof.
  unfold ensureSlide, pushCurrent, allTitles, currentList.
  destruct (current st) as [s|]; simpl;
    rewrite ?app_nil_r, ?map_app, ?length_map, ?length_app; simpl;
    rewrite ?length_map; auto.
Qed.

Lemma TitleInv_length_old (st : ParseState) :
  TitleInv st -> length (allTitles st) = length (origins st).
Proof.
  intros [H _]. rewrite H. apply titlesFrom_length.
Qed.

Lemma TitleInv_ensureSlide_old (st : ParseState) (t : str) (o : Origin) :
  textNotBlank o ->
  (o = FromHeading t \/ o = FromText t \/
   (o = Implicit /\ t = slideTitle (length (allTitles st) + 1))) ->
  TitleInv st -> TitleInv (ensureSlide st t o).
Proof.
  intros Ho Hto Hinv. pose proof (TitleInv_length_old st Hinv) as Hlen.
  destruct Hinv as [Ht Hf].
  destruct (allTitles_ensureSlide_old st t o) as [Ha Hor]. split.
  - rewrite Ha, Hor, titlesFrom_snoc, <- Ht. f_equal. f_equal.
    rewrite Hlen, Nat.add_1_r. simpl.
    destruct Hto as [->|[->|[-> ->]]]; simpl; try reflexivity.
    rewrite slideTitle_trim, Hlen, Nat.add_1_r. reflexivity.
  - rewrite Hor. apply Forall_app. split; [exact Hf|]. repeat constructor.
    exact Ho.
Qed.

Lemma TitleInv_needCurrent_old (st : ParseState) :
  TitleInv st -> TitleInv (needCurrent st).
Proof.
  intro H. unfold needCurrent. destruct (current st) eqn:E; [exact H|].
  apply TitleInv_ensureSlide_old; [exact I| |exact H].
  right. right. split; [reflexivity|].
  unfold allTitles, currentList. rewrite E, app_nil_r, length_map. reflexivity.
Qed.

Lemma TitleInv_updateCurrent_old (f : SlideSpec -> SlideSpec) (st : ParseState) :
  (forall s, title (f s) = title s) ->
  TitleInv st -> TitleInv (updateCurrent f st).
Proof.
  intros Hf [Ht Hn]. unfold updateCurrent.
  destruct (current st) as [s|] eqn:E; [|split; assumption].
  split; [|exact Hn]. cbn [origins]. rewrite <- Ht.
  unfold allTitles, currentList. cbn [slides current].
  rewrite E, !map_app. simpl. rewrite Hf. reflexivity.
Qed.

Lemma TitleInv_setCodeState_old (c : option (option str * list str))
    (st : ParseState) : TitleInv st -> TitleInv (setCodeState c st).
Proof. intro H. exact H. Qed.

Lemma TitleInv_pushCode_old (st st' : ParseState) :
  pushCode st = Some st' -> TitleInv st -> TitleInv st'.
Proof.
  unfold pushCode. intros E H.
  destruct (codeState (needCurrent st)) as [[language ls]|]; [|discriminate].
  injection E as <-. apply TitleInv_updateCurrent_old; [reflexivity|].
  apply TitleInv_needCurrent_old. exact H.
Qed.

Lemma processLine_titles_old (lines : list str) (i : nat) (st st' : ParseState)
    (ni : Z) :
  processLine lines i st = Some (st', ni) -> TitleInv st -> TitleInv st'.
Proof.
  unfold processLine. intros E H.
  destruct (codeState st) as [[language codeLines]|].
  { destruct (CODE_FENCE_test _).
    - destruct (pushCode st) as [st1|] eqn:Ep; [|discriminate].
      injection E as <- _. apply TitleInv_setCodeState_old.
      exact (TitleInv_pushCode_old _ _ Ep H).
    - injection E as <- _. exact H. }
  destruct (CODE_FENCE_test _); [injection E as <- _; exact H|].
  destruct (isEmpty (trim (trimEnd (nth i lines [])))) eqn:Eblank;
    [injection E as <- _; exact H|].
  destruct (HEADING_test _).
  { injection E as <- _.
    apply TitleInv_ensureSlide_old; [exact I|left; reflexivity|exact H]. }
  destruct (SUBTITLE_test _).
  { injection E as <- _. apply TitleInv_updateCurrent_old; [reflexivity|].
    apply TitleInv_needCurrent_old. exact H. }
  destruct (NOTE_test _).
  { injection E as <- _. unfold appendNote.
    apply TitleInv_updateCurrent_old; [reflexivity|].
    apply TitleInv_needCurrent_old. exact H. }
  destruct (BACKGROUND_test _).
  { injection E as <- _. unfold setBackground. destruct (negb _).
    - apply TitleInv_updateCurrent_old; [reflexivity|].
      apply TitleInv_needCurrent_old. exact H.
    - apply TitleInv_needCurrent_old. exact H. }
  destruct (IMAGE_match _) as [m|].
  { injection E as <- _. apply TitleInv_updateCurrent_old; [reflexivity|].
    apply TitleInv_needCurrent_old. exact H. }
  destruct (isTableLine _).
  { injection E as <- _. apply TitleInv_updateCurrent_old; [reflexivity|].
    apply TitleInv_needCurrent_old. exact H. }
  destruct (BULLET_match _) as [m|].
  { destruct (Parser.collectBulletsFrom _) as [items k].
    injection E as <- _. apply TitleInv_updateCurrent_old; [reflexivity|].
    apply TitleInv_needCurrent_old. exact H. }
  destruct (current st) as [s|] eqn:Ec.
  - injection E as <- _. apply TitleInv_updateCurrent_old; [reflexivity|].
    apply TitleInv_needCurrent_old. exact H.
  - injection E as <- _.
    apply TitleInv_ensureSlide_old; [|right; left; reflexivity|exact H].
    simpl. unfold isBlank. rewrite <- isEmpty_trim. exact Eblank.
Qed.

Lemma parseLoop_titles_old (fuel : nat) (lines : list str) (i : nat)
    (st st' : ParseState) :
  parseLoop fuel lines i st = Returned st' -> TitleInv st -> TitleInv st'.
Proof.
  revert i st. induction fuel as [|fuel IH]; intros i st E H; [discriminate|].
  cbn [parseLoop] in E. destruct (i <? length lines)%nat.
  - destruct (processLine lines i st) as [[st1 ni]|] eqn:Ep; [|discriminate].
    eapply IH; [exact E|]. eapply processLine_titles_old; eassumption.
  - injection E as <-. exact H.
Qed.

(** The titles of the slides the older [parseSlides] returns are those
    their origins tell. *)
Lemma parseSlides_titles_old (rawText : str) (result : list SlideSpec)
    (os : list Origin) :
  parseSlides rawText = Returned result ->
  parseOrigins rawText = Returned os ->
  map title result = titlesFrom 0 os /\ Forall textNotBlank os.
Proof.
  unfold parseSlides, parseOrigins, parseFinal. intros E1 E2.
  destruct (parseLoop _ _ _ _) as [st| |] eqn:El; try discriminate.
  assert (H : TitleInv st).
  { eapply parseLoop_titles_old; [exact El|]. split; [reflexivity|constructor]. }
  unfold finish in *.
  assert (Hf : exists st1,
             match codeState st with
             | Some _ => pushCode st
             | None => Some st
             end = Some st1 /\ TitleInv st1).
  { destruct (codeState st) as [c|].
    - destruct (pushCode st) as [st1|] eqn:Ep; [|discriminate].
      exists st1. split; [reflexivity|].
      exact (TitleInv_pushCode_old _ _ Ep H).
    - exists st. auto. }
  destruct Hf as (st1 & Ef & [Ht Hn]). rewrite Ef in *.
  injection E1 as <-. injection E2 as <-.
  unfold pushCurrent. unfold allTitles, currentList in Ht.
  destruct (current st1) as [s|]; simpl in *; rewrite ?app_nil_r in Ht;
    split; assumption.
Qed.

End Part000Facts.

(** ** Titles of the slides *)

Module Titles.

Import Props ParserProps StrFacts ParserFacts.

Lemma title_by_origin (result : list SlideSpec) (os : list Origin)
    (i : nat) (s : SlideSpec) (o : Origin) :
  map title result = titlesFrom 0 os ->
  nth_error result i = Some s -> nth_error os i = Some o ->
  title s = originTitle i o.
Proof.
  intros H Hs Ho.
  pose proof (map_nth_error title i result Hs) as E1.
  pose proof (titlesFrom_nth 0 i os o Ho) as E2.
  rewrite H, E2 in E1. simpl in E1. congruence.
Qed.

Lemma titles_same_length (result : list SlideSpec) (os : list Origin) :
  map title result = titlesFrom 0 os -> length os = length result.
Proof.
  intro H. apply (f_equal (@length str)) in H.
  rewrite length_map, titlesFrom_length in H. congruence.
Qed.

Lemma blank_heading_title (i : nat) (o : Origin) :
  (o = Implicit \/ exists t, o = FromHeading t /\ isBlank t = true) ->
  originTitle i o = slideTitle (S i).
Proof.
  intros [->|(t & -> & Hb)]; [reflexivity|]. simpl.
  rewrite isEmpty_trim. unfold isBlank in Hb. rewrite Hb. reflexivity.
Qed.

(** C5, as the code has it.  In both variants every slide [parseSlides]
    returns has a title that is not empty, and a slide created implicitly
    (or from a heading with blank text, which cannot arise) is titled
    "Slide N", N being its position in the result, counted from 1.  In
    [txt2ppt.ts] a slide has no other origin than a heading or an implicit
    creation.  In the older variant a line of plain text met while no slide
    is open creates the slide too and gives it its own trimmed text as
    title. *)
Theorem slide_titles :
  (forall rawText result os,
     Parser.parseSlides rawText = Some result ->
     Parser.parseOrigins rawText = Some os ->
     length os = length result /\
     forall i s o,
       nth_error result i = Some s -> nth_error os i = Some o ->
       title s <> [] /\
       (forall line, o <> FromText line) /\
       ((o = Implicit \/ exists t, o = FromHeading t /\ isBlank t = true) ->
        title s = slideTitle (S i))) /\
  (forall rawText result os,
     Part000.parseSlides rawText = Part000.Returned result ->
     Part000.parseOrigins rawText = Part000.Returned os ->
     length os = length result /\
     forall i s o,
       nth_error result i = Some s -> nth_error os i = Some o ->
       title s <> [] /\
       ((o = Implicit \/ exists t, o = FromHeading t /\ isBlank t = true) ->
        title s = slideTitle (S i)) /\
       (forall line, o = FromText line ->
        isBlank line = false /\ title s = trim line)).
Proof.
  split.
  - intros rawText result os E1 E2.
    destruct (parseSlides_titles rawText result os E1 E2) as [Ht Hn].
    split; [apply titles_same_length; exact Ht|].
    intros i s o Hs Ho.
    rewrite (title_by_origin result os i s o Ht Hs Ho). split; [|split].
    + apply originTitle_nonempty.
    + intros line ->. rewrite Forall_forall in Hn.
      apply (Hn (FromText line)). eapply nth_error_In. exact Ho.
    + apply blank_heading_title.
  - intros rawText result os E1 E2.
    destruct (Part000Facts.parseSlides_titles_old rawText result os E1 E2)
      as [Ht Hn].
    split; [apply titles_same_length; exact Ht|].
    intros i s o Hs Ho.
    rewrite (title_by_origin result os i s o Ht Hs Ho). split; [|split].
    + apply originTitle_nonempty.
    + apply blank_heading_title.
    + intros line ->. rewrite Forall_forall in Hn.
      pose proof (Hn (FromText line) (nth_error_In _ _ Ho)) as Hb.
      simpl in Hb. split; [exact Hb|]. simpl.
      rewrite isEmpty_trim. unfold isBlank in Hb. rewrite Hb. reflexivity.
Qed.

End Titles.

(** ** When the parser returns no slide *)

Module Blank.

Import Parser Props ParserProps StrFacts ParserFacts.

Lemma current_startNewSlide (st : ParseState) (rawTitle : option str)
    (o : Origin) : current (startNewSlide st rawTitle o) <> None.
Proof. discriminate. Qed.

Lemma current_ensureSlide (st : ParseState) :
  current (ensureSlide st None) <> None.
Proof. destruct (ensureSlide_open st) as [s E]. congruence. Qed.

Lemma current_updateCurrent (f : SlideSpec -> SlideSpec) (st : ParseState) :
  current st <> None -> current (updateCurrent f st) <> None.
Proof.
  unfold updateCurrent. destruct (current st) eqn:E; [discriminate|congruence].
Qed.

Lemma current_appendBlock (st : ParseState) (b : Block) :
  current (appendBlock st b) <> None.
Proof. apply current_updateCurrent, current_ensureSlide. Qed.

Create HintDb opened.

#[local] Hint Resolve current_startNewSlide current_ensureSlide
  current_updateCurrent current_appendBlock : opened.

Lemma Active_appendCodeBlock (st : ParseState) :
  Active st -> current (appendCodeBlock st) <> None.
Proof.
  unfold appendCodeBlock. intros [H|H].
  - destruct (codeBlock st) as [[language ls]|]; [|exact H].
    apply (current_appendBlock st).
  - destruct (codeBlock st) as [[language ls]|]; [|congruence].
    apply (current_appendBlock st).
Qed.

Lemma Step_active (lines : list str) (st st' : ParseState) :
  Step lines st st' -> Active st -> Active st'.
Proof.
  intros Hs H. destruct Hs; try (left; solve [auto with opened]).
  - exact H.
  - left. apply Active_appendCodeBlock. exact H.
  - unfold pushCodeLine. destruct (codeBlock st) as [[language ls]|] eqn:E;
      [right; discriminate|exact H].
  - right. discriminate.
  - left. unfold appendNote. auto with opened.
  - left. unfold updateBackground. destruct (negb _); auto with opened.
Qed.

(** A blank line met outside a code fence changes nothing. *)
Lemma processLine_blank (lines : list str) (i : nat) (st : ParseState) :
  codeBlock st = None -> isBlank (nth i lines []) = true ->
  processLine lines i st = (st, Z.of_nat i).
Proof.
  intros Ec Hb. unfold processLine. rewrite Ec, blank_test.
  unfold isBlank in Hb. rewrite Hb. reflexivity.
Qed.

(** A line that is not blank opens a slide or a code fence, or goes into
    the open fence. *)
Lemma processLine_nonblank (lines : list str) (i : nat) (st : ParseState) :
  isBlank (nth i lines []) = false ->
  Active (fst (processLine lines i st)).
Proof.
  intro Hb. unfold processLine.
  destruct (codeBlock st) as [[language ls]|] eqn:Ec.
  { destruct (CODE_FENCE_test _); simpl.
    - left. apply Active_appendCodeBlock. right. congruence.
    - right. unfold pushCodeLine. rewrite Ec. discriminate. }
  rewrite blank_test. unfold isBlank in Hb. rewrite Hb.
  destruct (CODE_FENCE_test _); [right; discriminate|].
  destruct (SUBTITLE_test _); [left; cbn [fst]; auto with opened|].
  destruct (HEADING_test _); [left; cbn [fst]; auto with opened|].
  destruct (NOTE_test _); [left; cbn [fst]; unfold appendNote; auto with opened|].
  destruct (BACKGROUND_test _).
  { left. cbn [fst]. unfold updateBackground.
    destruct (negb _); auto with opened. }
  destruct (IMAGE_match _) as [m|]; [left; cbn [fst]; auto with opened|].
  destruct (isTableLine _).
  { destruct (collectTable lines i). left. cbn [fst]. auto with opened. }
  destruct (BULLET_test _).
  { destruct (collectBullets lines i). left. cbn [fst]. auto with opened. }
  destruct (collectParagraph lines i). left. cbn [fst]. auto with opened.
Qed.

Lemma parseLoop_blank (fuel : nat) (lines : list str) (i : nat)
    (st' : ParseState) :
  Forall (fun l => isBlank l = true) (skipn i lines) ->
  parseLoop fuel lines i initialState = Some st' -> st' = initialState.
Proof.
  revert i. induction fuel as [|fuel IH]; intros i Hall E; [discriminate|].
  cbn [parseLoop] in E. destruct (Nat.ltb_spec i (length lines)) as [Hi|Hi];
    [|congruence].
  rewrite (skipn_nth str [] i lines Hi) in Hall.
  inversion Hall as [|? ? Hb Hrest]; subst.
  rewrite (processLine_blank lines i initialState eq_refl Hb) in E.
  replace (Z.to_nat (Z.of_nat i + 1)) with (S i) in E by lia.
  exact (IH (S i) Hrest E).
Qed.

Lemma parseLoop_nonblank (fuel : nat) (lines : list str) (i : nat)
    (st' : ParseState) :
  Exists (fun l => isBlank l = false) (skipn i lines) ->
  parseLoop fuel lines i initialState = Some st' -> Active st'.
Proof.
  revert i. induction fuel as [|fuel IH]; intros i Hex E; [discriminate|].
  cbn [parseLoop] in E. destruct (Nat.ltb_spec i (length lines)) as [Hi|Hi].
  - rewrite (skipn_nth str [] i lines Hi) in Hex.
    destruct (isBlank (nth i lines [])) eqn:Hb.
    + rewrite (processLine_blank lines i initialState eq_refl Hb) in E.
      replace (Z.to_nat (Z.of_nat i + 1)) with (S i) in E by lia.
      apply (IH (S i)); [|exact E].
      inversion Hex as [? ? H|? ? H]; subst; [congruence|exact H].
    + pose proof (processLine_nonblank lines i initialState Hb) as Ha.
      destruct (processLine lines i initialState) as [st1 ni].
      eapply (parseLoop_invariant Active lines (Step_active lines));
        [exact Ha|exact E].
  - rewrite skipn_all2 in Hex by lia. inversion Hex.
Qed.

Lemma blank_or_not (ls : list str) :
  Forall (fun l => isBlank l = true) ls \/
  Exists (fun l => isBlank l = false) ls.
Proof.
  induction ls as [|l ls [IH|IH]]; [left; constructor| |right; constructor 2; exact IH].
  destruct (isBlank l) eqn:E; [left; constructor; assumption|].
  right. constructor. exact E.
Qed.

Lemma blank_not_both (ls : list str) :
  Forall (fun l => isBlank l = true) ls ->
  Exists (fun l => isBlank l = false) ls -> False.
Proof.
  intros Hall Hex. rewrite Forall_forall in Hall. rewrite Exists_exists in Hex.
  destruct Hex as (l & Hin & Hf). rewrite (Hall l Hin) in Hf. discriminate.
Qed.

(** C10.  [parseSlides] always returns, and it returns no slide exactly when
    every line of the text (after the line ends are normalised) is empty or
    white space only; a lone fence marker with no closing fence gives one
    slide. *)
Theorem no_slide_iff_blank :
  (forall rawText,
     exists result,
       parseSlides rawText = Some result /\
       (result = [] <->
        Forall (fun l => isBlank l = true) (splitLines rawText))) /\
  parseSlides Examples.loneFence =
    Some [ {| title := slideTitle 1; subtitle := None;
              blocks := [Code [] None]; notes := None; background := None |} ].
Proof.
  split; [|vm_compute; reflexivity].
  intro rawText. destruct (parseFinal_total rawText) as [final Ef].
  exists (slides final). unfold parseSlides. rewrite Ef.
  split; [reflexivity|].
  unfold parseFinal in Ef.
  destruct (parseLoop _ _ _ _) as [st|] eqn:El; [|discriminate].
  injection Ef as <-.
  destruct (blank_or_not (splitLines rawText)) as [Hall|Hex].
  - split; [intros _; exact Hall|intros _].
    rewrite (parseLoop_blank _ _ 0 st Hall El). reflexivity.
  - pose proof (parseLoop_nonblank _ _ 0 st Hex El) as Ha.
    apply Active_appendCodeBlock in Ha.
    split; [|intro Hall; destruct (blank_not_both _ Hall Hex)].
    intro H. exfalso. unfold finalizeCurrentSlide in H.
    destruct (current (appendCodeBlock st)) as [s|]; [|congruence].
    simpl in H. destruct (slides (appendCodeBlock st)); discriminate H.
Qed.

End Blank.

(** ** Worked examples *)

Module Worked.

Import Props Examples.

(** C8.  The text ["# Intro\n\nHello world\n\n# Two\n- a\n- b\n"] parses to
    two slides: "Intro" with the single paragraph "Hello world", and "Two"
    with a single bullet list of the items "a" and "b", both plain bullets
    at level 0, in that order. *)
Theorem parseSlides_twoSlides :
  Parser.parseSlides twoSlides =
    Some [ {| title := lit "Intro"; subtitle := None;
              blocks := [Paragraph (lit "Hello world")];
              notes := None; background := None |};
           {| title := lit "Two"; subtitle := None;
              blocks :=
                [Bullets [ {| text := lit "a"; bulletType := bullet;
                              indentLevel := 0 |};
                           {| text := lit "b"; bulletType := bullet;
                              indentLevel := 0 |} ]];
              notes := None; background := None |} ].
Proof. vm_compute. reflexivity. Qed.

(** C2 fails on the code.  The separator line ["| --- | --- |"] of a table
    of two columns consists of pipes, dashes and white space only, yet
    [isTableLine] accepts it and [parseSlides] keeps it as the second row of
    the table. *)
Theorem separator_row_kept :
  isSeparatorLine (lit "| --- | --- |") = true /\
  isTableLine (lit "| --- | --- |") = true /\
  Parser.parseSlides tableWithSeparator =
    Some [ {| title := lit "T"; subtitle := None;
              blocks :=
                [Table [ [lit "A"; lit "B"];
                         [lit "---"; lit "---"];
                         [lit "1"; lit "2"] ]];
              notes := None; background := None |} ].
Proof. repeat split; vm_compute; reflexivity. Qed.

End Worked.

(** ** The theorems at concrete inputs *)

Module Instances.

Import Props Examples.
Local Open Scope Q_scope.


Lemma paragraph_split_lossless_witness :
  Parser.parseSlides threeLineText = Some [threeLineSlide] /\
  paragraphFragments [roomForOne; roomForOne] threeLineText =
    [lit "a"; lines ["b"; "c"]%string] /\
  trim (join [LF] (paragraphFragments [roomForOne; roomForOne] threeLineText)) =
    trim threeLineText /\
  join [LF] (paragraphFragments [roomForOne; roomForOne] threeLineText) =
    threeLineText.
Proof.
  assert (E : Parser.parseSlides threeLineText = Some [threeLineSlide])
    by (vm_compute; reflexivity).
  split; [exact E|]. split; [vm_compute; reflexivity|].
  apply (ParserFacts.paragraph_split_lossless threeLineText [threeLineSlide]
           threeLineSlide threeLineText [roomForOne; roomForOne] E).
  - left. reflexivity.
  - left. reflexivity.
Defined.


Lemma slide_titles_witness :
  (Parser.parseSlides plainText = Some plainParsed /\
   Parser.parseOrigins plainText = Some [Implicit] /\
   forall s, nth_error plainParsed 0 = Some s -> title s = slideTitle 1) /\
  (Part000.parseSlides plainText = Part000.Returned plainParsedOld /\
   Part000.parseOrigins plainText = Part000.Returned [FromText (lit "Hello")] /\
   forall s, nth_error plainParsedOld 0 = Some s ->
             title s <> [] /\ title s = trim (lit "Hello")).
Proof.
  assert (E1 : Parser.parseSlides plainText = Some plainParsed)
    by (vm_compute; reflexivity).
  assert (E2 : Parser.parseOrigins plainText = Some [Implicit])
    by (vm_compute; reflexivity).
  assert (E3 : Part000.parseSlides plainText = Part000.Returned plainParsedOld)
    by (vm_compute; reflexivity).
  assert (E4 : Part000.parseOrigins plainText =
               Part000.Returned [FromText (lit "Hello")])
    by (vm_compute; reflexivity).
  destruct Titles.slide_titles as [P1 P2].
  split.
  - split; [exact E1|]. split; [exact E2|]. intros s Hs.
    destruct (P1 plainText plainParsed [Implicit] E1 E2) as [_ H].
    destruct (H 0%nat s Implicit Hs eq_refl) as (_ & _ & H3).
    apply H3. left. reflexivity.
  - split; [exact E3|]. split; [exact E4|]. intros s Hs.
    destruct (P2 plainText plainParsedOld [FromText (lit "Hello")] E3 E4)
      as [_ H].
    destruct (H 0%nat s (FromText (lit "Hello")) Hs eq_refl) as (H1 & _ & H3).
    split; [exact H1|]. apply (H3 (lit "Hello") eq_refl).
Defined.

(** C5, as the claim words it, fails in the older variant: the text
    ["Hello\nWorld"] has no heading, and the slide it yields is titled
    "Hello", not "Slide 1". *)
Lemma plain_text_titles_slide :
  Part000.parseSlides plainText = Part000.Returned plainParsedOld /\
  Part000.parseOrigins plainText = Part000.Returned [FromText (lit "Hello")] /\
  ~ (forall s, nth_error plainParsedOld 0 = Some s -> title s = slideTitle 1).
Proof.
  split; [vm_compute; reflexivity|]. split; [vm_compute; reflexivity|].
  intro H. specialize (H _ eq_refl). vm_compute in H. discriminate H.
Qed.

End Instances.

(** ** Pagination as a whole *)

Module PageFacts.

Import Render Props PageProps RenderFacts Pagination.
Local Open Scope Q_scope.

Lemma weight_pos (b : Block) : (1 <= weight b)%nat.
Proof. unfold weight. lia. Qed.

Lemma weight_split (b : Block) (dims : RenderDimensions) (nc : Q) (r : Block)
    (ds : list Draw) :
  renderBlock b dims = (Split nc r, ds) -> (weight r < weight b)%nat.
Proof.
  intro E.
  destruct (renderBlock_split _ _ _ _ _ E) as (_ & _ & _ & H1 & d & _ & H2 & H3).
  unfold weight. lia.
Qed.

Lemma queueWeight_cons (b : Block) (rest : list Block) :
  queueWeight (b :: rest) = (weight b + queueWeight rest)%nat.
Proof. reflexivity. Qed.

(** The inner loop returns once its fuel exceeds the weight of the queue.
    Either it consumed nothing and leaves queue and cursor as they were, or
    it consumed something and the queue weighs less. *)
Lemma placeLoop_returns (fuel : nat) (w sb : Q) (queue : list Block)
    (cursor : Q) (consumed : bool) (draws : list Draw) :
  (queueWeight queue < fuel)%nat ->
  exists p,
    placeLoop fuel w sb queue cursor consumed draws = Some p /\
    ((consumedAfter p = consumed /\ queueAfter p = queue /\
      cursorAfter p = cursor) \/
     (consumedAfter p = true /\
      (queueWeight (queueAfter p) < queueWeight queue)%nat)).
Proof.
  revert queue cursor consumed draws.
  induction fuel as [|fuel IH]; intros queue cursor consumed draws Hf; [lia|].
  destruct queue as [|b rest]; [eexists; split; [reflexivity|left; auto]|].
  cbn [placeLoop].
  destruct (renderBlock b (dimsAt w sb cursor)) as [res ds] eqn:E.
  pose proof (weight_pos b) as Hb.
  rewrite queueWeight_cons in *.
  assert (Hstep : forall nc queue',
            (queueWeight queue' < weight b + queueWeight rest)%nat ->
            exists p,
              (if Qle_bool (sb - BLOCK_GAP) (nc + BLOCK_GAP)
               then Some {| queueAfter := queue'; cursorAfter := nc + BLOCK_GAP;
                            consumedAfter := true; drawsAfter := draws ++ ds |}
               else placeLoop fuel w sb queue' (nc + BLOCK_GAP) true (draws ++ ds))
              = Some p /\
              consumedAfter p = true /\
              (queueWeight (queueAfter p) < weight b + queueWeight rest)%nat).
  { intros nc queue' Hq.
    destruct (Qle_bool (sb - BLOCK_GAP) (nc + BLOCK_GAP)).
    - eexists. split; [reflexivity|]. split; [reflexivity|exact Hq].
    - destruct (IH queue' (nc + BLOCK_GAP) true (draws ++ ds)) as (p & Ep & Hp);
        [lia|].
      exists p. split; [exact Ep|].
      destruct Hp as [(Hc & Hq' & _)|(Hc & Hq')].
      + rewrite Hq'. auto.
      + split; [exact Hc|lia]. }
  destruct res as [nc|nc r|].
  - destruct (Hstep nc rest) as (p & Ep & Hc & Hq); [lia|].
    exists p. split; [exact Ep|right; auto].
  - pose proof (weight_split _ _ _ _ _ E) as Hr.
    destruct (Hstep nc (r :: rest)) as (p & Ep & Hc & Hq);
      [rewrite queueWeight_cons; lia|].
    exists p. split; [exact Ep|right; auto].
  - eexists. split; [reflexivity|left; auto].
Qed.

(** The outer loop returns once its fuel exceeds the weight of the queue by
    two, with at most one page per unit of weight and one more. *)
Lemma pageLoop_returns (fuel : nat) (w sb : Q) (bg : option str)
    (spec : SlideSpec) (queue : list Block) (sequence : nat) (first : bool)
    (pages : list Page) :
  (queueWeight queue + 2 <= fuel)%nat ->
  exists result,
    pageLoop fuel w sb bg spec queue sequence first pages = Some result /\
    (length pages <= length result <= length pages + queueWeight queue + 1)%nat /\
    (first = true -> (length pages + 1 <= length result)%nat).
Proof.
  revert queue sequence first pages.
  induction fuel as [|fuel IH]; intros queue sequence first pages Hf; [lia|].
  cbn [pageLoop].
  destruct (negb (isEmptyList queue) || first) eqn:Eguard.
  2:{ exists pages. split; [reflexivity|].
      apply orb_false_iff in Eguard. destruct Eguard as [_ ->].
      split; [lia|discriminate]. }
  destruct (placeLoop_returns fuel w sb queue BODY_TOP false
              (pageHeader w spec sequence)) as (p & Ep & Hp); [lia|].
  rewrite Ep.
  assert (Hagain : forall q ds,
            (queueWeight q < queueWeight queue)%nat ->
            exists result,
              pageLoop fuel w sb bg spec q (sequence + 1) false
                (pages ++ [ {| pageBackground := pageBackgroundOf spec bg;
                               pageDraws := ds |} ]) = Some result /\
              (length pages <= length result
               <= length pages + queueWeight queue + 1)%nat /\
              (first = true -> (length pages + 1 <= length result)%nat)).
  { intros q ds Hq.
    destruct (IH q (sequence + 1)%nat false
                (pages ++ [ {| pageBackground := pageBackgroundOf spec bg;
                               pageDraws := ds |} ]))
      as (result & Er & Hl & _); [lia|].
    exists result. split; [exact Er|].
    rewrite length_app in Hl. simpl in Hl. lia. }
  assert (Hdone : forall ds,
            (length pages
             <= length (pages ++ [ {| pageBackground := pageBackgroundOf spec bg;
                                      pageDraws := ds |} ])
             <= length pages + queueWeight queue + 1)%nat /\
            (first = true ->
             (length pages + 1
              <= length (pages ++ [ {| pageBackground := pageBackgroundOf spec bg;
                                       pageDraws := ds |} ]))%nat)).
  { intro ds. rewrite length_app. simpl. lia. }
  destruct (queueAfter p) as [|b rest] eqn:Eq.
  { eexists. split; [reflexivity|apply Hdone]. }
  destruct Hp as [(Hc & Hq & Hcur)|(Hc & Hq)].
  - rewrite Hc, Hcur. cbn [negb].
    change (Qeq_bool BODY_TOP BODY_TOP) with true. cbn [negb].
    subst queue.
    destruct (renderBlock b (dimsAt w sb BODY_TOP)) as [res ds] eqn:E.
    pose proof (weight_pos b) as Hb.
    destruct res as [nc|nc r|].
    + apply Hagain. rewrite queueWeight_cons. lia.
    + apply Hagain. pose proof (weight_split _ _ _ _ _ E) as Hr.
      rewrite !queueWeight_cons. lia.
    + eexists. split; [reflexivity|apply Hdone].
  - rewrite Hc. cbn [negb]. apply Hagain. exact Hq.
Qed.





(** *** What is drawn *)

Lemma renderBlock_pieces (b : Block) (dims : RenderDimensions)
    (res : RenderResult) (ds : list Draw) :
  renderBlock b dims = (res, ds) ->
  match res with
  | Rendered _ => drawsPieces ds = blockPieces b
  | Split _ r => drawsPieces ds ++ blockPieces r = blockPieces b
  | Defer => ds = []
  end.
Proof.
  destruct b as [t|items|alt path sz|t language|rows]; cbn [renderBlock].
  - unfold renderParagraph. destruct (Qle_bool _ _); [|destruct (Qltb _ _)];
      intro E; injection E as <- <-; reflexivity.
  - destruct items as [|i rest]; [intro E; injection E as <- <-; reflexivity|].
    rewrite renderBullets_cons. cbv zeta.
    destruct (_ && _); [intro E; injection E as <- <-; reflexivity|].
    set (m := if Qle_bool _ _ then _ else _).
    destruct (m =? Z.of_nat (length (i :: rest)))%Z eqn:Em;
      intro E; injection E as <- <-.
    + apply Z.eqb_eq in Em. rewrite Em, Nat2Z.id, firstn_all.
      cbn [drawsPieces flat_map drawPieces blockPieces].
      rewrite app_nil_r. reflexivity.
    + cbn [drawsPieces flat_map drawPieces blockPieces].
      rewrite app_nil_r, <- map_app, firstn_skipn. reflexivity.
  - unfold renderImage. destruct (Qltb _ _); intro E; injection E as <- <-;
      reflexivity.
  - unfold renderCode. destruct (_ && _); [intro E; injection E as <- <-; reflexivity|].
    destruct (Qle_bool _ _); intro E; injection E as <- <-; reflexivity.
  - unfold renderTable. destruct (_ && _); intro E; injection E as <- <-;
      reflexivity.
Qed.

Lemma drawsPieces_app (a b : list Draw) :
  drawsPieces (a ++ b) = drawsPieces a ++ drawsPieces b.
Proof. apply flat_map_app. Qed.

(** The inner loop neither loses nor invents a piece. *)
Lemma placeLoop_pieces (fuel : nat) (w sb : Q) (queue : list Block)
    (cursor : Q) (consumed : bool) (draws : list Draw) (p : Placed) :
  placeLoop fuel w sb queue cursor consumed draws = Some p ->
  drawsPieces (drawsAfter p) ++ queuePieces (queueAfter p) =
    drawsPieces draws ++ queuePieces queue.
Proof.
  revert queue cursor consumed draws.
  induction fuel as [|fuel IH]; intros queue cursor consumed draws E;
    [discriminate|].
  destruct queue as [|b rest]; [injection E as <-; reflexivity|].
  cbn [placeLoop] in E.
  destruct (renderBlock b (dimsAt w sb cursor)) as [res ds] eqn:Er.
  pose proof (renderBlock_pieces _ _ _ _ Er) as Hp.
  assert (Hstep : forall nc queue',
            drawsPieces ds ++ queuePieces queue' = queuePieces (b :: rest) ->
            (if Qle_bool (sb - BLOCK_GAP) (nc + BLOCK_GAP)
             then Some {| queueAfter := queue'; cursorAfter := nc + BLOCK_GAP;
                          consumedAfter := true; drawsAfter := draws ++ ds |}
             else placeLoop fuel w sb queue' (nc + BLOCK_GAP) true (draws ++ ds))
            = Some p ->
            drawsPieces (drawsAfter p) ++ queuePieces (queueAfter p) =
              drawsPieces draws ++ queuePieces (b :: rest)).
  { intros nc queue' Hq E'.
    destruct (Qle_bool _ _).
    - injection E' as <-. cbn [drawsAfter queueAfter].
      rewrite drawsPieces_app, <- app_assoc, Hq. reflexivity.
    - rewrite (IH _ _ _ _ E'), drawsPieces_app, <- app_assoc, Hq. reflexivity. }
  destruct res as [nc|nc r|].
  - apply (Hstep nc rest); [|exact E].
    cbn [queuePieces flat_map]. rewrite Hp. reflexivity.
  - apply (Hstep nc (r :: rest)); [|exact E].
    cbn [queuePieces flat_map]. rewrite app_assoc, Hp. reflexivity.
  - injection E as <-. subst ds. cbn [drawsAfter queueAfter].
    rewrite app_nil_r. reflexivity.
Qed.

Lemma placeLoop_stays_consumed (fuel : nat) (w sb : Q) (queue : list Block)
    (cursor : Q) (draws : list Draw) (p : Placed) :
  placeLoop fuel w sb queue cursor true draws = Some p ->
  consumedAfter p = true.
Proof.
  revert queue cursor draws.
  induction fuel as [|fuel IH]; intros queue cursor draws E; [discriminate|].
  destruct queue as [|b rest]; [injection E as <-; reflexivity|].
  cbn [placeLoop] in E.
  destruct (renderBlock b (dimsAt w sb cursor)) as [[nc|nc r|] ds].
  - destruct (Qle_bool _ _); [injection E as <-; reflexivity|].
    exact (IH _ _ _ E).
  - destruct (Qle_bool _ _); [injection E as <-; reflexivity|].
    exact (IH _ _ _ E).
  - injection E as <-. reflexivity.
Qed.

(** A block that is not deferred is consumed. *)
Lemma placeLoop_consumes (fuel : nat) (w sb : Q) (b : Block)
    (rest : list Block) (cursor : Q) (consumed : bool) (draws : list Draw)
    (p : Placed) :
  fst (renderBlock b (dimsAt w sb cursor)) <> Defer ->
  placeLoop fuel w sb (b :: rest) cursor consumed draws = Some p ->
  consumedAfter p = true.
Proof.
  intros Hnd E. destruct fuel as [|fuel]; [discriminate|].
  cbn [placeLoop] in E.
  destruct (renderBlock b (dimsAt w sb cursor)) as [[nc|nc r|] ds];
    [| |exfalso; apply Hnd; reflexivity].
  - destruct (Qle_bool _ _); [injection E as <-; reflexivity|].
    exact (placeLoop_stays_consumed _ _ _ _ _ _ _ E).
  - destruct (Qle_bool _ _); [injection E as <-; reflexivity|].
    exact (placeLoop_stays_consumed _ _ _ _ _ _ _ E).
Qed.

Lemma drawsPieces_header (w : Q) (spec : SlideSpec) (n : nat) :
  drawsPieces (pageHeader w spec n) = [].
Proof.
  unfold pageHeader. destruct (truthy (subtitle spec)); reflexivity.
Qed.

Lemma drawsPieces_notes (spec : SlideSpec) (first : bool) :
  drawsPieces (pageNotes spec first) = [].
Proof.
  unfold pageNotes. destruct first; [|reflexivity].
  destruct (truthy (notes spec)); reflexivity.
Qed.

Lemma pagesPieces_snoc (pages : list Page) (page : Page) :
  pagesPieces (pages ++ [page]) =
    pagesPieces pages ++ drawsPieces (pageDraws page).
Proof.
  unfold pagesPieces. rewrite flat_map_app, drawsPieces_app.
  cbn [flat_map]. rewrite app_nil_r. reflexivity.
Qed.

Lemma pageLoop_pieces (fuel : nat) (w sb : Q) (bg : option str)
    (spec : SlideSpec) (queue : list Block) (sequence : nat) (first : bool)
    (pages result : list Page) :
  MIN_BLOCK_HEIGHT <= sb - BODY_TOP ->
  pageLoop fuel w sb bg spec queue sequence first pages = Some result ->
  pagesPieces result = pagesPieces pages ++ queuePieces queue.
Proof.
  intro Hroom. revert queue sequence first pages.
  induction fuel as [|fuel IH]; intros queue sequence first pages E;
    [discriminate|].
  cbn [pageLoop] in E.
  destruct (negb (isEmptyList queue) || first) eqn:Eguard.
  2:{ injection E as <-. apply orb_false_iff in Eguard.
      destruct Eguard as [Hq _]. destruct queue; [|discriminate].
      rewrite app_nil_r. reflexivity. }
  destruct (placeLoop fuel w sb queue BODY_TOP false (pageHeader w spec sequence))
    as [p|] eqn:Ep; [|discriminate].
  pose proof (placeLoop_pieces _ _ _ _ _ _ _ _ Ep) as Hp.
  rewrite drawsPieces_header in Hp. cbn [app] in Hp.
  assert (Hpage : forall ds,
            drawsPieces ds = [] ->
            pagesPieces (pages ++ [ {| pageBackground := pageBackgroundOf spec bg;
                                       pageDraws :=
                                         (drawsAfter p ++ pageNotes spec first)
                                           ++ ds |} ])
            ++ queuePieces (queueAfter p) = pagesPieces pages ++ queuePieces queue).
  { intros ds Hds. rewrite pagesPieces_snoc. cbn [pageDraws].
    rewrite !drawsPieces_app, drawsPieces_notes, Hds, !app_nil_r.
    rewrite <- app_assoc, Hp. reflexivity. }
  destruct (queueAfter p) as [|b rest] eqn:Eq.
  { injection E as <-. specialize (Hpage [] eq_refl).
    rewrite !app_nil_r in Hpage. exact Hpage. }
  assert (Hc : consumedAfter p = true).
  { destruct queue as [|b0 rest0].
    - destruct fuel; [discriminate|]. injection Ep as <-. discriminate Eq.
    - apply (placeLoop_consumes _ _ _ _ _ _ _ _ _
               (renderBlock_no_defer b0 (dimsAt w sb BODY_TOP) Hroom) Ep). }
  rewrite Hc in E. cbn [negb] in E.
  rewrite (IH _ _ _ _ E). specialize (Hpage [] eq_refl).
  rewrite !app_nil_r in Hpage. exact Hpage.
Qed.

(** On pages whose body offers the minimum block height nothing is dropped:
    the bullet items, the tables and the images of a slide specification are
    drawn, each once, in the order of the specification. *)
Lemma renderSpec_draws_all (fuel : nat) (safeWidth safeBottom : Q)
    (defaultBackground : option str) (spec : SlideSpec) :
  MIN_BLOCK_HEIGHT <= safeBottom - BODY_TOP ->
  (queueWeight (blocks spec) + 2 <= fuel)%nat ->
  exists pages,
    renderSpec fuel safeWidth safeBottom defaultBackground spec = Some pages /\
    pagesPieces pages = queuePieces (blocks spec).
Proof.
  intros Hroom Hf. unfold renderSpec.
  destruct (pageLoop_returns fuel safeWidth safeBottom defaultBackground spec
              (blocks spec) 0 true [] Hf) as (pages & E & _).
  exists pages. split; [exact E|].
  exact (pageLoop_pieces _ _ _ _ _ _ _ _ _ _ Hroom E).
Qed.

(** *** Titles, notes and background of the pages *)








(** *** Where a block is drawn *)







(** *** Pages without room, and whole decks *)

Lemma tiny_flags (a needed : Q) :
  a < MIN_BLOCK_HEIGHT ->
  Qltb a MIN_BLOCK_HEIGHT = true /\
  Qltb a (Qmax needed MIN_BLOCK_HEIGHT) = true /\
  Qle_bool (Qmax needed MIN_BLOCK_HEIGHT) a = false.
Proof.
  intro Ha. pose proof (Q.le_max_r needed MIN_BLOCK_HEIGHT) as Hm.
  split; [apply Qltb_true; exact Ha|].
  split; [apply Qltb_true|apply Qle_bool_false]; lra.
Qed.

Lemma text_blocks_deferred (b : Block) (dims : RenderDimensions) :
  availableHeight dims < MIN_BLOCK_HEIGHT ->
  isUnsplittable b = false -> isEmptyBullets b = false ->
  renderBlock b dims = (Defer, []) /\ Part000.renderBlock b dims = (Defer, []).
Proof.
  intros Ha Hu He.
  destruct b as [t|items|alt path sz|t language|rows]; try discriminate;
    cbn [renderBlock Part000.renderBlock].
  - unfold renderParagraph.
    destruct (tiny_flags (availableHeight dims)
                (ofNat (length (split LF t)) * LINE_HEIGHT) Ha) as (E1 & _ & E3).
    rewrite E3, E1. split; reflexivity.
  - destruct items as [|i rest]; [discriminate|].
    rewrite renderBullets_cons. cbv zeta.
    destruct (tiny_flags (availableHeight dims)
                (ofNat (length (i :: rest)) * BULLET_LINE_HEIGHT) Ha)
      as (E1 & E2 & _).
    rewrite E2, E1. split; reflexivity.
  - unfold renderCode.
    destruct (tiny_flags (availableHeight dims)
                (ofNat (length (split LF t)) * CODE_LINE_HEIGHT + 0.2) Ha)
      as (E1 & E2 & _).
    rewrite E2, E1. split; reflexivity.
Qed.

Lemma tiny_deferred (b : Block) (dims : RenderDimensions) :
  availableHeight dims < MIN_BLOCK_HEIGHT -> isEmptyBullets b = false ->
  renderBlock b dims = (Defer, []) /\ Part000.renderBlock b dims = (Defer, []).
Proof.
  intros Ha He. destruct (isUnsplittable b) eqn:Hu.
  - split; [apply unsplittable_deferred|apply unsplittable_deferred_old];
      assumption.
  - apply text_blocks_deferred; assumption.
Qed.


(** X8.  In the older variant the deferred forced attempt leaves the queue as it
    is and the loop goes round again: on such a page the pagination of a
    slide whose first block is not an empty bullet list never returns,
    whatever the number of steps it is given. *)
Theorem renderSpec_old_never_returns (fuel : nat) (safeWidth safeBottom : Q)
    (defaultBackground : option str) (spec : SlideSpec) (b : Block)
    (rest : list Block) :
  safeBottom - BODY_TOP < MIN_BLOCK_HEIGHT ->
  blocks spec = b :: rest -> isEmptyBullets b = false ->
  Part000.renderSpec fuel safeWidth safeBottom defaultBackground spec = None.
Proof.
  intros Ha Hq He.
  destruct (tiny_deferred b (dimsAt safeWidth safeBottom BODY_TOP) Ha He)
    as [_ E].
  unfold Part000.renderSpec. rewrite Hq.
  generalize 0%nat as part, true as first, (@nil Page) as pages.
  induction fuel as [|fuel IH]; intros part first pages; [reflexivity|].
  cbn [Part000.pageLoop isEmptyList negb orb].
  destruct fuel as [|n]; [reflexivity|].
  erewrite placeLoop_deferred_old by exact E.
  cbn [queueAfter drawsAfter consumedAfter cursorAfter negb].
  change (Qeq_bool BODY_TOP BODY_TOP) with true. cbn [negb].
  rewrite E. cbn [isEmptyList]. apply IH.
Qed.



(** *** The safe area *)








End PageFacts.

(** ** The pagination theorems at work *)

Module PageInstances.

Import Render Props PageProps Examples.
Local Open Scope Q_scope.







Lemma renderSpec_old_never_returns_witness :
  2 - BODY_TOP < MIN_BLOCK_HEIGHT /\
  Part000.renderSpec 1000 8.8 2 None longSlide = None.
Proof.
  assert (A : 2 - BODY_TOP < MIN_BLOCK_HEIGHT)
    by (unfold MIN_BLOCK_HEIGHT, BODY_TOP; lra).
  split; [exact A|].
  apply (PageFacts.renderSpec_old_never_returns 1000 8.8 2 None longSlide
           (Bullets fiftyItems) (tl (blocks longSlide)) A);
    reflexivity.
Defined.


End PageInstances.

(** ** Lines and line ends *)

Module TextFacts.

Import Props StrFacts TextProps Parser ParserFacts.
Local Open Scope nat_scope.


Lemma isLine_occ (l : str) :
  isLine l = true -> occ LF l = 0 /\ occ CR l = 0.
Proof.
  unfold isLine, occ. induction l as [|c l IH]; [split; reflexivity|].
  cbn [forallb]. intro H. apply andb_true_iff in H. destruct H as [Hc Hl].
  destruct (IH Hl) as [H1 H2]. unfold isDot in Hc.
  apply negb_true_iff, orb_false_iff in Hc. destruct Hc as [N1 N2].
  apply Ascii.eqb_neq in N1, N2.
  cbn [count_occ].
  destruct (ascii_dec c LF) as [E|_]; [congruence|].
  destruct (ascii_dec c CR) as [E|_]; [congruence|].
  split; assumption.
Qed.

Lemma normalizeNewlines_app (l rest : str) :
  occ CR l = 0 ->
  normalizeNewlines (l ++ rest) = l ++ normalizeNewlines rest.
Proof.
  unfold occ. induction l as [|c l IH]; [reflexivity|].
  cbn [count_occ]. destruct (ascii_dec c CR) as [E|N]; [discriminate|].
  intro H. cbn [app normalizeNewlines].
  destruct (Ascii.eqb c CR) eqn:Ec; [apply Ascii.eqb_eq in Ec; congruence|].
  rewrite (IH H). reflexivity.
Qed.

Lemma normalizeNewlines_line (x : str) :
  isLine x = true -> normalizeNewlines x = x.
Proof.
  intro H. rewrite <- (app_nil_r x) at 1.
  rewrite normalizeNewlines_app by exact (proj2 (isLine_occ x H)).
  apply app_nil_r.
Qed.

Lemma normalizeNewlines_CR (t : str) :
  startsLF t = false ->
  normalizeNewlines (CR :: t) = LF :: normalizeNewlines t.
Proof.
  destruct t as [|d t]; [reflexivity|]. cbn [startsLF]. intro H.
  cbn [normalizeNewlines]. change (Ascii.eqb CR CR) with true. cbv iota.
  rewrite H. reflexivity.
Qed.

Lemma startsLF_line_app (x rest : str) :
  isLine x = true -> startsLF rest = false -> startsLF (x ++ rest) = false.
Proof.
  intros Hx Hr. destruct x as [|c x]; [exact Hr|].
  cbn [app startsLF]. unfold isLine in Hx. cbn [forallb] in Hx.
  apply andb_true_iff in Hx. destruct Hx as [Hd _]. unfold isDot in Hd.
  apply negb_true_iff, orb_false_iff in Hd. exact (proj1 Hd).
Qed.

Lemma startsLF_joinCR (ls : list str) :
  Forall (fun l => isLine l = true) ls -> startsLF (join [CR] ls) = false.
Proof.
  intro H. destruct ls as [|x ls]; [reflexivity|].
  inversion H as [|? ? Hx _]; subst.
  destruct ls as [|y ls].
  - cbn [join]. rewrite <- (app_nil_r x).
    apply startsLF_line_app; [exact Hx|reflexivity].
  - rewrite join_cons2. apply startsLF_line_app; [exact Hx|reflexivity].
Qed.

Lemma normalizeNewlines_joinLF (ls : list str) :
  Forall (fun l => isLine l = true) ls ->
  normalizeNewlines (join [LF] ls) = join [LF] ls.
Proof.
  induction ls as [|x ls IH]; intro H; [reflexivity|].
  inversion H as [|? ? Hx Hls]; subst.
  destruct ls as [|y ls]; [exact (normalizeNewlines_line x Hx)|].
  rewrite !join_cons2.
  rewrite normalizeNewlines_app by exact (proj2 (isLine_occ x Hx)).
  cbn [app normalizeNewlines]. change (Ascii.eqb LF CR) with false. cbv iota.
  rewrite (IH Hls). reflexivity.
Qed.

Lemma normalizeNewlines_joinCRLF (ls : list str) :
  Forall (fun l => isLine l = true) ls ->
  normalizeNewlines (join CRLF ls) = join [LF] ls.
Proof.
  induction ls as [|x ls IH]; intro H; [reflexivity|].
  inversion H as [|? ? Hx Hls]; subst.
  destruct ls as [|y ls]; [exact (normalizeNewlines_line x Hx)|].
  rewrite !join_cons2.
  rewrite normalizeNewlines_app by exact (proj2 (isLine_occ x Hx)).
  unfold CRLF at 1. cbn [app normalizeNewlines].
  change (Ascii.eqb CR CR) with true. change (Ascii.eqb LF LF) with true.
  cbv iota. rewrite (IH Hls). reflexivity.
Qed.

Lemma normalizeNewlines_joinCR (ls : list str) :
  Forall (fun l => isLine l = true) ls ->
  normalizeNewlines (join [CR] ls) = join [LF] ls.
Proof.
  induction ls as [|x ls IH]; intro H; [reflexivity|].
  inversion H as [|? ? Hx Hls]; subst.
  destruct ls as [|y ls]; [exact (normalizeNewlines_line x Hx)|].
  rewrite !join_cons2.
  rewrite normalizeNewlines_app by exact (proj2 (isLine_occ x Hx)).
  cbn [app]. rewrite normalizeNewlines_CR by (apply startsLF_joinCR; exact Hls).
  rewrite (IH Hls). reflexivity.
Qed.

Lemma splitLines_joinLF (ls : list str) :
  ls <> [] -> Forall (fun l => isLine l = true) ls ->
  splitLines (join [LF] ls) = ls.
Proof.
  intros Hne H. unfold splitLines.
  rewrite normalizeNewlines_joinLF by exact H.
  apply split_join; [exact Hne|].
  apply Forall_forall. intros l Hl. rewrite Forall_forall in H.
  exact (proj1 (isLine_occ l (H l Hl))).
Qed.

(** X10.  The line ends of Unix, Windows and old Mac files are the same to
    [parseSlides]: lines joined with LF, with CR LF or with CR are split
    back into the same lines, and the slides are the same. *)
Theorem line_ends_agree (ls : list str) :
  ls <> [] -> Forall (fun l => isLine l = true) ls ->
  (splitLines (join [LF] ls) = ls /\
   splitLines (join CRLF ls) = ls /\
   splitLines (join [CR] ls) = ls) /\
  parseSlides (join CRLF ls) = parseSlides (join [LF] ls) /\
  parseSlides (join [CR] ls) = parseSlides (join [LF] ls).
Proof.
  intros Hne H.
  pose proof (splitLines_joinLF ls Hne H) as E0.
  assert (E1 : splitLines (join CRLF ls) = ls).
  { unfold splitLines. rewrite normalizeNewlines_joinCRLF by exact H.
    unfold splitLines in E0. rewrite normalizeNewlines_joinLF in E0 by exact H.
    exact E0. }
  assert (E2 : splitLines (join [CR] ls) = ls).
  { unfold splitLines. rewrite normalizeNewlines_joinCR by exact H.
    unfold splitLines in E0. rewrite normalizeNewlines_joinLF in E0 by exact H.
    exact E0. }
  split; [repeat split; assumption|].
  unfold parseSlides, parseFinal. rewrite E0, E1, E2. split; reflexivity.
Qed.

Lemma normalizeNewlines_no_CR (s : str) : occ CR (normalizeNewlines s) = 0.
Proof.
  assert (G : forall n s, length s <= n -> occ CR (normalizeNewlines s) = 0).
  { induction n as [|n IH]; intros t Hn.
    - destruct t; [reflexivity|simpl in Hn; lia].
    - destruct t as [|c t]; [reflexivity|]. cbn [length] in Hn.
      cbn [normalizeNewlines].
      destruct (Ascii.eqb c CR) eqn:Ec.
      + destruct t as [|d t]; [reflexivity|].
        cbn [length] in Hn.
        destruct (Ascii.eqb d LF); unfold occ; cbn [count_occ];
          (destruct (ascii_dec LF CR) as [E|_]; [discriminate E|]);
          apply IH; cbn [length]; lia.
      + unfold occ. cbn [count_occ].
        destruct (ascii_dec c CR) as [E|_];
          [apply Ascii.eqb_neq in Ec; congruence|].
        apply IH. lia. }
  exact (G (length s) s (Nat.le_refl _)).
Qed.

(** X11.  The lines [parseSlides] works on hold no line terminator, whatever the
    text. *)
Theorem splitLines_lines (rawText : str) :
  Forall (fun l => isLine l = true) (splitLines rawText).
Proof.
  unfold splitLines.
  pose proof (split_pieces LF (normalizeNewlines rawText)) as Hlf.
  assert (Hcr : Forall (fun l => occ CR l = 0)
                  (split LF (normalizeNewlines rawText))).
  { pose proof (normalizeNewlines_no_CR rawText) as H.
    revert H. generalize (normalizeNewlines rawText) as s.
    induction s as [|a s IH]; intro H; [repeat constructor|].
    unfold occ in H. cbn [count_occ] in H.
    destruct (ascii_dec a CR) as [E|N]; [discriminate|].
    specialize (IH H). cbn [split].
    destruct (Ascii.eqb a LF); [constructor; [reflexivity|exact IH]|].
    destruct (split LF s) as [|w ws]; [repeat constructor|].
    - unfold occ. cbn [count_occ]. destruct (ascii_dec a CR); [congruence|reflexivity].
    - inversion IH as [|? ? Hw Hws]; subst. constructor; [|exact Hws].
      unfold occ. cbn [count_occ]. destruct (ascii_dec a CR); [congruence|exact Hw]. }
  apply Forall_forall. intros l Hl.
  rewrite Forall_forall in Hlf, Hcr.
  specialize (Hlf l Hl). specialize (Hcr l Hl).
  unfold isLine. apply forallb_forall. intros c Hc.
  unfold isDot. apply negb_true_iff, orb_false_iff.
  split; apply Ascii.eqb_neq; intros ->.
  - unfold occ in Hlf. apply (count_occ_not_In ascii_dec) in Hlf. exact (Hlf Hc).
  - unfold occ in Hcr. apply (count_occ_not_In ascii_dec) in Hcr. exact (Hcr Hc).
Qed.

End TextFacts.

(** ** Code fences *)

Module FenceFacts.

Import Props StrFacts FenceProps.
Local Open Scope nat_scope.


(** X9.  The parser of [txt2ppt.ts] returns for every text: each turn of its
    loop moves on by at least one line, so the loop ends, and nothing in it
    throws. *)
Theorem parseSlides_returns (rawText : str) :
  exists result, Parser.parseSlides rawText = Some result.
Proof.
  unfold Parser.parseSlides.
  destruct (ParserFacts.parseFinal_total rawText) as [st E].
  rewrite E. eexists. reflexivity.
Qed.

Lemma trimEnd_blank (l : str) : isBlank l = true -> trimEnd l = [].
Proof.
  intro H. unfold trimEnd, isBlank in *.
  rewrite dropWhile_all; [reflexivity|].
  rewrite forallb_rev. exact H.
Qed.

(** With a fence open and no slide, the older parser throws at the closing
    fence; until then it stays as it is. *)
Lemma old_fence_loop (lines : list str) (fuel i : nat)
    (st : Part000.ParseState) :
  fenceWithoutSlide st -> length lines - i < fuel ->
  match Part000.parseLoop fuel lines i st with
  | Part000.Returned st' => fenceWithoutSlide st'
  | Part000.Threw => True
  | Part000.OutOfFuel => False
  end.
Proof.
  revert i st. induction fuel as [|fuel IH]; intros i st [Hc Hs] Hf; [lia|].
  cbn [Part000.parseLoop].
  destruct (Nat.ltb_spec i (length lines)) as [Hi|Hi]; [|split; assumption].
  unfold Part000.processLine.
  destruct (Part000.codeState st) as [[language codeLines]|] eqn:Ecs;
    [|congruence].
  destruct (CODE_FENCE_test _).
  - unfold Part000.pushCode, Part000.needCurrent. rewrite Hc.
    cbn [Part000.ensureSlide Part000.codeState]. exact I.
  - replace (Z.to_nat (Z.of_nat i + 1)) with (S i) by lia.
    apply IH; [|lia]. split; [exact Hc|discriminate].
Qed.

Lemma old_blank_prefix (pre rest : list str) (l : str) (k : nat) :
  Forall (fun x => isBlank x = true) pre ->
  CODE_FENCE_test (trimEnd l) = true ->
  forall i fuel,
    i + k = length pre -> length (pre ++ l :: rest) - i < fuel ->
    match Part000.parseLoop fuel (pre ++ l :: rest) i Part000.initialState with
    | Part000.Returned st' => fenceWithoutSlide st'
    | Part000.Threw => True
    | Part000.OutOfFuel => False
    end.
Proof.
  intros Hpre Hl. induction k as [|k IH]; intros i fuel Hi Hf.
  - destruct fuel as [|fuel]; [lia|]. cbn [Part000.parseLoop].
    rewrite length_app in *. cbn [length] in *.
    destruct (Nat.ltb_spec i (length pre + S (length rest))) as [_|]; [|lia].
    unfold Part000.processLine. cbn [Part000.codeState Part000.initialState].
    assert (En : nth i (pre ++ l :: rest) [] = l).
    { replace i with (length pre) by lia. apply nth_middle. }
    rewrite En, Hl.
    replace (Z.to_nat (Z.of_nat i + 1)) with (S i) by lia.
    pose proof (old_fence_loop (pre ++ l :: rest) fuel (S i)) as H.
    rewrite length_app in H. cbn [length] in H.
    apply H; [|lia]. split; [reflexivity|discriminate].
  - destruct fuel as [|fuel]; [lia|]. cbn [Part000.parseLoop].
    destruct (Nat.ltb_spec i (length (pre ++ l :: rest))) as [_|Hge];
      [|rewrite length_app in Hge; cbn [length] in Hge; lia].
    unfold Part000.processLine. cbn [Part000.codeState Part000.initialState].
    rewrite app_nth1 by (unfold str in *; lia).
    assert (Hb : isBlank (nth i pre []) = true).
    { rewrite Forall_forall in Hpre. apply Hpre. apply nth_In. lia. }
    rewrite (trimEnd_blank _ Hb).
    change (CODE_FENCE_test []) with false. cbv iota.
    change (isEmpty (trim [])) with true. cbv iota.
    replace (Z.to_nat (Z.of_nat i + 1)) with (S i) by lia.
    apply IH; [lia|]. rewrite length_app in *. cbn [length] in *. lia.
Qed.

(** The older variant crashes on a text that begins with a code fence
    (after blank lines, if any): the fence is opened with no slide, and
    closing it, at the closing fence or at the end of the text, opens the
    slide and thereby drops the fence it is about to read.  [txt2ppt.ts]
    returns slides for the same text. *)
Lemma old_parser_throws_on_leading_fence (rawText : str)
    (pre rest : list str) (l : str) :
  Parser.splitLines rawText = pre ++ l :: rest ->
  Forall (fun x => isBlank x = true) pre ->
  CODE_FENCE_test (trimEnd l) = true ->
  Part000.parseSlides rawText = Part000.Threw /\
  exists result, Parser.parseSlides rawText = Some result.
Proof.
  intros E Hpre Hl. split.
  2:{ unfold Parser.parseSlides.
      destruct (ParserFacts.parseFinal_total rawText) as [st Ef].
      rewrite Ef. eexists. reflexivity. }
  unfold Part000.parseSlides, Part000.parseFinal. rewrite E.
  pose proof (old_blank_prefix pre rest l (length pre) Hpre Hl 0
                (S (length (pre ++ l :: rest))) eq_refl) as H.
  destruct (Part000.parseLoop _ _ 0 Part000.initialState) as [st'| |].
  - destruct H as [Hc Hs]; [lia|].
    unfold Part000.finish.
    destruct (Part000.codeState st') as [c|] eqn:Ec; [|congruence].
    unfold Part000.pushCode, Part000.needCurrent. rewrite Hc.
    cbn [Part000.ensureSlide Part000.codeState]. reflexivity.
  - reflexivity.
  - exfalso. apply H. lia.
Qed.

End FenceFacts.

Module OldParserFacts.

Import Props StrFacts FenceProps FenceFacts OldParserProps.
Local Open Scope nat_scope.

Lemma leadingFence_split (ls : list str) :
  leadingFence ls = true ->
  exists pre l rest,
    ls = pre ++ l :: rest /\ Forall (fun x => isBlank x = true) pre /\
    CODE_FENCE_test (trimEnd l) = true.
Proof.
  induction ls as [|l ls IH]; [discriminate|]. cbn [leadingFence].
  destruct (isBlank l) eqn:Eb.
  - intro H. destruct (IH H) as (pre & l' & rest & -> & Hpre & Hl).
    exists (l :: pre), l', rest. split; [reflexivity|].
    split; [constructor; assumption|exact Hl].
  - intro H. exists [], l, ls. split; [reflexivity|]. split; [constructor|exact H].
Qed.

Lemma current_updateCurrent_old (f : SlideSpec -> SlideSpec)
    (st : Part000.ParseState) :
  Part000.current st <> None ->
  Part000.current (Part000.updateCurrent f st) <> None.
Proof.
  unfold Part000.updateCurrent. destruct (Part000.current st); [discriminate|congruence].
Qed.

Lemma current_needCurrent_old (st : Part000.ParseState) :
  Part000.current (Part000.needCurrent st) <> None.
Proof.
  unfold Part000.needCurrent.
  destruct (Part000.current st) eqn:E; [congruence|discriminate].
Qed.

Lemma needCurrent_open (st : Part000.ParseState) :
  Part000.current st <> None -> Part000.needCurrent st = st.
Proof.
  unfold Part000.needCurrent. destruct (Part000.current st); [reflexivity|congruence].
Qed.

Lemma pushCode_open (st : Part000.ParseState) :
  Part000.current st <> None -> Part000.codeState st <> None ->
  exists st', Part000.pushCode st = Some st' /\ Part000.current st' <> None.
Proof.
  intros Hc Hs. unfold Part000.pushCode. rewrite (needCurrent_open st Hc).
  destruct (Part000.codeState st) as [[language ls]|]; [|congruence].
  eexists. split; [reflexivity|]. apply current_updateCurrent_old. exact Hc.
Qed.

(** A line that is neither blank nor a fence opens a slide, or finds one
    open; and with a slide open nothing throws. *)
Lemma processLine_opens (lines : list str) (i : nat)
    (st : Part000.ParseState) :
  i < length lines ->
  Part000.current st <> None \/
    (Part000.codeState st = None /\ isBlank (nth i lines []) = false /\
     CODE_FENCE_test (trimEnd (nth i lines [])) = false) ->
  exists st' i',
    Part000.processLine lines i st = Some (st', i') /\
    Part000.current st' <> None /\ (Z.of_nat i <= i')%Z.
Proof.
  intros Hi H. unfold Part000.processLine.
  set (rawLine := nth i lines []) in *.
  destruct (Part000.codeState st) as [[language codeLines]|] eqn:Ecs.
  { destruct H as [Hc|(Hn & _)]; [|discriminate].
    destruct (CODE_FENCE_test _).
    - destruct (pushCode_open st Hc) as (st' & E & Hc'); [congruence|].
      rewrite E. eexists _, _. split; [reflexivity|]. split; [exact Hc'|lia].
    - eexists _, _. split; [reflexivity|]. split; [exact Hc|lia]. }
  assert (Hcur : Part000.current st <> None \/
                 (isBlank rawLine = false /\
                  CODE_FENCE_test (trimEnd rawLine) = false))
    by (destruct H as [Hc|(_ & Hb & Hf)]; [left; exact Hc|right; split; assumption]).
  clear H.
  destruct (CODE_FENCE_test (trimEnd rawLine)) eqn:Ef.
  { destruct Hcur as [Hc|[_ Hf]]; [|discriminate].
    eexists _, _. split; [reflexivity|]. split; [exact Hc|lia]. }
  destruct (isEmpty (trim (trimEnd rawLine))) eqn:Eb.
  { rewrite blank_test in Eb. fold (isBlank rawLine) in Eb.
    destruct Hcur as [Hc|[Hb _]]; [|congruence].
    eexists _, _. split; [reflexivity|]. split; [exact Hc|lia]. }
  destruct (HEADING_test _).
  { eexists _, _. split; [reflexivity|]. split; [discriminate|lia]. }
  destruct (SUBTITLE_test _).
  { eexists _, _. split; [reflexivity|].
    split; [apply current_updateCurrent_old, current_needCurrent_old|lia]. }
  destruct (NOTE_test _).
  { eexists _, _. split; [reflexivity|].
    split; [apply current_updateCurrent_old, current_needCurrent_old|lia]. }
  destruct (BACKGROUND_test _).
  { eexists _, _. split; [reflexivity|]. split; [|lia].
    unfold Part000.setBackground. destruct (negb _).
    - apply current_updateCurrent_old, current_needCurrent_old.
    - apply current_needCurrent_old. }
  destruct (IMAGE_match rawLine).
  { eexists _, _. split; [reflexivity|].
    split; [apply current_updateCurrent_old, current_needCurrent_old|lia]. }
  destruct (isTableLine _).
  { eexists _, _. split; [reflexivity|].
    split; [apply current_updateCurrent_old, current_needCurrent_old|lia]. }
  destruct (BULLET_match rawLine) as [m|] eqn:Em.
  { rewrite (ParserFacts.skipn_nth str [] i lines Hi). fold rawLine.
    cbn [Parser.collectBulletsFrom]. rewrite Em.
    destruct (Parser.collectBulletsFrom (skipn (S i) lines)) as [items k].
    eexists _, _. split; [reflexivity|].
    split; [apply current_updateCurrent_old, current_needCurrent_old|lia]. }
  destruct (Part000.current st) eqn:Ec.
  - eexists _, _. split; [reflexivity|]. split; [|lia].
    apply current_updateCurrent_old, current_needCurrent_old.
  - eexists _, _. split; [reflexivity|]. split; [discriminate|lia].
Qed.

Lemma old_open_loop (lines : list str) (fuel i : nat)
    (st : Part000.ParseState) :
  Part000.current st <> None -> length lines - i < fuel ->
  exists st',
    Part000.parseLoop fuel lines i st = Part000.Returned st' /\
    Part000.current st' <> None.
Proof.
  revert i st. induction fuel as [|fuel IH]; intros i st Hc Hf; [lia|].
  cbn [Part000.parseLoop].
  destruct (Nat.ltb_spec i (length lines)) as [Hi|Hi]; [|eauto].
  destruct (processLine_opens lines i st Hi (or_introl Hc))
    as (st1 & i1 & E & Hc1 & Hadv).
  rewrite E. apply IH; [exact Hc1|lia].
Qed.

Lemma finish_open (st : Part000.ParseState) :
  Part000.current st <> None ->
  exists st', Part000.finish st = Part000.Returned st'.
Proof.
  intro Hc. unfold Part000.finish.
  destruct (Part000.codeState st) eqn:Ecs; [|eauto].
  destruct (pushCode_open st Hc) as (st' & E & _); [congruence|].
  rewrite E. eauto.
Qed.

Lemma old_blank_loop (lines : list str) (k : nat) :
  forall i fuel,
    length lines - i <= k -> length lines - i < fuel ->
    leadingFence (skipn i lines) = false ->
    exists st',
      Part000.parseLoop fuel lines i Part000.initialState =
        Part000.Returned st' /\
      (st' = Part000.initialState \/ Part000.current st' <> None).
Proof.
  induction k as [|k IH]; intros i fuel Hk Hf Hl.
  - destruct fuel as [|fuel]; [lia|]. cbn [Part000.parseLoop].
    destruct (Nat.ltb_spec i (length lines)) as [Hi|Hi]; [lia|eauto].
  - destruct fuel as [|fuel]; [lia|]. cbn [Part000.parseLoop].
    destruct (Nat.ltb_spec i (length lines)) as [Hi|Hi]; [|eauto].
    rewrite (ParserFacts.skipn_nth str [] i lines Hi) in Hl.
    cbn [leadingFence] in Hl.
    destruct (isBlank (nth i lines [])) eqn:Eb.
    + unfold Part000.processLine. cbn [Part000.codeState Part000.initialState].
      rewrite (trimEnd_blank _ Eb).
      change (CODE_FENCE_test []) with false. cbv iota.
      change (isEmpty (trim [])) with true. cbv iota.
      replace (Z.to_nat (Z.of_nat i + 1)) with (S i) by lia.
      apply IH; [lia|lia|exact Hl].
    + destruct (processLine_opens lines i Part000.initialState Hi)
        as (st1 & i1 & E & Hc1 & Hadv).
      { right. split; [reflexivity|]. split; [exact Eb|exact Hl]. }
      rewrite E.
      destruct (old_open_loop lines fuel (Z.to_nat (i1 + 1)) st1 Hc1)
        as (st' & E' & Hc'); [lia|].
      exists st'. split; [exact E'|right; exact Hc'].
Qed.

(** X12.  The older variant's parser crashes exactly on the texts whose first
    line that is not blank is a code fence: the fence is opened with no
    slide, and pushing the code block, at the closing fence or at the end
    of the text, opens the slide and thereby drops the fence it is about to
    read.  On every other text it returns. *)
Theorem old_parser_throws_iff (rawText : str) :
  (leadingFence (Parser.splitLines rawText) = true ->
   Part000.parseSlides rawText = Part000.Threw) /\
  (leadingFence (Parser.splitLines rawText) = false ->
   exists result, Part000.parseSlides rawText = Part000.Returned result).
Proof.
  split; intro H.
  - destruct (leadingFence_split _ H) as (pre & l & rest & E & Hpre & Hl).
    exact (proj1 (old_parser_throws_on_leading_fence rawText pre rest l
                    E Hpre Hl)).
  - unfold Part000.parseSlides, Part000.parseFinal.
    destruct (old_blank_loop (Parser.splitLines rawText)
                (length (Parser.splitLines rawText)) 0
                (S (length (Parser.splitLines rawText))))
      as (st' & E & Hst); [lia|lia|exact H|].
    rewrite E. destruct Hst as [->|Hc]; [eexists; reflexivity|].
    destruct (finish_open st' Hc) as (st2 & E2). rewrite E2. eauto.
Qed.

End OldParserFacts.

Module CodeFacts.

Import Props StrFacts TextProps TextFacts CodeProps Parser.
Local Open Scope nat_scope.


Lemma trimEnd_cons (c : ascii) (s : str) :
  isSpace c = false -> trimEnd (c :: s) = c :: trimEnd s.
Proof.
  intro Hc. destruct (trimEnd_decompose s) as (w & E & Hw).
  rewrite E at 1. change (c :: trimEnd s ++ w) with ((c :: trimEnd s) ++ w).
  apply trimEnd_app_spaces; [exact Hw|].
  cbn [rev]. pose proof (hdSpace_rev_trimEnd s) as H.
  destruct (rev (trimEnd s)) as [|d t]; [cbn; exact Hc|exact H].
Qed.

Lemma trimEnd_fence (info : str) :
  trimEnd (FENCE ++ info) = FENCE ++ trimEnd info.
Proof.
  unfold FENCE. cbn [lit list_ascii_of_string app].
  rewrite !trimEnd_cons by reflexivity. reflexivity.
Qed.

Lemma parseLoop_S (fuel : nat) (lines : list str) (i : nat)
    (st : ParseState) :
  parseLoop (S fuel) lines i st =
    if i <? length lines then
      let (st', nextIndex) := processLine lines i st in
      parseLoop fuel lines (Z.to_nat (nextIndex + 1)) st'
    else Some st.
Proof. reflexivity. Qed.

(** The lines of a code body are pushed as they are. *)
Lemma code_run (language : option str) (body : list str) :
  Forall (fun l => isCodeLine l = true) body ->
  forall (pre post acc : list str) (fuel : nat) (sl : list SlideSpec)
         (cur : option SlideSpec) (og : list Origin),
    parseLoop (length body + fuel) (pre ++ body ++ post) (length pre)
      {| slides := sl; current := cur; codeBlock := Some (language, acc);
         origins := og |} =
    parseLoop fuel (pre ++ body ++ post) (length pre + length body)
      {| slides := sl; current := cur;
         codeBlock := Some (language, acc ++ body); origins := og |}.
Proof.
  induction body as [|b body IH]; intros Hb pre post acc fuel sl cur og.
  - cbn [length app plus]. rewrite Nat.add_0_r, app_nil_r. reflexivity.
  - inversion Hb as [|? ? Hb1 Hb2]; subst.
    unfold isCodeLine in Hb1. apply andb_true_iff in Hb1.
    destruct Hb1 as [_ Hf]. apply negb_true_iff in Hf.
    cbn [length plus parseLoop].
    assert (Hlt : (length pre <? length (pre ++ (b :: body) ++ post)) = true).
    { apply Nat.ltb_lt. rewrite !length_app. cbn [length]. lia. }
    rewrite Hlt. unfold processLine. cbn [codeBlock].
    change (pre ++ (b :: body) ++ post) with (pre ++ b :: body ++ post).
    rewrite nth_middle, Hf. cbn [pushCodeLine codeBlock slides current origins].
    replace (Z.to_nat (Z.of_nat (length pre) + 1)) with (length (pre ++ [b]))
      by (rewrite length_app; cbn [length]; lia).
    replace (pre ++ b :: body ++ post) with ((pre ++ [b]) ++ body ++ post)
      by (rewrite <- app_assoc; reflexivity).
    rewrite (IH Hb2 (pre ++ [b]) post (acc ++ [b]) fuel sl cur og).
    rewrite <- (app_assoc pre [b] (body ++ post)), <- (app_assoc acc [b] body).
    cbn [app].
    replace (length (pre ++ [b]) + length body) with (length pre + S (length body))
      by (rewrite length_app; cbn [length]; lia).
    reflexivity.
Qed.

(** X13.  A fenced code block is kept as it is written: a text that consists of
    an opening fence, lines that do not start with a fence, and a closing
    fence or the end of the text, gives one slide with one code block whose
    text is those lines, blank ones and indentation included, joined by
    line feeds, and whose language is the trimmed info string of the
    opening fence, if it has one. *)
Theorem code_fence_verbatim (info : str) (body : list str) (closed : bool) :
  isLine info = true -> Forall (fun l => isCodeLine l = true) body ->
  parseSlides (fenced info body closed) = Some [codeSlide info body].
Proof.
  intros Hinfo Hbody.
  set (tail := if closed then [FENCE] else []).
  assert (Hlines : splitLines (fenced info body closed) =
                   (FENCE ++ info) :: body ++ tail).
  { unfold fenced. fold tail. apply splitLines_joinLF; [discriminate|].
    constructor.
    - unfold isLine. rewrite forallb_app. fold (isLine info). rewrite Hinfo.
      reflexivity.
    - apply Forall_app. split.
      + apply Forall_forall. intros l Hl. rewrite Forall_forall in Hbody.
        specialize (Hbody l Hl). unfold isCodeLine in Hbody.
        apply andb_true_iff in Hbody. exact (proj1 Hbody).
      + unfold tail. destruct closed; repeat constructor. }
  unfold parseSlides, parseFinal. rewrite Hlines. cbv zeta.
  set (lines := (FENCE ++ info) :: body ++ tail).
  assert (Hlen : @length str lines = S (length body + length tail)).
  { unfold lines. cbn [length]. rewrite length_app. reflexivity. }
  set (language := if isEmpty (trim info) then None else Some (trim info)).
  assert (Hopen : processLine lines 0 initialState =
                  (openCodeBlock initialState language, 0%Z)).
  { unfold processLine, lines. cbn [codeBlock initialState nth].
    rewrite trimEnd_fence.
    assert (Hne : isEmpty (trim (FENCE ++ trimEnd info)) = false)
      by (rewrite isEmpty_trim; reflexivity).
    rewrite Hne.
    change (CODE_FENCE_test (FENCE ++ trimEnd info)) with true. cbv iota.
    change (sliceFrom 3 (FENCE ++ trimEnd info)) with (trimEnd info).
    rewrite trim_trimEnd. reflexivity. }
  rewrite Hlen, parseLoop_S, Hlen, Hopen.
  change (0 <? S (length body + length tail)) with true. cbv iota.
  change (Z.to_nat (0 + 1)) with (length [FENCE ++ info]).
  unfold openCodeBlock. cbn [slides current origins initialState].
  replace (S (length body + length tail))
    with (length body + S (length tail)) by lia.
  unfold lines.
  change ((FENCE ++ info) :: body ++ tail)
    with ([FENCE ++ info] ++ body ++ tail).
  pose proof (code_run language body Hbody [FENCE ++ info] tail []
                (S (length tail)) [] None []) as Hrun.
  unfold str in Hrun |- *. rewrite Hrun. clear Hrun.
  unfold lines, tail. clear. destruct closed; cbn [length app plus].
  - rewrite parseLoop_S.
    match goal with
    | |- context [?a <? ?b] => destruct (Nat.ltb_spec a b) as [H|H]
    end.
    2:{ exfalso. revert H. cbn [length]. rewrite length_app. cbn [length].
        unfold str. lia. }
    clear H. unfold processLine. cbn [codeBlock nth].
    rewrite nth_middle.
    change (CODE_FENCE_test (trimEnd FENCE)) with true. cbv iota.
    rewrite parseLoop_S.
    match goal with
    | |- context [?a <? ?b] => destruct (Nat.ltb_spec a b) as [H|H]
    end.
    { exfalso. revert H. cbn [length]. rewrite length_app. cbn [length].
      unfold str. lia. }
    reflexivity.
  - rewrite parseLoop_S.
    match goal with
    | |- context [?a <? ?b] => destruct (Nat.ltb_spec a b) as [H|H]
    end.
    { exfalso. revert H. cbn [length]. rewrite app_nil_r. unfold str. lia. }
    reflexivity.
Qed.

End CodeFacts.

(** ** The blocks of the parser *)

Module BlockFacts.

Import Props StrFacts BlockProps Parser ParserProps ParserFacts.
Local Open Scope nat_scope.


Lemma trimmedText_trim (raw : str) :
  isEmpty (trim raw) = false -> trimmedText (trim raw).
Proof.
  intro H. split; [apply isEmpty_false; exact H|apply trim_idempotent].
Qed.

Lemma trimmedText_ends (t : str) :
  trimmedText t -> hdSpace t = false /\ hdSpace (rev t) = false.
Proof.
  intros [_ E]. rewrite <- E. split; [apply hdSpace_trim|apply hdSpace_rev_trim].
Qed.

Lemma trimmedText_join (x : str) (rest : list str) :
  Forall trimmedText (x :: rest) -> trimmedText (join [LF] (x :: rest)).
Proof.
  revert x. induction rest as [|y rest IH]; intros x H;
    inversion H as [|? ? Hx Hrest]; subst; [exact Hx|].
  specialize (IH y Hrest). rewrite join_cons2.
  destruct (trimmedText_ends x Hx) as [Hx1 _].
  destruct (trimmedText_ends _ IH) as [_ Hj2].
  destruct Hx as [Hxne _]. destruct IH as [Hjne _].
  split.
  - destruct x; [congruence|discriminate].
  - apply trim_id.
    + destruct x as [|c x]; [congruence|exact Hx1].
    + rewrite app_assoc. apply hdSpace_rev_app; assumption.
Qed.

Lemma collectParagraphFrom_trimmed (ls : list str) :
  Forall trimmedText (fst (collectParagraphFrom ls)).
Proof.
  induction ls as [|raw rest IH]; cbn [collectParagraphFrom]; [constructor|].
  destruct (isEmpty raw || isEmpty (trim raw)) eqn:E; [constructor|].
  apply orb_false_iff in E. destruct E as [_ E].
  pose proof (trimmedText_trim raw E) as Hraw.
  destruct rest as [|lookahead rest'];
    [cbn [fst]; constructor; [exact Hraw|constructor]|].
  destruct (_ || _); [cbn [fst]; constructor; [exact Hraw|constructor]|].
  destruct (isBlockBoundary lookahead);
    [cbn [fst]; constructor; [exact Hraw|constructor]|].
  destruct (collectParagraphFrom (lookahead :: rest')) as [buffer k].
  cbn [fst] in *. constructor; assumption.
Qed.

Lemma collectTableFrom_rows (ls : list str) :
  Forall (fun row => row <> []) (fst (collectTableFrom ls)).
Proof.
  induction ls as [|l rest IH]; cbn [collectTableFrom]; [constructor|].
  destruct (negb _); [constructor|].
  destruct (collectTableFrom rest) as [rows k]. cbn [fst] in *.
  constructor; [|exact IH].
  unfold tableRow. intro H. apply map_eq_nil in H.
  exact (split_nonempty _ _ H).
Qed.

(** One turn of the loop appends well-formed blocks only. *)
Lemma processLine_wellFormed (lines : list str) (i : nat) (st : ParseState) :
  i < length lines ->
  exists bs,
    allBlocks (fst (processLine lines i st)) = allBlocks st ++ bs /\
    Forall wellFormed bs.
Proof.
  intro Hi. unfold processLine.
  assert (Same : forall st', allBlocks st' = allBlocks st ->
            exists bs, allBlocks st' = allBlocks st ++ bs /\
                       Forall wellFormed bs).
  { intros st' E. exists []. rewrite app_nil_r. split; [exact E|constructor]. }
  assert (One : forall b, wellFormed b ->
            exists bs, allBlocks (appendBlock st b) = allBlocks st ++ bs /\
                       Forall wellFormed bs).
  { intros b Hb. exists [b]. split; [apply allBlocks_appendBlock|].
    repeat constructor. exact Hb. }
  destruct (codeBlock st) as [[language ls]|] eqn:Ecb.
  { destruct (CODE_FENCE_test _); cbn [fst].
    - unfold appendCodeBlock. rewrite Ecb.
      change (allBlocks (clearCodeBlock ?s)) with (allBlocks s).
      apply One. exact I.
    - apply Same. unfold pushCodeLine. rewrite Ecb. reflexivity. }
  destruct (isEmpty (trim (trimEnd (nth i lines [])))) eqn:Eblank;
    [apply Same; reflexivity|].
  destruct (CODE_FENCE_test _); [apply Same; reflexivity|].
  destruct (SUBTITLE_test _).
  { apply Same. cbn [fst].
    rewrite allBlocks_updateCurrent_same by reflexivity.
    apply allBlocks_ensureSlide. }
  destruct (HEADING_test _); [apply Same; apply allBlocks_startNewSlide|].
  destruct (NOTE_test _).
  { apply Same. cbn [fst]. unfold appendNote.
    rewrite allBlocks_updateCurrent_same by reflexivity.
    apply allBlocks_ensureSlide. }
  destruct (BACKGROUND_test _).
  { apply Same. cbn [fst]. unfold updateBackground. destruct (negb _).
    - rewrite allBlocks_updateCurrent_same by reflexivity.
      apply allBlocks_ensureSlide.
    - apply allBlocks_ensureSlide. }
  destruct (IMAGE_match _) as [[altRaw pathRaw]|].
  { cbn [fst]. apply One. unfold imageBlock.
    destruct (splitSizing pathRaw). exact I. }
  destruct (isTableLine _) eqn:Et.
  { unfold collectTable. rewrite (skipn_nth str [] i lines Hi).
    pose proof (collectTableFrom_rows (nth i lines [] :: skipn (S i) lines))
      as Hrows.
    cbn [collectTableFrom] in *.
    rewrite isTableLine_trim in *. rewrite isTableLine_trimEnd in Et.
    rewrite Et in *. cbn [negb] in *.
    destruct (collectTableFrom (skipn (S i) lines)) as [rows k].
    cbn [fst] in *. apply One. split; [discriminate|exact Hrows]. }
  destruct (BULLET_test _) eqn:Eb.
  { unfold collectBullets. rewrite (skipn_nth str [] i lines Hi).
    cbn [collectBulletsFrom]. unfold BULLET_test in Eb.
    destruct (BULLET_match (nth i lines [])) as [m|]; [|discriminate].
    destruct (collectBulletsFrom (skipn (S i) lines)) as [items k].
    cbn [fst]. apply One. discriminate. }
  unfold collectParagraph. rewrite (skipn_nth str [] i lines Hi).
  pose proof (collectParagraphFrom_trimmed (nth i lines [] :: skipn (S i) lines))
    as Hbuf.
  rewrite blank_test in Eblank.
  pose proof (collectParagraphFrom_nonempty (nth i lines []) (skipn (S i) lines)
                Eblank) as Hne.
  destruct (collectParagraphFrom (nth i lines [] :: skipn (S i) lines))
    as [buffer k].
  cbn [fst] in *. apply One.
  destruct buffer as [|x rest]; [congruence|].
  apply trimmedText_join. exact Hbuf.
Qed.

Lemma parseLoop_wellFormed (lines : list str) (fuel i : nat)
    (st st' : ParseState) :
  Forall wellFormed (allBlocks st) ->
  parseLoop fuel lines i st = Some st' ->
  Forall wellFormed (allBlocks st').
Proof.
  revert i st. induction fuel as [|fuel IH]; intros i st H E; [discriminate|].
  cbn [parseLoop] in E. destruct (Nat.ltb_spec i (length lines)) as [Hi|Hi].
  - destruct (processLine_wellFormed lines i st Hi) as (bs & Hb & Hbs).
    destruct (processLine lines i st) as [st1 ni]. cbn [fst] in Hb.
    eapply IH; [|exact E]. rewrite Hb. apply Forall_app. split; assumption.
  - injection E as <-. exact H.
Qed.

(** X14.  [parseSlides] builds no empty block: every bullet list it returns has
    an item, every table has a row and every row a cell, and every
    paragraph is a text that is not empty and has no white space at either
    end. *)
Theorem parseSlides_wellFormed (rawText : str) (result : list SlideSpec) :
  parseSlides rawText = Some result ->
  Forall wellFormed (flat_map blocks result).
Proof.
  unfold parseSlides, parseFinal. intro E.
  destruct (parseLoop _ _ _ _) as [st|] eqn:El; [|discriminate].
  injection E as <-.
  pose proof (parseLoop_wellFormed _ _ _ initialState _ (Forall_nil _) El) as H.
  destruct (allSlides_finalize (appendCodeBlock st)) as (_ & -> & _).
  fold (allBlocks (appendCodeBlock st)).
  unfold appendCodeBlock. destruct (codeBlock st) as [[language ls]|]; [|exact H].
  change (allBlocks (clearCodeBlock ?s)) with (allBlocks s).
  rewrite allBlocks_appendBlock. apply Forall_app. split; [exact H|].
  repeat constructor.
Qed.

End BlockFacts.

(** ** Image lines *)

Module SizingFacts.

Import Props StrFacts SizingProps Parser.
Local Open Scope nat_scope.

Lemma skipn_length_app (p r : str) (k : nat) :
  skipn (length p + k) (p ++ r) = skipn k r.
Proof.
  induction p as [|c p IH]; [reflexivity|]. cbn [length plus app skipn].
  exact IH.
Qed.

Lemma firstn_length_app (p r : str) : firstn (length p) (p ++ r) = p.
Proof.
  induction p as [|c p IH]; [reflexivity|]. cbn [length app firstn].
  rewrite IH. reflexivity.
Qed.

Lemma streq_eq (a b : str) : streq a b = true -> a = b.
Proof.
  revert b. induction a as [|x a IH]; intros [|y b]; cbn [streq];
    try discriminate; [reflexivity|].
  intro H. apply andb_true_iff in H. destruct H as [H1 H2].
  apply Ascii.eqb_eq in H1. rewrite (IH b H2), H1. reflexivity.
Qed.

Lemma splitSizing_cover (p tag : str) :
  toLowerCase tag = lit "cover" ->
  splitSizing (p ++ lit "#" ++ tag) = (p, Some tag).
Proof.
  intro H. unfold splitSizing.
  assert (Hlen : length tag = 5)
    by (rewrite <- (length_map lower tag); fold (toLowerCase tag);
        rewrite H; reflexivity).
  assert (Hn : length (p ++ lit "#" ++ tag) = length p + 6)
    by (rewrite !length_app, Hlen; reflexivity).
  rewrite Hn.
  replace (length p + 6 - 6) with (length p + 0) by lia.
  replace (length p + 6 - 5) with (length p + 1) by lia.
  unfold sliceFrom. rewrite !skipn_length_app.
  cbn [lit list_ascii_of_string app skipn].
  replace (6 <=? length p + 6) with true by (symmetry; apply Nat.leb_le; lia).
  change (toLowerCase ("#"%char :: tag)) with ("#"%char :: toLowerCase tag).
  rewrite H. cbn [andb].
  change (streq ("#"%char :: lit "cover") (lit "#cover")) with true.
  cbv iota.
  rewrite Nat.add_0_r, firstn_length_app. reflexivity.
Qed.

Lemma splitSizing_contain (p tag : str) :
  toLowerCase tag = lit "contain" ->
  splitSizing (p ++ lit "#" ++ tag) = (p, Some tag).
Proof.
  intro H. unfold splitSizing.
  assert (Hlen : length tag = 7)
    by (rewrite <- (length_map lower tag); fold (toLowerCase tag);
        rewrite H; reflexivity).
  assert (Hn : length (p ++ lit "#" ++ tag) = length p + 8)
    by (rewrite !length_app, Hlen; reflexivity).
  rewrite Hn.
  replace (length p + 8 - 6) with (length p + 2) by lia.
  replace (length p + 8 - 8) with (length p + 0) by lia.
  replace (length p + 8 - 7) with (length p + 1) by lia.
  unfold sliceFrom. rewrite !skipn_length_app.
  cbn [lit list_ascii_of_string app skipn].
  replace (6 <=? length p + 8) with true by (symmetry; apply Nat.leb_le; lia).
  replace (8 <=? length p + 8) with true by (symmetry; apply Nat.leb_le; lia).
  destruct tag as [|a tag]; [discriminate|].
  cbn [skipn].
  change (toLowerCase ("#"%char :: a :: tag))
    with ("#"%char :: toLowerCase (a :: tag)).
  rewrite H.
  assert (Ht : toLowerCase tag = lit "ontain").
  { unfold toLowerCase in *. cbn [map] in H. injection H as _ H. exact H. }
  rewrite Ht.
  change (streq (lit "ontain") (lit "#cover")) with false.
  change (streq ("#"%char :: lit "contain") (lit "#contain")) with true.
  cbn [andb]. cbv iota.
  rewrite Nat.add_0_r, firstn_length_app. reflexivity.
Qed.

(** X16.  The sizing tag of an image path is recognised in any case of its
    letters and taken off the path: a path that ends with [#cover] or
    [#contain] gives that sizing, and the path of the image is what stands
    before the tag, trimmed. *)
Theorem imageBlock_sizing (alt p tag : str) (s : Sizing) :
  tagSizing tag = Some s ->
  imageBlock (alt, p ++ lit "#" ++ tag) = Image (trim alt) (trim p) (Some s).
Proof.
  unfold tagSizing. intro H. unfold imageBlock.
  destruct (streq (toLowerCase tag) (lit "cover")) eqn:E1.
  - injection H as <-. pose proof (streq_eq _ _ E1) as E.
    rewrite (splitSizing_cover p tag E). unfold sizingOf. rewrite E1.
    destruct tag; [discriminate|]. reflexivity.
  - destruct (streq (toLowerCase tag) (lit "contain")) eqn:E2; [|discriminate].
    injection H as <-. pose proof (streq_eq _ _ E2) as E.
    rewrite (splitSizing_contain p tag E). unfold sizingOf. rewrite E1.
    destruct tag; [discriminate|]. reflexivity.
Qed.

End SizingFacts.

Module ImageFacts.

Import Props StrFacts TextProps TextFacts ImageProps Parser.
Local Open Scope nat_scope.

Lemma imageTail_path (path trail : str) :
  path <> [] -> isLine path = true -> isBlank trail = true ->
  imageTail (path ++ lit ")" ++ trail) = Some path.
Proof.
  intros Hne Hp Ht. unfold imageTail.
  rewrite app_assoc, trimEnd_app_spaces; [|exact Ht|].
  2:{ rewrite rev_app_distr. reflexivity. }
  rewrite rev_app_distr. cbn [lit list_ascii_of_string rev app].
  change (Ascii.eqb ")" ")") with true.
  assert (E : isEmpty (rev path) = false).
  { destruct path as [|c p]; [congruence|]. cbn [rev].
    destruct (rev p); reflexivity. }
  rewrite E, forallb_rev. unfold isLine in Hp. rewrite Hp.
  cbn [andb negb]. rewrite rev_involutive. reflexivity.
Qed.

Lemma imageAlt_alt (alt path trail : str) :
  isLine alt = true -> noBracket alt = true ->
  path <> [] -> isLine path = true -> isBlank trail = true ->
  imageAlt (alt ++ lit "](" ++ path ++ lit ")" ++ trail) = Some (alt, path).
Proof.
  intros Ha Hb Hne Hp Ht.
  induction alt as [|c alt IH].
  - cbn [app lit list_ascii_of_string imageAlt].
    change (Ascii.eqb "]" "]") with true. change (Ascii.eqb "(" "(") with true.
    cbv iota.
    change (path ++ ")"%char :: trail) with (path ++ lit ")" ++ trail).
    rewrite imageTail_path by assumption. reflexivity.
  - unfold isLine in Ha. cbn [forallb] in Ha.
    apply andb_true_iff in Ha. destruct Ha as [Hc Ha].
    unfold noBracket in Hb. cbn [existsb] in Hb.
    apply negb_true_iff, orb_false_iff in Hb. destruct Hb as [Hc' Hb].
    rewrite Ascii.eqb_sym in Hc'.
    cbn [app imageAlt]. rewrite Hc', Hc.
    rewrite IH; [reflexivity|exact Ha|].
    unfold noBracket. rewrite Hb. reflexivity.
Qed.

(** X15.  An image line gives its two parts back: the alternative text, when it
    holds no closing bracket, and the path, whatever it holds, closing
    parentheses included. *)
Theorem IMAGE_match_line (indent alt path trail : str) :
  isBlank indent = true -> isBlank trail = true ->
  isLine alt = true -> noBracket alt = true ->
  path <> [] -> isLine path = true ->
  IMAGE_match (imageLine indent alt path trail) = Some (alt, path).
Proof.
  intros Hi Ht Ha Hb Hne Hp. unfold IMAGE_match, imageLine.
  rewrite trimStart_app_spaces; [|exact Hi|reflexivity].
  cbn [lit list_ascii_of_string app].
  change (Ascii.eqb "!" "!") with true. change (Ascii.eqb "[" "[") with true.
  cbv iota. cbn [andb].
  change (alt ++ "]"%char :: "("%char :: path ++ ")"%char :: trail)
    with (alt ++ lit "](" ++ path ++ lit ")" ++ trail).
  apply imageAlt_alt; assumption.
Qed.

End ImageFacts.

(** ** Tables *)

Module TableFacts.

Import Props StrFacts TextProps TextFacts TableProps Parser.
Local Open Scope nat_scope.

Lemma isCell_occ (c : str) :
  isCell c = true -> isLine c = true /\ occ PIPE c = 0.
Proof.
  unfold isCell. intro H. apply andb_true_iff in H. destruct H as [Hl Hp].
  split; [exact Hl|]. apply negb_true_iff in Hp.
  unfold occ. apply count_occ_not_In. intro Hin.
  assert (E : existsb (Ascii.eqb PIPE) c = true)
    by (apply existsb_exists; exists PIPE; split;
        [exact Hin|apply Ascii.eqb_refl]).
  congruence.
Qed.

Lemma isLine_app (a b : str) :
  isLine (a ++ b) = isLine a && isLine b.
Proof. apply forallb_app. Qed.

Lemma isLine_join (sep : str) (ls : list str) :
  isLine sep = true -> Forall (fun l => isLine l = true) ls ->
  isLine (join sep ls) = true.
Proof.
  intros Hs H. induction ls as [|x ls IH]; [reflexivity|].
  inversion H as [|? ? Hx Hls]; subst.
  destruct ls as [|y ls]; [exact Hx|].
  rewrite join_cons2, !isLine_app, Hx, Hs, (IH Hls). reflexivity.
Qed.

Lemma isLine_rowLine (cells : list str) :
  Forall (fun c => isCell c = true) cells -> isLine (rowLine cells) = true.
Proof.
  intro H. unfold rowLine. rewrite !isLine_app.
  rewrite (isLine_join [PIPE] cells); [reflexivity|reflexivity|].
  apply Forall_forall. intros c Hc. rewrite Forall_forall in H.
  exact (proj1 (isCell_occ c (H c Hc))).
Qed.

Lemma trim_rowLine (cells : list str) : trim (rowLine cells) = rowLine cells.
Proof.
  apply trim_id; [reflexivity|].
  unfold rowLine. rewrite app_assoc, rev_app_distr. reflexivity.
Qed.

Lemma trimEnd_rowLine (cells : list str) :
  trimEnd (rowLine cells) = rowLine cells.
Proof.
  apply trimEnd_id. unfold rowLine. rewrite app_assoc, rev_app_distr.
  reflexivity.
Qed.

(** The cells of a table line are what stands between its pipes,
    trimmed. *)
Lemma tableRow_rowLine (cells : list str) :
  cells <> [] -> Forall (fun c => isCell c = true) cells ->
  tableRow (rowLine cells) = map trim cells.
Proof.
  intros Hne H. unfold tableRow, rowLine, slice.
  rewrite !length_app. cbn [length app skipn].
  replace (1 + (length (join [PIPE] cells) + 1) - 1 - 1)
    with (length (join [PIPE] cells)) by lia.
  rewrite SizingFacts.firstn_length_app.
  change (split "|" (join [PIPE] cells)) with (split PIPE (join [PIPE] cells)).
  rewrite split_join; [reflexivity|exact Hne|].
  apply Forall_forall. intros c Hc. rewrite Forall_forall in H.
  exact (proj2 (isCell_occ c (H c Hc))).
Qed.

(** A line between pipes is a table line unless it is a separator line. *)
Lemma isTableLine_rowLine (cells : list str) :
  isTableLine (rowLine cells) = negb (SEPARATOR_test (rowLine cells)).
Proof.
  unfold isTableLine. rewrite trim_rowLine.
  assert (E1 : startsWith (lit "|") (rowLine cells) = true) by reflexivity.
  assert (E2 : endsWith (lit "|") (rowLine cells) = true).
  { unfold endsWith, rowLine. rewrite app_assoc, rev_app_distr. reflexivity. }
  rewrite E1, E2. cbn [negb orb].
  destruct (SEPARATOR_test (rowLine cells)); reflexivity.
Qed.

(** The separator pattern has no pipe in its class: a line of two cells or
    more is never taken for a separator, dashes or not. *)
Lemma SEPARATOR_test_columns (cells : list str) :
  2 <= length cells -> SEPARATOR_test (rowLine cells) = false.
Proof.
  intro H. destruct cells as [|a [|b rest]]; cbn [length] in H; try lia.
  unfold SEPARATOR_test, rowLine. cbn [app].
  rewrite join_cons2.
  rewrite <- !app_assoc, !rev_app_distr. cbn [rev app].
  rewrite <- !app_assoc. cbn [app].
  change (Ascii.eqb "|" "|") with true. change (Ascii.eqb PIPE "|") with true.
  cbn [andb].
  destruct (negb _); [|reflexivity]. cbn [andb].
  rewrite !forallb_app. cbn [forallb].
  change (isSeparatorChar PIPE) with false.
  rewrite !andb_false_r. reflexivity.
Qed.

Lemma pipe_line_other_tests (rest : str) :
  CODE_FENCE_test (PIPE :: rest) = false /\
  SUBTITLE_test (PIPE :: rest) = false /\
  HEADING_test (PIPE :: rest) = false /\
  NOTE_test (PIPE :: rest) = false /\
  BACKGROUND_test (PIPE :: rest) = false /\
  IMAGE_match (PIPE :: rest) = None.
Proof.
  repeat split; try reflexivity.
  - destruct rest as [|d [|e r]]; reflexivity.
  - destruct rest as [|d r]; reflexivity.
  - unfold IMAGE_match. rewrite trimStart_id by reflexivity.
    destruct rest as [|d r]; reflexivity.
Qed.

Lemma collectTableFrom_rows_all (rows : list (list str)) :
  Forall (fun cells => cells <> [] /\
                       Forall (fun c => isCell c = true) cells /\
                       isTableLine (rowLine cells) = true) rows ->
  collectTableFrom (map rowLine rows) = (map (map trim) rows, length rows).
Proof.
  induction rows as [|cells rows IH]; intro H; [reflexivity|].
  inversion H as [|? ? (Hne & Hc & Ht) Hrows]; subst.
  cbn [map collectTableFrom].
  rewrite trim_rowLine, Ht. cbn [negb].
  rewrite (IH Hrows), (tableRow_rowLine cells Hne Hc). reflexivity.
Qed.

(** X17.  A line of two cells or more between pipes is a table line whatever
    the cells hold: the separator pattern accepts no pipe between the outer
    ones, so a separator line of several columns is a row like any
    other. *)
Theorem isTableLine_columns (cells : list str) :
  2 <= length cells -> isTableLine (rowLine cells) = true.
Proof.
  intro H. rewrite isTableLine_rowLine, SEPARATOR_test_columns by exact H.
  reflexivity.
Qed.

(** X18.  A table is read back as it is written: a text whose lines are rows of
    cells between pipes gives one slide with one table, whose rows are
    those rows and whose cells are those cells, trimmed. *)
Theorem table_lines_parsed (rows : list (list str)) :
  rows <> [] ->
  Forall (fun cells => cells <> [] /\
                       Forall (fun c => isCell c = true) cells /\
                       isTableLine (rowLine cells) = true) rows ->
  parseSlides (join [LF] (map rowLine rows)) = Some [tableSlide rows].
Proof.
  intros Hne H.
  assert (Hlines : splitLines (join [LF] (map rowLine rows)) = map rowLine rows).
  { apply splitLines_joinLF.
    - destruct rows; [congruence|discriminate].
    - apply Forall_forall. intros l Hl. apply in_map_iff in Hl.
      destruct Hl as (cells & <- & Hin). rewrite Forall_forall in H.
      apply isLine_rowLine. exact (proj1 (proj2 (H cells Hin))). }
  unfold parseSlides, parseFinal. rewrite Hlines. cbv zeta.
  destruct rows as [|cells rows']; [congruence|].
  pose proof (collectTableFrom_rows_all (cells :: rows') H) as Hall.
  inversion H as [|? ? (Hcne & Hc & Ht) _]; subst.
  set (lines := map rowLine (cells :: rows')) in *.
  assert (Hstep : processLine lines 0 initialState =
                  (appendBlock initialState
                     (Table (map (map trim) (cells :: rows'))),
                   (Z.of_nat (length (cells :: rows')) - 1)%Z)).
  { unfold processLine. cbn [codeBlock initialState].
    assert (Hraw : nth 0 lines [] = rowLine cells) by reflexivity.
    rewrite Hraw, trimEnd_rowLine, trim_rowLine.
    destruct (pipe_line_other_tests (join [PIPE] cells ++ [PIPE]))
      as (T1 & T2 & T3 & T4 & T5 & T6).
    change (PIPE :: join [PIPE] cells ++ [PIPE]) with (rowLine cells) in *.
    rewrite T1, T2, T3, T4, T5, T6, Ht.
    change (isEmpty (rowLine cells)) with false. cbv iota.
    unfold collectTable. cbn [skipn]. rewrite Hall.
    reflexivity. }
  cbn [parseLoop].
  assert (Hlen : @length str lines = S (length rows'))
    by (unfold lines; cbn [map length]; rewrite length_map; reflexivity).
  rewrite Hlen. cbn [Nat.ltb Nat.leb]. rewrite Hstep.
  cbn [length].
  replace (Z.to_nat (Z.of_nat (S (length rows')) - 1 + 1))
    with (S (length rows')) by lia.
  destruct (length rows') as [|n] eqn:En.
  - cbn [parseLoop]. rewrite Hlen, Nat.ltb_irrefl. reflexivity.
  - cbn [parseLoop]. rewrite Hlen, Nat.ltb_irrefl. reflexivity.
Qed.

End TableFacts.

(** ** Note lines *)

Module NoteFacts.

Import Props StrFacts TextProps TextFacts CodeFacts NoteProps Parser.
Local Open Scope nat_scope.

Lemma trimEnd_note (text : str) : trimEnd (NOTE ++ text) = NOTE ++ trimEnd text.
Proof.
  unfold NOTE. cbn [lit list_ascii_of_string app].
  rewrite !trimEnd_cons by reflexivity. reflexivity.
Qed.

Lemma trim_note (text : str) : trim (NOTE ++ text) = NOTE ++ trimEnd text.
Proof.
  unfold trim. rewrite trimStart_id by reflexivity. apply trimEnd_note.
Qed.

Lemma trimEnd_indented (indent t : str) :
  t <> [] -> hdSpace (rev t) = false ->
  trimEnd (indent ++ t) = indent ++ t.
Proof.
  intros Hne H. apply trimEnd_id. apply hdSpace_rev_app; assumption.
Qed.

Lemma space_not_marker (c : ascii) :
  isSpace c = true -> Ascii.eqb (lower ">") (lower c) = false.
Proof.
  destruct c as [[] [] [] [] [] [] [] []]; try discriminate; reflexivity.
Qed.

(** X19.  A note line that starts at the margin gives the text after its marker;
    an indented one passes the test, which is made on the trimmed line, but
    its marker is looked for at the start of the line as it is, is not
    found and stays in the note. *)
Theorem note_line_parsed (indent text : str) :
  isBlank indent = true -> isLine indent = true -> isLine text = true ->
  parseSlides (indent ++ NOTE ++ text) =
    Some [noteSlide (if isEmpty indent then trim text
                     else NOTE ++ trimEnd text)].
Proof.
  intros Hb Hi Ht.
  set (line := indent ++ NOTE ++ text).
  assert (Hline : isLine line = true).
  { unfold line, isLine. rewrite !forallb_app.
    fold (isLine indent) (isLine text). rewrite Hi, Ht. reflexivity. }
  assert (Hlines : splitLines line = [line]).
  { apply (splitLines_joinLF [line]); [discriminate|].
    constructor; [exact Hline|constructor]. }
  assert (Hrev : hdSpace (rev (NOTE ++ trimEnd text)) = false).
  { rewrite <- trimEnd_note. apply hdSpace_rev_trimEnd. }
  assert (Hright : trimEnd line = indent ++ NOTE ++ trimEnd text).
  { unfold line. destruct (trimEnd_decompose text) as (w & E & Hw).
    rewrite E at 1. rewrite !app_assoc.
    apply trimEnd_app_spaces; [exact Hw|].
    rewrite <- app_assoc. apply hdSpace_rev_app; [discriminate|exact Hrev]. }
  assert (Htrim : trim (trimEnd line) = NOTE ++ trimEnd text).
  { rewrite Hright. unfold trim.
    rewrite trimStart_app_spaces; [|exact Hb|reflexivity].
    apply trimEnd_id. exact Hrev. }
  unfold parseSlides, parseFinal. rewrite Hlines. cbv zeta.
  cbn [length parseLoop Nat.ltb Nat.leb].
  unfold processLine. cbn [codeBlock initialState nth].
  rewrite Htrim.
  change (isEmpty (NOTE ++ trimEnd text)) with false. cbv iota.
  rewrite Hright.
  assert (Hfence : CODE_FENCE_test (indent ++ NOTE ++ trimEnd text) = false).
  { destruct indent as [|c indent]; [reflexivity|].
    unfold isBlank in Hb. cbn [forallb] in Hb.
    apply andb_true_iff in Hb. destruct Hb as [Hc _].
    cbn [app]. unfold CODE_FENCE_test. cbn [lit list_ascii_of_string startsWith].
    destruct (Ascii.eqb "`" c) eqn:E; [|reflexivity].
    apply Ascii.eqb_eq in E. subst c. discriminate Hc. }
  rewrite Hfence.
  change (SUBTITLE_test (NOTE ++ trimEnd text)) with false.
  change (HEADING_test (NOTE ++ trimEnd text)) with false.
  change (NOTE_test (NOTE ++ trimEnd text)) with true. cbv iota.
  cbn [fst snd]. change (Z.to_nat (Z.of_nat 0 + 1)) with 1.
  cbn [Nat.ltb Nat.leb].
  unfold appendNote.
  destruct indent as [|c indent].
  - cbn [app isEmpty].
    change (NOTE_strip (NOTE ++ trimEnd text)) with (trimEnd text).
    rewrite trim_trimEnd. reflexivity.
  - unfold isBlank in Hb. cbn [forallb] in Hb.
    apply andb_true_iff in Hb. destruct Hb as [Hc Hb].
    assert (Hno : NOTE_test ((c :: indent) ++ NOTE ++ trimEnd text) = false).
    { cbn [app]. unfold NOTE_test. cbn [lit list_ascii_of_string startsWithCI].
      rewrite (space_not_marker c Hc). reflexivity. }
    unfold NOTE_strip. rewrite Hno.
    assert (Ht' : trim ((c :: indent) ++ NOTE ++ trimEnd text) =
                  NOTE ++ trimEnd text).
    { unfold trim. rewrite trimStart_app_spaces;
        [|cbn [forallb]; rewrite Hc, Hb; reflexivity|reflexivity].
      apply trimEnd_id. exact Hrev. }
    rewrite Ht'. reflexivity.
Qed.

End NoteFacts.

(** ** The command line *)

Module CliFacts.

Import Props StrFacts SizingFacts Cli CliProps.
Local Open Scope nat_scope.

Lemma validLayout_In (value : str) :
  validLayout value = true -> In value VALID_LAYOUTS.
Proof.
  unfold validLayout. intro H. apply existsb_exists in H.
  destruct H as (l & Hl & E). apply streq_eq in E. subst l. exact Hl.
Qed.

Lemma setOption_sound (flagName value : str) (o o' : CliOptions) :
  value <> [] -> Sound o -> setOption flagName value o = Ok o' -> Sound o'.
Proof.
  intros Hv (Hl & H1 & H2 & H3 & H4 & H5 & H6). unfold setOption.
  repeat match goal with
  | |- (if streq ?a ?b then _ else _) = _ -> _ => destruct (streq a b)
  end;
  try (destruct (negb (validLayout value)) eqn:Ev;
       [discriminate|apply negb_false_iff in Ev]);
  intro E; try discriminate E; injection E as <-;
  repeat split; cbn; try assumption.
  apply validLayout_In. exact Ev.
Qed.

Lemma useValue_sound (flagName : str) (value : option str)
    (o o' : CliOptions) :
  Sound o -> useValue flagName value o = Ok o' -> Sound o'.
Proof.
  intros Ho. unfold useValue. destruct value as [v|]; [|discriminate].
  destruct v as [|c v]; [discriminate|]. cbn [isEmpty].
  apply setOption_sound; [discriminate|exact Ho].
Qed.

Lemma parseLoop_sound (args : list str) :
  forall (n : nat) (o o' : CliOptions),
    length args <= n -> Sound o -> parseLoop args o = Ok o' -> Sound o'.
Proof.
  intro n. revert args.
  induction n as [|n IH]; intros args o o' Hn Ho E.
  - destruct args; [injection E as <-; exact Ho|cbn [length] in Hn; lia].
  - destruct args as [|token rest]; [injection E as <-; exact Ho|].
    cbn [length] in Hn. cbn [parseLoop] in E.
    destruct (negb (startsWith (lit "--") token)); [discriminate|].
    cbv zeta in E.
    destruct (nth_error (firstn 2 (split "=" token)) 1) as [v|].
    + destruct (useValue _ (Some v) o) as [o1|e] eqn:Eu; [|discriminate].
      apply (IH rest o1 o'); [lia|exact (useValue_sound _ _ _ _ Ho Eu)|exact E].
    + destruct rest as [|next rest'].
      * exact (useValue_sound _ _ _ _ Ho E).
      * destruct (useValue _ (Some next) o) as [o1|e] eqn:Eu; [|discriminate].
        cbn [length] in Hn.
        apply (IH rest' o1 o'); [lia|exact (useValue_sound _ _ _ _ Ho Eu)|exact E].
Qed.

(** X20.  What [parseArguments] returns, when it returns: an input path and an
    output path that are not empty, the output path ending in [.pptx] in
    any case of the letters, one of the four layouts, and no optional text
    that is empty.  Any other call ends in an error. *)
Theorem parseArguments_sound (argv : list str) (o : CliOptions) :
  parseArguments argv = Ok o ->
  (exists i p,
     inPath o = Some i /\ i <> [] /\
     outPath o = Some p /\ p <> [] /\
     endsWith (lit ".pptx") (toLowerCase p) = true) /\
  In (layout o) VALID_LAYOUTS /\
  filled (title o) /\ filled (author o) /\ filled (company o) /\
  filled (background o).
Proof.
  unfold parseArguments. intro E.
  destruct (parseLoop (skipn 2 argv) defaults) as [o1|e] eqn:El; [|discriminate].
  assert (Hs : Sound o1).
  { apply (parseLoop_sound (skipn 2 argv) (length (skipn 2 argv)) defaults o1);
      [lia| |exact El].
    repeat split; cbn; auto. }
  unfold checkRequired in E.
  destruct (inPath o1) as [i|] eqn:Ei; [|discriminate].
  destruct (isEmpty i) eqn:Hi; [discriminate|].
  destruct (outPath o1) as [p|] eqn:Ep; [|discriminate].
  destruct (isEmpty p) eqn:Hp; [discriminate|].
  destruct (negb _) eqn:Hext; [discriminate|].
  injection E as <-. apply negb_false_iff in Hext.
  destruct Hs as (Hl & _ & _ & H3 & H4 & H5 & H6).
  split; [|repeat split; assumption].
  exists i, p. rewrite Ei, Ep.
  repeat split; try (apply isEmpty_false; assumption). exact Hext.
Qed.

Lemma split_joined (name value : str) :
  occ "=" name = 0 ->
  split "=" (joined name value) = flag name :: split "=" value.
Proof.
  intro H. unfold joined, flag.
  change (lit "--" ++ name ++ lit "=" ++ value)
    with ((lit "--" ++ name) ++ "="%char :: value).
  apply split_app_sep. exact H.
Qed.

(** X21.  An option takes its value from the same argument, after an equals
    sign, or from the next argument, with the same effect; and of a value
    that holds an equals sign only what stands before it is used. *)
Theorem option_forms (name value more : str) (rest : list str)
    (o : CliOptions) :
  occ "=" name = 0 -> occ "=" value = 0 ->
  parseLoop (joined name value :: rest) o =
    parseLoop (flag name :: value :: rest) o /\
  parseLoop (joined name (value ++ lit "=" ++ more) :: rest) o =
    parseLoop (joined name value :: rest) o.
Proof.
  intros Hn Hv.
  assert (Hflag : split "=" (flag name) = [flag name])
    by (apply split_no_sep; exact Hn).
  assert (H1 : split "=" (joined name value) = [flag name; value])
    by (rewrite split_joined by exact Hn;
        rewrite (split_no_sep "=" value Hv); reflexivity).
  assert (H2 : firstn 2 (split "=" (joined name (value ++ lit "=" ++ more))) =
               [flag name; value]).
  { rewrite split_joined by exact Hn.
    change (value ++ lit "=" ++ more) with (value ++ "="%char :: more).
    rewrite (split_app_sep "=" value more Hv). reflexivity. }
  split.
  - cbn [parseLoop]. rewrite H1, Hflag. reflexivity.
  - cbn [parseLoop]. rewrite H1, H2. reflexivity.
Qed.

End CliFacts.

(** ** List lines *)

Module BulletFacts.

Import Props StrFacts TextProps BulletProps Parser.
Local Open Scope nat_scope.








End BulletFacts.

(** ** Splitting a code block *)

Module CodeSplit.

Import Render Props StrFacts RenderFacts CodeSplitProps.
Local Open Scope Q_scope.

Lemma join_split (c : ascii) (s : str) : join [c] (split c s) = s.
Proof.
  induction s as [|a s IH]; [reflexivity|]. cbn [split].
  destruct (Ascii.eqb a c) eqn:E.
  - apply Ascii.eqb_eq in E. subst a.
    rewrite join_cons_nonempty by apply split_nonempty.
    rewrite IH. reflexivity.
  - destruct (split c s) as [|w ws] eqn:Es; [exfalso; exact (split_nonempty c s Es)|].
    destruct ws as [|w' ws].
    + cbn [join] in *. rewrite IH. reflexivity.
    + rewrite join_cons2 in *. cbn [app] in *. rewrite IH. reflexivity.
Qed.

(** X22.  When a code block is split nothing is lost but white space: its
    text is the head that is drawn, a line feed, a run of white space that is
    dropped (the indentation of the first line that is left, and any blank
    lines before it), and the text of the remainder, which keeps the
    language. *)
Theorem code_split_drops_white_space (t : str) (language : option str)
    (dims : RenderDimensions) (nc : Q) (r : Block) (ds : list Draw) :
  renderCode t language dims = (Split nc r, ds) ->
  exists head h dropped rest,
    ds = [AddText head (x dims) (y dims) (width dims) h] /\
    r = Code rest language /\
    t = head ++ [LF] ++ dropped ++ rest /\
    forallb isSpace dropped = true /\ hdSpace rest = false.
Proof.
  intro E. destruct (renderCode_split _ _ _ _ _ _ E) as (m & h & Hm & -> & -> & _).
  set (lines := split LF t) in *.
  set (tail := join [LF] (skipn m lines)).
  exists (join [LF] (firstn m lines)), h, (takeWhile isSpace tail),
         (trimStart tail).
  split; [reflexivity|]. split; [reflexivity|].
  split; [|split; [apply takeWhile_all|apply hdSpace_trimStart]].
  unfold trimStart. rewrite takeWhile_dropWhile. unfold tail.
  rewrite <- (join_app [LF] (firstn m lines) (skipn m lines)).
  - rewrite firstn_skipn. unfold lines. symmetry. apply join_split.
  - apply firstn_nonempty; [lia|apply split_nonempty].
  - apply skipn_nonempty. lia.
Qed.

End CodeSplit.

(** ** Parsing, then rendering *)

Module Pipeline.

Import Render Props PageProps PageFacts.
Local Open Scope Q_scope.


End Pipeline.

(** ** The theorems on the parser and on the command line at work *)

Module ParseInstances.

Import Props Examples ParseExamples.
Local Open Scope nat_scope.

Lemma line_ends_agree_witness :
  (Parser.splitLines (join [LF] headingAndItem) = headingAndItem /\
   Parser.splitLines (join TextProps.CRLF headingAndItem) = headingAndItem /\
   Parser.splitLines (join [CR] headingAndItem) = headingAndItem) /\
  Parser.parseSlides (join TextProps.CRLF headingAndItem) =
    Parser.parseSlides (join [LF] headingAndItem) /\
  Parser.parseSlides (join [CR] headingAndItem) =
    Parser.parseSlides (join [LF] headingAndItem).
Proof.
  apply (TextFacts.line_ends_agree headingAndItem); [discriminate|].
  repeat constructor.
Defined.

Lemma old_parser_throws_iff_witness :
  (OldParserProps.leadingFence (Parser.splitLines leadingFence) = true /\
   Part000.parseSlides leadingFence = Part000.Threw) /\
  (OldParserProps.leadingFence (Parser.splitLines twoSlides) = false /\
   exists result, Part000.parseSlides twoSlides = Part000.Returned result).
Proof.
  assert (A : OldParserProps.leadingFence (Parser.splitLines leadingFence) = true)
    by (vm_compute; reflexivity).
  assert (B : OldParserProps.leadingFence (Parser.splitLines twoSlides) = false)
    by (vm_compute; reflexivity).
  split.
  - split; [exact A|].
    exact (proj1 (OldParserFacts.old_parser_throws_iff leadingFence) A).
  - split; [exact B|].
    exact (proj2 (OldParserFacts.old_parser_throws_iff twoSlides) B).
Defined.

Lemma code_fence_verbatim_witness :
  Parser.parseSlides (CodeProps.fenced (lit "js") codeBody true) =
    Some [CodeProps.codeSlide (lit "js") codeBody] /\
  Parser.parseSlides (CodeProps.fenced (lit "js") codeBody false) =
    Some [CodeProps.codeSlide (lit "js") codeBody].
Proof.
  split; apply CodeFacts.code_fence_verbatim;
    try reflexivity; repeat constructor.
Defined.

Lemma parseSlides_wellFormed_witness :
  exists result,
    Parser.parseSlides twoSlides = Some result /\
    Forall BlockProps.wellFormed (flat_map blocks result).
Proof.
  destruct (Parser.parseSlides twoSlides) as [result|] eqn:E;
    [|vm_compute in E; discriminate E].
  exists result. split; [reflexivity|].
  exact (BlockFacts.parseSlides_wellFormed twoSlides result E).
Defined.

Lemma IMAGE_match_line_witness :
  IMAGE_match
    (ImageProps.imageLine (lit "  ") (lit "logo") (lit "img/a(1).png") (lit " ")) =
    Some (lit "logo", lit "img/a(1).png").
Proof.
  apply ImageFacts.IMAGE_match_line; try reflexivity. discriminate.
Defined.

Lemma imageBlock_sizing_witness :
  SizingProps.tagSizing (lit "CoVer") = Some cover /\
  Parser.imageBlock (lit "a", lit "x.png" ++ lit "#" ++ lit "CoVer") =
    Image (trim (lit "a")) (trim (lit "x.png")) (Some cover).
Proof.
  split; [reflexivity|].
  apply (SizingFacts.imageBlock_sizing (lit "a") (lit "x.png") (lit "CoVer") cover).
  reflexivity.
Defined.

Lemma isTableLine_columns_witness :
  2 <= length dashRow /\ isTableLine (TableProps.rowLine dashRow) = true.
Proof.
  assert (H : 2 <= length dashRow) by (simpl; lia).
  split; [exact H|]. exact (TableFacts.isTableLine_columns dashRow H).
Defined.

Lemma table_lines_parsed_witness :
  Parser.parseSlides
    (join [LF] (map TableProps.rowLine [headerRow; dashRow; dataRow])) =
    Some [TableProps.tableSlide [headerRow; dashRow; dataRow]].
Proof.
  apply TableFacts.table_lines_parsed; [discriminate|].
  repeat constructor; try discriminate.
Defined.

Lemma parseArguments_sound_witness :
  Cli.parseArguments argv = Cli.Ok parsedArgv /\
  (exists i p,
     Cli.inPath parsedArgv = Some i /\ i <> [] /\
     Cli.outPath parsedArgv = Some p /\ p <> [] /\
     endsWith (lit ".pptx") (toLowerCase p) = true) /\
  In (Cli.layout parsedArgv) Cli.VALID_LAYOUTS /\
  CliProps.filled (Cli.title parsedArgv) /\
  CliProps.filled (Cli.author parsedArgv) /\
  CliProps.filled (Cli.company parsedArgv) /\
  CliProps.filled (Cli.background parsedArgv).
Proof.
  assert (E : Cli.parseArguments argv = Cli.Ok parsedArgv)
    by (vm_compute; reflexivity).
  split; [exact E|]. exact (CliFacts.parseArguments_sound argv parsedArgv E).
Defined.

Lemma option_forms_witness :
  Cli.parseLoop [CliProps.joined (lit "title") (lit "a")] Cli.defaults =
    Cli.parseLoop [CliProps.flag (lit "title"); lit "a"] Cli.defaults /\
  Cli.parseLoop [CliProps.joined (lit "title") (lit "a" ++ lit "=" ++ lit "b")]
    Cli.defaults =
    Cli.parseLoop [CliProps.joined (lit "title") (lit "a")] Cli.defaults.
Proof.
  apply (CliFacts.option_forms (lit "title") (lit "a") (lit "b") [] Cli.defaults);
    reflexivity.
Defined.

Lemma note_line_parsed_witness :
  Parser.parseSlides (lit "  " ++ NoteProps.NOTE ++ lit " hi ") =
    Some [NoteProps.noteSlide (lit ">note: hi")] /\
  Parser.parseSlides ([] ++ NoteProps.NOTE ++ lit " hi ") =
    Some [NoteProps.noteSlide (lit "hi")].
Proof.
  split.
  - apply (NoteFacts.note_line_parsed (lit "  ") (lit " hi ")); reflexivity.
  - apply (NoteFacts.note_line_parsed [] (lit " hi ")); reflexivity.
Defined.

Lemma code_split_drops_white_space_witness :
  Render.renderCode CodeSplitProps.indentedCode None roomForOne =
    (Render.Split (Render.y roomForOne + Render.availableHeight roomForOne)
       (Code (lines ["b"; "  c"]%string) None),
     snd (Render.renderCode CodeSplitProps.indentedCode None roomForOne)) /\
  exists head h dropped rest,
    snd (Render.renderCode CodeSplitProps.indentedCode None roomForOne) =
      [Render.AddText head (Render.x roomForOne) (Render.y roomForOne)
         (Render.width roomForOne) h] /\
    Code (lines ["b"; "  c"]%string) None = Code rest None /\
    CodeSplitProps.indentedCode = head ++ [LF] ++ dropped ++ rest /\
    forallb isSpace dropped = true /\ hdSpace rest = false.
Proof.
  assert (E : Render.renderCode CodeSplitProps.indentedCode None roomForOne =
    (Render.Split (Render.y roomForOne + Render.availableHeight roomForOne)
       (Code (lines ["b"; "  c"]%string) None),
     snd (Render.renderCode CodeSplitProps.indentedCode None roomForOne)))
    by (vm_compute; reflexivity).
  split; [exact E|].
  exact (CodeSplit.code_split_drops_white_space _ _ _ _ _ _ E).
Defined.



End ParseInstances.
